(** * The Copilot-extension streaming bridge, as a shallow embedding

    The repository holds three revisions of one request handler
    ([src/src/fis.ts], [src/unnamed/part_000], [src/unnamed/part_001]).
    Each revision relays the output of a LangGraph run to the caller as a
    sequence of Copilot events.  This development embeds the three
    handlers and proves properties of the session directory, the stream
    reassembly loop and the emitted event sequence. *)

From Stdlib Require Import Strings.String Strings.Byte NArith ZArith.
From stdpp Require Import base option list gmap.

Set Default Proof Using "Type".
Local Open Scope N_scope.

(** ** JavaScript strings

    A JavaScript string is a sequence of UTF-16 code units; [length],
    [slice], [split], [startsWith] and [trim] all work on code units. *)

Definition jsstring := list N.

(** The code units of an ASCII literal of the source. *)
Definition js (s : string) : jsstring :=
  map Byte.to_N (list_byte_of_string s).

(** ECMAScript WhiteSpace and LineTerminator code points, the ones
    [String.prototype.trim] removes. *)
Definition isWhiteSpace (c : N) : bool :=
  (c =? 9) || (c =? 10) || (c =? 11) || (c =? 12) || (c =? 13) || (c =? 32)
  || (c =? 160) || (c =? 5760) || ((8192 <=? c) && (c <=? 8202))
  || (c =? 8232) || (c =? 8233) || (c =? 8239) || (c =? 8287)
  || (c =? 12288) || (c =? 65279).

(** [s.trimStart()], [s.trimEnd()] and [s.trim()]. *)
Fixpoint trimStart (s : jsstring) : jsstring :=
  match s with
  | c :: s' => if isWhiteSpace c then trimStart s' else s
  | [] => []
  end.

Definition trimEnd (s : jsstring) : jsstring := rev (trimStart (rev s)).

Definition trim (s : jsstring) : jsstring := trimEnd (trimStart s).

(** [s.startsWith(p)]. *)
Fixpoint startsWith (s p : jsstring) {struct p} : bool :=
  match p, s with
  | [], _ => true
  | a :: p', b :: s' => (a =? b) && startsWith s' p'
  | _ :: _, [] => false
  end.

(** [s.slice(n)] for a non-negative [n]. *)
Definition slice (n : nat) (s : jsstring) : jsstring := drop n s.

(** [a === b] on strings. *)
Definition str_eqb (a b : jsstring) : bool := bool_decide (a = b).

(** [s.split(sep)] for a separator of one code unit: never empty, one
    more element than there are separators in [s]. *)
Fixpoint split (sep : N) (s : jsstring) : list jsstring :=
  match s with
  | [] => [[]]
  | c :: s' =>
      if c =? sep then [] :: split sep s'
      else match split sep s' with
           | l :: ls => (c :: l) :: ls
           | [] => [[c]]
           end
  end.

(** The line feed, ["\n"]. *)
Definition LF : N := 10.

(** [a.pop()]: the last element (or [undefined]) and the array that is
    left. *)
Definition pop {A} (a : list A) : option A * list A :=
  (last a, removelast a).

(** ** JSON values and the JavaScript operations the handlers apply to them *)

(** A JSON number is kept as a decimal [mantissa * 10 ^ exponent]; the
    rounding of IEEE doubles is not modelled. *)
#[warnings="-register-all"]
Inductive json : Type :=
  | JNull
  | JBool (b : bool)
  | JNum (mantissa exponent : Z)
  | JStr (s : jsstring)
  | JArr (elements : list json)
  | JObj (fields : list (jsstring * json)).

(** What reading a property gives: a value or [undefined]. *)
Inductive jsval : Type :=
  | Undefined
  | Val (j : json).

(** An own property of an object built by [JSON.parse]: the last of
    several equal keys wins. *)
Fixpoint field (k : jsstring) (fs : list (jsstring * json)) : jsval :=
  match fs with
  | [] => Undefined
  | (k', v) :: fs' =>
      match field k fs' with
      | Undefined => if str_eqb k k' then Val v else Undefined
      | found => found
      end
  end.

(** The number a [length] reads as. *)
Definition number_of_nat (n : nat) : json := JNum (Z.of_nat n) 0.

(** [v.k] for one of the property names the handlers read ([messages],
    [type], [content], [tool_calls], [length], [thread_id], [id],
    [uuid]); none of them lives on a prototype, except [length] of
    strings and arrays.  [None] is the [TypeError] of reading a property
    of [null]. *)
Definition getProp (v : json) (k : jsstring) : option jsval :=
  match v with
  | JNull => None
  | JObj fs => Some (field k fs)
  | JArr l =>
      Some (if str_eqb k (js "length") then Val (number_of_nat (length l))
            else Undefined)
  | JStr s =>
      Some (if str_eqb k (js "length") then Val (number_of_nat (length s))
            else Undefined)
  | JBool _ | JNum _ _ => Some Undefined
  end.

(** ToBoolean. *)
Definition truthy (v : jsval) : bool :=
  match v with
  | Undefined | Val JNull => false
  | Val (JBool b) => b
  | Val (JNum m _) => negb (m =? 0)%Z
  | Val (JStr s) => negb (bool_decide (s = []))
  | Val (JArr _) | Val (JObj _) => true
  end.

(** [v === "..."] against a string literal. *)
Definition strictEqStr (v : jsval) (s : jsstring) : bool :=
  match v with
  | Val (JStr t) => str_eqb t s
  | _ => false
  end.

(** [v === 0]. *)
Definition strictEqZero (v : jsval) : bool :=
  match v with
  | Val (JNum m _) => (m =? 0)%Z
  | _ => false
  end.

(** [typeof v === 'string']. *)
Definition isString (v : jsval) : bool :=
  match v with
  | Val (JStr _) => true
  | _ => false
  end.

(** [a || b]. *)
Definition jsOr (a b : jsval) : jsval := if truthy a then a else b.

(** [v.length] of a value that is neither [null] nor [undefined]. *)
Definition lengthOf (v : json) : jsval :=
  match getProp v (js "length") with
  | Some r => r
  | None => Undefined
  end.

(** [!tc || tc.length === 0], the test both for a missing and for an
    empty [tool_calls]. *)
Definition noToolCalls (tc : jsval) : bool :=
  match tc with
  | Val j => negb (truthy tc) || strictEqZero (lengthOf j)
  | Undefined => true
  end.

(** ** The platform: [JSON.parse] and [TextDecoder]

    Both are built-ins of the JavaScript runtime, not code of the
    repository, so the handlers are embedded over any runtime.
    [JSON_parse] answers [None] where [JSON.parse] throws a
    [SyntaxError]; [syntaxErrorMessage] is the message of that error for
    a text, [typeErrorMessage] the message of the [TypeError] for reading
    the named property of [null].  A [TextDecoder] used with [{ stream: true }] is a
    machine that consumes its input byte by byte and keeps the bytes of
    an unfinished character in its state. *)
Class Runtime := {
  JSON_parse : jsstring -> option json;
  syntaxErrorMessage : jsstring -> jsstring;
  typeErrorMessage : jsstring -> jsstring;
  TextDecoder : Type;
  newTextDecoder : TextDecoder;
  decodeByte : TextDecoder -> byte -> TextDecoder * jsstring;
}.

(** The chunk of a read. *)
Definition Uint8Array := list byte.

(** [decoder.decode(value, { stream: true })]: the decoder after the
    chunk and the text it released. *)
Fixpoint decode `{Runtime} (d : TextDecoder) (value : Uint8Array)
    : TextDecoder * jsstring :=
  match value with
  | [] => (d, [])
  | b :: value' =>
      let '(d1, s1) := decodeByte d b in
      let '(d2, s2) := decode d1 value' in
      (d2, s1 ++ s2)
  end.

(** The texts one decoder releases for the chunks of a stream, chunk by
    chunk. *)
Fixpoint decodeChunks `{Runtime} (d : TextDecoder) (chunks : list Uint8Array)
    : list jsstring :=
  match chunks with
  | [] => []
  | value :: chunks' =>
      let '(d1, chunk) := decode d value in chunk :: decodeChunks d1 chunks'
  end.

(** ** The fragment filter the three revisions share

    [msg.type], [msg.content] and [msg.tool_calls] are read off one
    value, so either the first read throws ([msg] is [null]) or none
    does.  [None] is that [TypeError]. *)
Definition messageFields (msg : json) : option (jsval * jsval * jsval) :=
  ty ← getProp msg (js "type");
  content ← getProp msg (js "content");
  tool_calls ← getProp msg (js "tool_calls");
  Some (ty, content, tool_calls).

(** [typeof c === 'string' && c.trim()]. *)
Definition nonBlankString (c : jsval) : bool :=
  match c with
  | Val (JStr s) => negb (bool_decide (trim s = []))
  | _ => false
  end.

(** What [stream.write(createTextEvent(c))] adds to the fragments. *)
Definition fragmentOf (c : jsval) : list json :=
  match c with
  | Val j => [j]
  | Undefined => []
  end.

(** A [for (const msg of msgs)] loop whose body may throw: what the
    iterations wrote, and whether the loop ran to its end. *)
Fixpoint forOf (body : json -> option (list json)) (msgs : list json)
    : list json * bool :=
  match msgs with
  | [] => ([], true)
  | msg :: msgs' =>
      match body msg with
      | None => ([], false)
      | Some w =>
          let '(w', completed) := forOf body msgs' in (w ++ w', completed)
      end
  end.

(** [buffer = lines.pop() || ''] (and [lines.pop() ?? ''], which agrees
    with it on strings): the residual tail and the complete lines. *)
Definition takeLines (buffer : jsstring) : jsstring * list jsstring :=
  let '(tail, lines) := pop (split LF buffer) in
  (default [] tail, lines).

(** [Array.isArray(v)], and the elements of an array. *)
Definition isArray (v : jsval) : bool :=
  match v with
  | Val (JArr _) => true
  | _ => false
  end.

Definition elementsOf (v : jsval) : list json :=
  match v with
  | Val (JArr l) => l
  | _ => []
  end.

(** ** Events, failures and the world of a request *)

(** An entry of [createErrorsEvent]. *)
Record agentError := {
  type : jsstring;
  message : jsstring;
  code : jsstring;
  identifier : jsstring;
}.

(** What [stream.write] receives: the results of [createAckEvent],
    [createTextEvent], [createErrorsEvent] and [createDoneEvent] of the
    Copilot SDK. *)
Inductive event : Type :=
  | Ack
  | Text (content : json)
  | Errors (errors : list agentError)
  | Done.

(** A thrown value: an [Error] with its message, or another value with
    the text [JSON.stringify] gives for it. *)
Inductive thrown : Type :=
  | Error (msg : jsstring)
  | OtherValue (stringified : jsstring).

(** The requests the handler sends out. *)
Inductive call : Type :=
  | GetUser
  | CreateThread
  | OpenRun (threadId : json) (userPrompt : jsstring).

(** One answer of [reader.read()]: the chunk and the [done] flag,
    together with the reading [Date.now()] gives while the answer is
    handled, or a rejection. *)
Inductive readResult : Type :=
  | Read (value : option Uint8Array) (done : bool) (now : Z)
  | ReadRejected (e : thrown).

(** A [fetch] response: [text] is what [response.text()] resolves to,
    [body] the answers of the body's reader ([None] for a [null] body).
    After the last listed answer the stream is closed, and its reader
    answers [{ value: undefined, done: true }]. *)
Record response := {
  ok : bool;
  status : N;
  statusText : jsstring;
  text : jsstring;
  body : option (list readResult);
}.

(** Everything outside the handler during one request: the GitHub user
    ([user.data.login]) or the rejection of the lookup, the prompt
    [getUserMessage(payload)], the outcome of [POST /threads] and of
    [POST /threads/<id>/runs/stream] (a timeout is a rejection), and
    [Date.now()] when the read loop starts. *)
Record scenario := {
  userReply : thrown + jsstring;
  prompt : jsstring;
  threadReply : thrown + response;
  runReply : thrown + response;
  startTime : Z;
}.

(** The state a request acts on: the events written to the stream, the
    requests sent, and the module-level [userThreads] map. *)
Record world := {
  sink : list event;
  calls : list call;
  userThreads : gmap jsstring json;
}.

(** How a step ends: with a value, or with a thrown value. *)
Inductive completion (A : Type) : Type :=
  | Normal (a : A)
  | Throw (e : thrown).
Arguments Normal {A} a.
Arguments Throw {A} e.

(** Computations that act on the world and may throw. *)
Definition M (A : Type) : Type := world -> completion A * world.

Definition ret {A} (a : A) : M A := fun w => (Normal a, w).

Definition bind {A B} (m : M A) (k : A -> M B) : M B :=
  fun w =>
    match m w with
    | (Normal a, w') => k a w'
    | (Throw e, w') => (Throw e, w')
    end.

Definition throw {A} (e : thrown) : M A := fun w => (Throw e, w).

Declare Scope js_scope.
Delimit Scope js_scope with M.
Notation "x <- m ;; k" := (bind m (fun x => k))
  (at level 100, m at next level, right associativity) : js_scope.
Notation "m ;; k" := (bind m (fun _ => k))
  (at level 100, right associativity) : js_scope.
Bind Scope js_scope with M.

(** [stream.write(e)]. *)
Definition write (e : event) : M unit :=
  fun w =>
    (Normal tt,
     {| sink := sink w ++ [e]; calls := calls w;
        userThreads := userThreads w |}).

(** One [stream.write] per event, in order. *)
Definition writeAll (es : list event) : M unit :=
  fun w =>
    (Normal tt,
     {| sink := sink w ++ es; calls := calls w;
        userThreads := userThreads w |}).

(** A request leaves the handler. *)
Definition send (c : call) : M unit :=
  fun w =>
    (Normal tt,
     {| sink := sink w; calls := calls w ++ [c];
        userThreads := userThreads w |}).

(** [userThreads.get(k)]. *)
Definition threadsGet (k : jsstring) : M jsval :=
  fun w =>
    (Normal (match userThreads w !! k with Some v => Val v | None => Undefined end),
     w).

(** [userThreads.set(k, v)]. *)
Definition threadsSet (k : jsstring) (v : json) : M unit :=
  fun w =>
    (Normal tt,
     {| sink := sink w; calls := calls w;
        userThreads := <[k := v]> (userThreads w) |}).

(** [await p] for a promise that is already settled. *)
Definition await {A} (p : thrown + A) : M A :=
  match p with
  | inl e => throw e
  | inr a => ret a
  end.

(** The decimal digits of a number in a template literal. *)
Fixpoint uintDigits (u : Decimal.uint) : jsstring :=
  match u with
  | Decimal.Nil => []
  | Decimal.D0 u => 48 :: uintDigits u
  | Decimal.D1 u => 49 :: uintDigits u
  | Decimal.D2 u => 50 :: uintDigits u
  | Decimal.D3 u => 51 :: uintDigits u
  | Decimal.D4 u => 52 :: uintDigits u
  | Decimal.D5 u => 53 :: uintDigits u
  | Decimal.D6 u => 54 :: uintDigits u
  | Decimal.D7 u => 55 :: uintDigits u
  | Decimal.D8 u => 56 :: uintDigits u
  | Decimal.D9 u => 57 :: uintDigits u
  end.

Definition toDecimal (n : N) : jsstring := uintDigits (N.to_uint n).

(** ** Session directory and conversation client

    The three revisions hold the same text for these steps
    ([part_001] lines 75-132, [part_000] lines 70-120, [fis.ts] lines
    74-127). *)
Section Session.
Context `{Runtime}.

(** [threadData.thread_id || threadData.id || threadData.uuid];
    [None] is the [TypeError] for a body that is [null]. *)
Definition handleOf (threadData : json) : option jsval :=
  thread_id ← getProp threadData (js "thread_id");
  id ← getProp threadData (js "id");
  uuid ← getProp threadData (js "uuid");
  Some (jsOr (jsOr thread_id id) uuid).

(** [await threadResponse.json()]. *)
Definition responseJson (r : response) : completion json :=
  match JSON_parse (text r) with
  | Some v => Normal v
  | None => Throw (Error (syntaxErrorMessage (text r)))
  end.

(** From the reply to [POST /threads] to the new thread id
    ([part_001] lines 77-91). *)
Definition createConversation (reply : thrown + response)
    : completion json :=
  match reply with
  | inl e => Throw e
  | inr threadResponse =>
      if negb (ok threadResponse) then
        let errText := text threadResponse in
        Throw (Error (js "Failed to create thread: " ++ errText))
      else
        match responseJson threadResponse with
        | Throw e => Throw e
        | Normal threadData =>
            match handleOf threadData with
            | None => Throw (Error (typeErrorMessage (js "thread_id")))
            | Some (Val threadId) =>
                if negb (truthy (Val threadId)) then
                  Throw (Error (js "Thread creation response missing thread_id"))
                else Normal threadId
            | Some Undefined =>
                Throw (Error (js "Thread creation response missing thread_id"))
            end
        end
  end.

(** The outcome of a step that writes nothing, inside the handler. *)
Definition settle {A} (c : completion A) : M A :=
  match c with
  | Normal a => ret a
  | Throw e => throw e
  end.

(** The body of [if (!threadId)] ([part_001] lines 77-92). *)
Definition createThread (sc : scenario) (userLogin : jsstring) : M json :=
  (send CreateThread;;
   threadId <- settle (createConversation (threadReply sc));;
   threadsSet userLogin threadId;;
   ret threadId)%M.

(** [let threadId = userThreads.get(userLogin); if (!threadId) { ... }]
    ([part_001] lines 75-93). *)
Definition resolve (sc : scenario) (userLogin : jsstring) : M json :=
  (threadId <- threadsGet userLogin;;
   match threadId with
   | Val stored =>
       if negb (truthy threadId) then createThread sc userLogin
       else ret stored
   | Undefined => createThread sc userLogin
   end)%M.

(** The streaming run against a thread ([part_001] lines 95-134): the
    answers the body's reader will give. *)
Definition openRun (sc : scenario) (threadId : json) (userPrompt : jsstring)
    : M (list readResult) :=
  (send (OpenRun threadId userPrompt);;
   langGraphResponse <- await (runReply sc);;
   match body langGraphResponse with
   | Some reads =>
       if negb (ok langGraphResponse) then
         let errText := text langGraphResponse in
         throw (Error (js "LangGraph agent error: "
                       ++ toDecimal (status langGraphResponse)
                       ++ js " " ++ errText))
       else ret reads
   | None =>
       let errText := statusText langGraphResponse in
       throw (Error (js "LangGraph agent error: "
                     ++ toDecimal (status langGraphResponse)
                     ++ js " " ++ errText))
   end)%M.

(** Lines 68-73 of [part_001]: the acknowledgement and the caller's
    login. *)
Definition identify (sc : scenario) : M jsstring :=
  (write Ack;;
   send GetUser;;
   await (userReply sc))%M.

(** Everything up to [langGraphResponse.body.getReader()]: the
    caller's login and the answers of the reader. *)
Definition openStream (sc : scenario) : M (jsstring * list readResult) :=
  (userLogin <- identify sc;;
   let userPrompt := prompt sc in
   threadId <- resolve sc userLogin;;
   reads <- openRun sc threadId userPrompt;;
   ret (userLogin, reads))%M.
End Session.

(** ** The reassembler of [src/unnamed/part_001] (lines 180-231) *)
Module Part001.
Section Reassembler.
Context `{Runtime}.

(** Lines 207-216, the body of [for (const msg of eventObj.messages)]. *)
Definition messageBody (msg : json) : option (list json) :=
  '(ty, content, tool_calls) ← messageFields msg;
  Some (if strictEqStr ty (js "ai") && truthy content
           && nonBlankString content && noToolCalls tool_calls
        then fragmentOf content else []).

(** Lines 204-224, what the [try] block writes for a decoded record;
    a [TypeError] leaves the block and is caught at line 226. *)
Definition processEvent (eventObj : json) : list json :=
  match getProp eventObj (js "messages") with
  | None => []
  | Some messages =>
      let '(w, completed) :=
        if truthy messages && isArray messages
        then forOf messageBody (elementsOf messages)
        else ([], true) in
      if completed then
        match getProp eventObj (js "content") with
        | Some content =>
            w ++ (if truthy content && isString content
                  then fragmentOf content else [])
        | None => w
        end
      else w
  end.

(** Lines 188-230, one iteration of [for (const line of lines)]. *)
Definition processLine (line : jsstring) : list json :=
  let trimmedLine := trim line in
  if bool_decide (trimmedLine = []) then []
  else if startsWith trimmedLine (js "data: ") then
    let data := trim (slice 6 trimmedLine) in
    if str_eqb data [] || str_eqb data (js "ping") then []
    else if startsWith data (js "{") then
      match JSON_parse data with
      | Some eventObj => processEvent eventObj
      | None => []
      end
    else []
  else [].

(** Lines 181-231: the pending buffer after a decoded chunk, and the
    fragments written while its complete lines are processed. *)
Definition feed (buffer chunk : jsstring) : jsstring * list json :=
  let buffer := buffer ++ chunk in
  let '(buffer, lines) := takeLines buffer in
  (buffer, flat_map processLine lines).

(** [feed] over the decoded chunks of a stream in order, from a pending
    buffer: the fragments the read loop writes over its data reads. *)
Fixpoint feedAll (buffer : jsstring) (chunks : list jsstring) : list json :=
  match chunks with
  | [] => []
  | chunk :: chunks' =>
      let '(buffer1, fragments) := feed buffer chunk in
      fragments ++ feedAll buffer1 chunks'
  end.

(** The fragments of a whole stream of byte chunks, from a new decoder
    and an empty buffer. *)
Definition reassemble (chunks : list Uint8Array) : list json :=
  feedAll [] (decodeChunks newTextDecoder chunks).
End Reassembler.

(** *** The handler of [src/unnamed/part_001] (lines 64-276) *)
Section Handler.
Context `{Runtime}.

(** Lines 143 and 145. *)
Definition maxEmptyReads : nat := 50.
Definition maxInactivityTime : Z := 60000.

(** The variables of the read loop. *)
Record loop := {
  decoder : TextDecoder;
  buffer : jsstring;
  hasValidContent : bool;
  consecutiveEmptyReads : nat;
  lastActivityTime : Z;
}.

(** Line 139; the robot face is U+1F916, two code units. *)
Definition greeting (userLogin : jsstring) : jsstring :=
  js "Hi " ++ userLogin ++ js "! " ++ [55358; 56598] ++ [LF; LF]
  ++ js "Starting your request... This may take up to 3 minutes depending on the model complexity."
  ++ [LF; LF].

(** Line 163; the hourglass is U+23F3. *)
Definition keepAlive : jsstring :=
  [9203] ++ js " Processing your request..." ++ [LF].

(** Line 241. *)
Definition fallback : jsstring :=
  js "I received your request but couldn't generate a proper response. Please try again.".

(** [!value || value.length === 0]. *)
Definition noData (value : option Uint8Array) : bool :=
  match value with
  | None => true
  | Some v => (length v =? 0)%nat
  end.

(** Lines 147-236.  A rejected read is caught inside the loop and
    ends it (line 232).  Every write of a fragment comes with
    [hasValidContent = true] (lines 214-215 and 222-223). *)
Fixpoint readLoop (reads : list readResult) (s : loop) : M loop :=
  match reads with
  | [] => ret s
  | ReadRejected readError :: _ => ret s
  | Read value done now :: reads' =>
      if done then ret s
      else if noData value then
        let count := S (consecutiveEmptyReads s) in
        let stale := (maxInactivityTime <? now - lastActivityTime s)%Z in
        ((if stale then write (Text (JStr keepAlive)) else ret tt);;
         let s1 :=
           {| decoder := decoder s; buffer := buffer s;
              hasValidContent := hasValidContent s;
              consecutiveEmptyReads := if stale then 0%nat else count;
              lastActivityTime :=
                if stale then now else lastActivityTime s |} in
         if (maxEmptyReads <=? consecutiveEmptyReads s1)%nat then ret s1
         else readLoop reads' s1)%M
      else
        let '(decoder1, chunk) := decode (decoder s) (default [] value) in
        let '(buffer1, fragments) := feed (buffer s) chunk in
        (writeAll (Text <$> fragments);;
         readLoop reads'
           {| decoder := decoder1; buffer := buffer1;
              hasValidContent :=
                hasValidContent s || negb (bool_decide (fragments = []));
              consecutiveEmptyReads := 0;
              lastActivityTime := now |})%M
  end.

(** The [try] block, lines 68-246. *)
Definition attempt (sc : scenario) : M unit :=
  (opened <- openStream sc;;
   let '(userLogin, reads) := opened in
   write (Text (JStr (greeting userLogin)));;
   s <- readLoop reads
          {| decoder := newTextDecoder; buffer := [];
             hasValidContent := false; consecutiveEmptyReads := 0;
             lastActivityTime := startTime sc |};;
   (if negb (hasValidContent s) then write (Text (JStr fallback))
    else ret tt);;
   write Done)%M.

(** Lines 253-262. *)
Definition errorsEvent (error : thrown) : event :=
  Errors
    [{| type := js "agent";
        message :=
          match error with
          | Error msg => msg
          | OtherValue _ => js "Unknown error occurred"
          end;
        code := js "PROCESSING_ERROR";
        identifier := js "processing_error" |}].

(** The callback of [stream(c, ...)]: the [try] block and its [catch];
    the [finally] block only cancels the reader. *)
Definition handle (sc : scenario) (w : world) : world :=
  match attempt sc w with
  | (Normal _, w') => w'
  | (Throw error, w') => snd (write (errorsEvent error) w')
  end.
End Handler.
End Part001.

(** ** The reassembler of [src/unnamed/part_000] (lines 138-174) *)
Module Part000.
Section Reassembler.
Context `{Runtime}.

(** Lines 157-166. *)
Definition messageBody (msg : json) : option (list json) :=
  '(ty, content, tool_calls) ← messageFields msg;
  Some (if strictEqStr ty (js "ai") && truthy content
           && nonBlankString content && noToolCalls tool_calls
        then fragmentOf content else []).

(** Lines 154-168. *)
Definition processEvent (eventObj : json) : list json :=
  match getProp eventObj (js "messages") with
  | None => []
  | Some messages =>
      if truthy messages && isArray messages
      then fst (forOf messageBody (elementsOf messages))
      else []
  end.

(** Lines 146-173. *)
Definition processLine (line : jsstring) : list json :=
  let line := trim line in
  if startsWith line (js "data: {") then
    let jsonData := slice 6 line in
    match JSON_parse jsonData with
    | Some eventObj => processEvent eventObj
    | None => []
    end
  else [].

(** Lines 138-174. *)
Definition feed (buffer chunk : jsstring) : jsstring * list json :=
  let buffer := buffer ++ chunk in
  let '(buffer, lines) := takeLines buffer in
  (buffer, flat_map processLine lines).

(** [feed] over the decoded chunks of a stream in order, from a pending
    buffer: the fragments the read loop writes over its data reads. *)
Fixpoint feedAll (buffer : jsstring) (chunks : list jsstring) : list json :=
  match chunks with
  | [] => []
  | chunk :: chunks' =>
      let '(buffer1, fragments) := feed buffer chunk in
      fragments ++ feedAll buffer1 chunks'
  end.

(** The fragments of a whole stream of byte chunks, from a new decoder
    and an empty buffer. *)
Definition reassemble (chunks : list Uint8Array) : list json :=
  feedAll [] (decodeChunks newTextDecoder chunks).
End Reassembler.

(** *** The handler of [src/unnamed/part_000] (lines 61-198) *)
Section Handler.
Context `{Runtime}.

(** The variables of the read loop. *)
Record loop := {
  decoder : TextDecoder;
  buffer : jsstring;
  hasValidContent : bool;
}.

(** Line 127. *)
Definition greeting (userLogin : jsstring) : jsstring :=
  js "Hi " ++ userLogin ++ js "!" ++ [LF; LF].

(** Line 180. *)
Definition fallback : jsstring :=
  js "I received your request but couldn't generate a proper response. Please try again.".

(** Line 133. *)
Definition closedEarly : thrown :=
  Error (js "LangGraph stream closed before any data was sent.").

(** Lines 137-175, the [if (value)] block.  Every write of a fragment
    comes with [hasValidContent = true] (lines 164-165). *)
Definition consume (value : option Uint8Array) (s : loop) : M loop :=
  match value with
  | Some bytes =>
      let '(decoder1, chunk) := decode (decoder s) bytes in
      let '(buffer1, fragments) := feed (buffer s) chunk in
      (writeAll (Text <$> fragments);;
       ret {| decoder := decoder1; buffer := buffer1;
              hasValidContent :=
                hasValidContent s || negb (bool_decide (fragments = [])) |})%M
  | None => ret s
  end.

(** Lines 130-176.  A rejected read leaves the loop as an exception. *)
Fixpoint readLoop (reads : list readResult) (s : loop) : M loop :=
  match reads with
  | [] => throw closedEarly
  | ReadRejected e :: _ => throw e
  | Read value streamDone _ :: reads' =>
      if negb (bool_decide (is_Some value)) && streamDone
      then throw closedEarly
      else
        (s1 <- consume value s;;
         if streamDone then ret s1 else readLoop reads' s1)%M
  end.

(** The [try] block, lines 62-184. *)
Definition attempt (sc : scenario) : M unit :=
  (opened <- openStream sc;;
   let '(userLogin, reads) := opened in
   write (Text (JStr (greeting userLogin)));;
   s <- readLoop reads
          {| decoder := newTextDecoder; buffer := [];
             hasValidContent := false |};;
   (if negb (hasValidContent s) then write (Text (JStr fallback))
    else ret tt);;
   write Done)%M.

(** Lines 187-196. *)
Definition errorsEvent (error : thrown) : event :=
  Errors
    [{| type := js "agent";
        message :=
          match error with
          | Error msg => msg
          | OtherValue stringified => stringified
          end;
        code := js "PROCESSING_ERROR";
        identifier := js "processing_error" |}].

(** The callback of [stream(c, ...)]: the [try] block and its [catch]. *)
Definition handle (sc : scenario) (w : world) : world :=
  match attempt sc w with
  | (Normal _, w') => w'
  | (Throw error, w') => snd (write (errorsEvent error) w')
  end.
End Handler.
End Part000.

(** ** The reassembler of [src/src/fis.ts] (lines 139-189) *)
Module Fis.
Section Reassembler.
Context `{Runtime}.

(** Lines 159-165 and 176-182. *)
Definition messageBody (msg : json) : option (list json) :=
  '(ty, content, tool_calls) ← messageFields msg;
  Some (if strictEqStr ty (js "ai") && truthy content
           && noToolCalls tool_calls
        then fragmentOf content else []).

(** The values [for (const msg of msgs)] visits when [msgs] is
    [eventObj.messages ?? []]: the elements of an array, the characters
    of a string (one code unit each here; none of them has a [type]),
    nothing for [null] and [undefined]; any other value is not iterable
    ([None], a [TypeError]). *)
Definition iterate (messages : jsval) : option (list json) :=
  match messages with
  | Undefined | Val JNull => Some []
  | Val (JArr l) => Some l
  | Val (JStr s) => Some (map (fun c => JStr [c]) s)
  | Val (JBool _) | Val (JNum _ _) | Val (JObj _) => None
  end.

(** Lines 157-166 and 174-183. *)
Definition processEvent (eventObj : json) : list json :=
  match getProp eventObj (js "messages") with
  | None => []
  | Some messages =>
      match iterate messages with
      | Some msgs => fst (forOf messageBody msgs)
      | None => []
      end
  end.

(** Lines 144-188, one iteration of [for (let line of lines)];
    [buffer] already holds the residual tail. *)
Definition processLine (buffer line : jsstring) : list json :=
  let line := trim line in
  if startsWith line (js "event: values") then
    let dataLine := line in
    if negb (startsWith dataLine (js "data: ")) then []
    else
      let jsonPart := slice 6 dataLine in
      match JSON_parse jsonPart with
      | Some eventObj => processEvent eventObj
      | None => []
      end
  else if startsWith line (js "data: {") && (length buffer <? 4096)%nat then
    match JSON_parse (slice 6 line) with
    | Some eventObj => processEvent eventObj
    | None => []
    end
  else [].

(** Lines 139-189. *)
Definition feed (buffer chunk : jsstring) : jsstring * list json :=
  let buffer := buffer ++ chunk in
  let '(buffer, lines) := takeLines buffer in
  (buffer, flat_map (processLine buffer) lines).

(** [feed] over the decoded chunks of a stream in order, from a pending
    buffer: the fragments the read loop writes over its data reads. *)
Fixpoint feedAll (buffer : jsstring) (chunks : list jsstring) : list json :=
  match chunks with
  | [] => []
  | chunk :: chunks' =>
      let '(buffer1, fragments) := feed buffer chunk in
      fragments ++ feedAll buffer1 chunks'
  end.

(** The fragments of a whole stream of byte chunks, from a new decoder
    and an empty buffer. *)
Definition reassemble (chunks : list Uint8Array) : list json :=
  feedAll [] (decodeChunks newTextDecoder chunks).
End Reassembler.

(** *** The handler of [src/src/fis.ts] (lines 63-211) *)
Section Handler.
Context `{Runtime}.

(** The variables of the read loop. *)
Record loop := {
  decoder : TextDecoder;
  buffer : jsstring;
}.

(** Line 134. *)
Definition greeting (userLogin : jsstring) : jsstring :=
  js "Hi " ++ userLogin ++ js "! ".

(** Lines 138-190, the [if (value)] block. *)
Definition consume (value : option Uint8Array) (s : loop) : M loop :=
  match value with
  | Some bytes =>
      let '(decoder1, chunk) := decode (decoder s) bytes in
      let '(buffer1, fragments) := feed (buffer s) chunk in
      (writeAll (Text <$> fragments);;
       ret {| decoder := decoder1; buffer := buffer1 |})%M
  | None => ret s
  end.

(** Lines 136-192.  A rejected read leaves the loop as an exception. *)
Fixpoint readLoop (reads : list readResult) (s : loop) : M loop :=
  match reads with
  | [] => ret s
  | ReadRejected e :: _ => throw e
  | Read value streamDone _ :: reads' =>
      (s1 <- consume value s;;
       if streamDone then ret s1 else readLoop reads' s1)%M
  end.

(** The [try] block, lines 64-194. *)
Definition attempt (sc : scenario) : M unit :=
  (opened <- openStream sc;;
   let '(userLogin, reads) := opened in
   write (Text (JStr (greeting userLogin)));;
   _ <- readLoop reads {| decoder := newTextDecoder; buffer := [] |};;
   write Done)%M.

(** Lines 197-208. *)
Definition errorsEvent (error : thrown) : event :=
  Errors
    [{| type := js "agent";
        message :=
          match error with
          | Error msg => msg
          | OtherValue stringified => stringified
          end;
        code := js "PROCESSING_ERROR";
        identifier := js "processing_error" |}].

(** The callback of [stream(c, ...)]: the [try] block and its [catch]. *)
Definition handle (sc : scenario) (w : world) : world :=
  match attempt sc w with
  | (Normal _, w') => w'
  | (Throw error, w') => snd (write (errorsEvent error) w')
  end.
End Handler.
End Fis.

(** ** The route [POST /] before the stream

    The three revisions hold the same text up to the response headers
    ([part_001] lines 25-64, [part_000] lines 25-61, [fis.ts] lines
    27-63). *)
Module Routes.

(** What the route reads of a request: the header [X-GitHub-Token], if
    it is there, and what [verifyAndParseRequest] resolves
    [isValidRequest] to for the body and the signature headers, or its
    rejection. *)
Record request := {
  githubToken : option jsstring;
  verification : thrown + bool;
}.

(** The body of a reply: a text, or the events written to it. *)
Inductive replyBody : Type :=
  | PlainText (t : jsstring)
  | Events (es : list event).

(** A reply: its status, the headers the route sets with [c.header],
    and its body. *)
Record reply := {
  replyStatus : N;
  replyHeaders : list (jsstring * jsstring);
  replyContent : replyBody;
}.

(** The entry of lines 33-40 of [part_001]. *)
Definition missingToken : agentError :=
  {| type := js "agent";
     message := js "No GitHub token provided in the request headers.";
     code := js "MISSING_GITHUB_TOKEN";
     identifier := js "missing_github_token" |}.

(** The route, over the headers of the streamed reply and the callback
    of [stream(c, ...)].  The events of a streamed reply are those its
    callback writes.  A rejection of [verifyAndParseRequest] leaves the
    route as an exception. *)
Definition post (streamHeaders : list (jsstring * jsstring))
    (handle : scenario → world → world)
    (req : request) (sc : scenario) : M reply :=
  fun w =>
    let tokenForUser := default [] (githubToken req) in
    if negb (truthy (Val (JStr tokenForUser))) then
      (Normal {| replyStatus := 200; replyHeaders := [];
                 replyContent := Events [Errors [missingToken]] |}, w)
    else
      match verification req with
      | inl e => (Throw e, w)
      | inr isValidRequest =>
          if negb isValidRequest then
            (Normal {| replyStatus := 401;
                       replyHeaders := [(js "Content-Type", js "text/plain")];
                       replyContent :=
                         PlainText (js "Request could not be verified") |},
             w)
          else
            let w' :=
              handle sc {| sink := []; calls := calls w;
                           userThreads := userThreads w |} in
            (Normal {| replyStatus := 200; replyHeaders := streamHeaders;
                       replyContent := Events (sink w') |}, w')
      end.

Section Post.
Context `{Runtime}.

(** [part_001], lines 59-62. *)
Definition part001 : request → scenario → M reply :=
  post [(js "Content-Type", js "text/event-stream");
        (js "Cache-Control", js "no-cache");
        (js "Connection", js "keep-alive");
        (js "X-Content-Type-Options", js "nosniff")]
       Part001.handle.

(** [part_000], lines 58-59. *)
Definition part000 : request → scenario → M reply :=
  post [(js "Content-Type", js "text/html");
        (js "X-Content-Type-Options", js "nosniff")]
       Part000.handle.

(** [fis.ts], lines 60-61. *)
Definition fis : request → scenario → M reply :=
  post [(js "Content-Type", js "text/html");
        (js "X-Content-Type-Options", js "nosniff")]
       Fis.handle.
End Post.
End Routes.

(** ** The stream callback and the payload

    [getUserMessage(payload)] runs inside the [try] block, after the
    user lookup ([part_001] line 73, [part_000] line 68, [fis.ts] line
    71), and throws when the payload holds no message.  A [scenario]
    holds the prompt it returns.  [answer] is the callback for both
    outcomes: with a prompt it is the handler of the revision on that
    prompt; when [getUserMessage] throws, the [try] block has written
    [Ack] and sent the user lookup (lines 68-72), and its [catch] block
    reports the exception (or the one of the lookup, if that failed
    first). *)
Definition withPrompt (userPrompt : jsstring) (sc : scenario) : scenario :=
  {| userReply := userReply sc; prompt := userPrompt;
     threadReply := threadReply sc; runReply := runReply sc;
     startTime := startTime sc |}.

Definition answer (handle : scenario → world → world)
    (errorsEvent : thrown → event) (userMessage : thrown + jsstring)
    (sc : scenario) (w : world) : world :=
  match userMessage with
  | inr userPrompt => handle (withPrompt userPrompt sc) w
  | inl error =>
      match identify sc w with
      | (Normal _, w') => snd (write (errorsEvent error) w')
      | (Throw lookupError, w') => snd (write (errorsEvent lookupError) w')
      end
  end.

(** ** A concrete runtime

    [JSON.parse] after the JSON grammar of ECMA-404 and the UTF-8
    decoder of the WHATWG Encoding standard, for the scenarios that are
    given as literal bytes. *)
Module Node.

Definition isJsonWhiteSpace (c : N) : bool :=
  (c =? 9) || (c =? 10) || (c =? 13) || (c =? 32).

Fixpoint skipWhiteSpace (s : jsstring) : jsstring :=
  match s with
  | c :: s' => if isJsonWhiteSpace c then skipWhiteSpace s' else s
  | [] => []
  end.

Definition isDigit (c : N) : bool := (48 <=? c) && (c <=? 57).

Definition hexValue (c : N) : option N :=
  if (48 <=? c) && (c <=? 57) then Some (c - 48)
  else if (65 <=? c) && (c <=? 70) then Some (c - 55)
  else if (97 <=? c) && (c <=? 102) then Some (c - 87)
  else None.

Definition hex4 (a b c d : N) : option N :=
  x ← hexValue a; y ← hexValue b; z ← hexValue c; w ← hexValue d;
  Some (((x * 16 + y) * 16 + z) * 16 + w).

(** The escape after a backslash, except for [\u]. *)
Definition simpleEscape (e : N) : option N :=
  if e =? 34 then Some 34
  else if e =? 92 then Some 92
  else if e =? 47 then Some 47
  else if e =? 98 then Some 8
  else if e =? 102 then Some 12
  else if e =? 110 then Some 10
  else if e =? 114 then Some 13
  else if e =? 116 then Some 9
  else None.

(** The characters of a string after its opening quote, and what
    follows the closing quote. *)
Fixpoint parseString (s : jsstring) : option (jsstring * jsstring) :=
  match s with
  | [] => None
  | c :: s1 =>
      if c =? 34 then Some ([], s1)
      else if c =? 92 then
        match s1 with
        | [] => None
        | e :: s2 =>
            if e =? 117 then
              match s2 with
              | h1 :: h2 :: h3 :: h4 :: s3 =>
                  u ← hex4 h1 h2 h3 h4;
                  '(t, rest) ← parseString s3;
                  Some (u :: t, rest)
              | _ => None
              end
            else
              u ← simpleEscape e;
              '(t, rest) ← parseString s2;
              Some (u :: t, rest)
        end
      else if c <? 32 then None
      else
        '(t, rest) ← parseString s1;
        Some (c :: t, rest)
  end.

(** The longest prefix of decimal digits, as its value and its length. *)
Fixpoint digits (acc : Z) (n : nat) (s : jsstring) : Z * nat * jsstring :=
  match s with
  | c :: s' =>
      if isDigit c then digits (acc * 10 + Z.of_N (c - 48))%Z (S n) s'
      else (acc, n, s)
  | [] => (acc, n, s)
  end.

(** [int]: a single [0], or a non-zero digit and more digits. *)
Definition parseInt (s : jsstring) : option (Z * jsstring) :=
  match s with
  | c :: s' =>
      if c =? 48 then Some (0%Z, s')
      else if isDigit c then
        let '(v, _, rest) := digits 0 0 s in Some (v, rest)
      else None
  | [] => None
  end.

(** [frac]: the mantissa extended by the digits after the point, and
    how many they are. *)
Definition parseFrac (m : Z) (s : jsstring) : option (Z * nat * jsstring) :=
  match s with
  | c :: s' =>
      if c =? 46 then
        let '(v, n, rest) := digits m 0 s' in
        if (n =? 0)%nat then None else Some (v, n, rest)
      else Some (m, 0%nat, s)
  | [] => Some (m, 0%nat, s)
  end.

Definition parseExp (s : jsstring) : option (Z * jsstring) :=
  match s with
  | c :: s' =>
      if (c =? 101) || (c =? 69) then
        let '(negative, s'') :=
          match s' with
          | g :: t =>
              if g =? 45 then (true, t)
              else if g =? 43 then (false, t) else (false, s')
          | [] => (false, s')
          end in
        let '(v, n, rest) := digits 0 0 s'' in
        if (n =? 0)%nat then None
        else Some (if negative then (- v)%Z else v, rest)
      else Some (0%Z, s)
  | [] => Some (0%Z, s)
  end.

Definition parseNumber (s : jsstring) : option (json * jsstring) :=
  let '(negative, s1) :=
    match s with
    | c :: s' => if c =? 45 then (true, s') else (false, s)
    | [] => (false, s)
    end in
  '(i, s2) ← parseInt s1;
  '(m, n, s3) ← parseFrac i s2;
  '(e, s4) ← parseExp s3;
  Some (JNum (if negative then - m else m)%Z (e - Z.of_nat n)%Z, s4).

Definition literal (word : jsstring) (v : json) (s : jsstring)
    : option (json * jsstring) :=
  if startsWith s word then Some (v, drop (length word) s) else None.

(** A JSON value at the head of [s], after white space.  [fuel]
    bounds the depth of the recursion. *)
Fixpoint parseValue (fuel : nat) (s : jsstring) : option (json * jsstring) :=
  match fuel with
  | O => None
  | S fuel =>
      match skipWhiteSpace s with
      | [] => None
      | c :: s1 =>
          if c =? 123 then
            match skipWhiteSpace s1 with
            | d :: s2 =>
                if d =? 125 then Some (JObj [], s2)
                else '(fs, rest) ← parseMembers fuel s1; Some (JObj fs, rest)
            | [] => None
            end
          else if c =? 91 then
            match skipWhiteSpace s1 with
            | d :: s2 =>
                if d =? 93 then Some (JArr [], s2)
                else '(l, rest) ← parseElements fuel s1; Some (JArr l, rest)
            | [] => None
            end
          else if c =? 34 then
            '(t, rest) ← parseString s1; Some (JStr t, rest)
          else if c =? 116 then literal (js "true") (JBool true) (c :: s1)
          else if c =? 102 then literal (js "false") (JBool false) (c :: s1)
          else if c =? 110 then literal (js "null") JNull (c :: s1)
          else parseNumber (c :: s1)
      end
  end
(** The elements of an array up to and including its closing bracket. *)
with parseElements (fuel : nat) (s : jsstring)
    : option (list json * jsstring) :=
  match fuel with
  | O => None
  | S fuel =>
      '(v, s1) ← parseValue fuel s;
      match skipWhiteSpace s1 with
      | c :: s2 =>
          if c =? 44 then
            '(l, rest) ← parseElements fuel s2; Some (v :: l, rest)
          else if c =? 93 then Some ([v], s2)
          else None
      | [] => None
      end
  end
(** The members of an object up to and including its closing brace. *)
with parseMembers (fuel : nat) (s : jsstring)
    : option (list (jsstring * json) * jsstring) :=
  match fuel with
  | O => None
  | S fuel =>
      match skipWhiteSpace s with
      | q :: s1 =>
          if q =? 34 then
            '(k, s2) ← parseString s1;
            match skipWhiteSpace s2 with
            | c :: s3 =>
                if c =? 58 then
                  '(v, s4) ← parseValue fuel s3;
                  match skipWhiteSpace s4 with
                  | d :: s5 =>
                      if d =? 44 then
                        '(fs, rest) ← parseMembers fuel s5;
                        Some ((k, v) :: fs, rest)
                      else if d =? 125 then Some ([(k, v)], s5)
                      else None
                  | [] => None
                  end
                else None
            | [] => None
            end
          else None
      | [] => None
      end
  end.

(** [JSON.parse(text)]; the recursion is never deeper than twice the
    length of [text]. *)
Definition parse (text : jsstring) : option json :=
  '(v, rest) ← parseValue (2 * length text + 4) text;
  if bool_decide (skipWhiteSpace rest = []) then Some v else None.

(** The state of the UTF-8 decoder: the code point under construction,
    the continuation bytes seen and needed, the bounds on the next
    byte, and whether the first code point has gone by (a leading
    byte order mark is dropped). *)
Record utf8 := {
  codePoint : N;
  bytesSeen : nat;
  bytesNeeded : nat;
  lowerBoundary : N;
  upperBoundary : N;
  bomSeen : bool;
}.

Definition resetUtf8 (d : utf8) : utf8 :=
  {| codePoint := 0; bytesSeen := 0; bytesNeeded := 0;
     lowerBoundary := 128; upperBoundary := 191; bomSeen := bomSeen d |}.

Definition REPLACEMENT : N := 65533.

(** A byte read when no character is in progress. *)
Definition leadByte (d : utf8) (b : N) : utf8 * list N :=
  if b <=? 127 then (d, [b])
  else if (194 <=? b) && (b <=? 223) then
    ({| codePoint := N.land b 31; bytesSeen := 0; bytesNeeded := 1;
        lowerBoundary := 128; upperBoundary := 191;
        bomSeen := bomSeen d |}, [])
  else if (224 <=? b) && (b <=? 239) then
    ({| codePoint := N.land b 15; bytesSeen := 0; bytesNeeded := 2;
        lowerBoundary := if b =? 224 then 160 else 128;
        upperBoundary := if b =? 237 then 159 else 191;
        bomSeen := bomSeen d |}, [])
  else if (240 <=? b) && (b <=? 244) then
    ({| codePoint := N.land b 7; bytesSeen := 0; bytesNeeded := 3;
        lowerBoundary := if b =? 240 then 144 else 128;
        upperBoundary := if b =? 244 then 143 else 191;
        bomSeen := bomSeen d |}, [])
  else (d, [REPLACEMENT]).

(** One byte through the decoder: the new state and the code points
    it completes. *)
Definition utf8Byte (d : utf8) (b : N) : utf8 * list N :=
  if (bytesNeeded d =? 0)%nat then leadByte d b
  else if negb ((lowerBoundary d <=? b) && (b <=? upperBoundary d)) then
    let '(d', cps) := leadByte (resetUtf8 d) b in
    (d', REPLACEMENT :: cps)
  else
    let cp := N.lor (N.shiftl (codePoint d) 6) (N.land b 63) in
    if (S (bytesSeen d) =? bytesNeeded d)%nat then (resetUtf8 d, [cp])
    else
      ({| codePoint := cp; bytesSeen := S (bytesSeen d);
          bytesNeeded := bytesNeeded d;
          lowerBoundary := 128; upperBoundary := 191;
          bomSeen := bomSeen d |}, []).

(** The UTF-16 code units of a code point. *)
Definition codeUnits (cp : N) : jsstring :=
  if cp <? 65536 then [cp]
  else [55296 + N.shiftr (cp - 65536) 10; 56320 + N.land (cp - 65536) 1023].

(** Code points leave the decoder as code units; the very first one is
    dropped when it is a byte order mark. *)
Fixpoint serialize (d : utf8) (cps : list N) : utf8 * jsstring :=
  match cps with
  | [] => (d, [])
  | cp :: cps' =>
      let skip := negb (bomSeen d) && (cp =? 65279) in
      let d1 :=
        {| codePoint := codePoint d; bytesSeen := bytesSeen d;
           bytesNeeded := bytesNeeded d;
           lowerBoundary := lowerBoundary d;
           upperBoundary := upperBoundary d; bomSeen := true |} in
      let '(d2, out) := serialize d1 cps' in
      (d2, (if skip then [] else codeUnits cp) ++ out)
  end.

Definition decodeUtf8Byte (d : utf8) (b : byte) : utf8 * jsstring :=
  let '(d', cps) := utf8Byte d (Byte.to_N b) in serialize d' cps.

Definition newUtf8 : utf8 :=
  {| codePoint := 0; bytesSeen := 0; bytesNeeded := 0;
     lowerBoundary := 128; upperBoundary := 191; bomSeen := false |}.

(** V8 words its errors in its own way; only their presence matters
    here. *)
Definition syntaxError (text : jsstring) : jsstring :=
  js "Unexpected token in JSON".

Definition typeError (property : jsstring) : jsstring :=
  js "Cannot read properties of null (reading '" ++ property ++ js "')".

#[export] Instance runtime : Runtime := {|
  JSON_parse := parse;
  syntaxErrorMessage := syntaxError;
  typeErrorMessage := typeError;
  TextDecoder := utf8;
  newTextDecoder := newUtf8;
  decodeByte := decodeUtf8Byte;
|}.

End Node.

(** ** Vocabulary of the statements *)

(** *** Lines *)

(** The complete lines of a text and the unterminated tail after its
    last line feed. *)
Fixpoint cut (s : jsstring) : list jsstring * jsstring :=
  match s with
  | [] => ([], [])
  | c :: s' =>
      let '(ls, t) := cut s' in
      if c =? LF then ([] :: ls, t)
      else match ls with
           | [] => ([], c :: t)
           | l :: ls' => ((c :: l) :: ls', t)
           end
  end.

(** A text without a line feed. *)
Definition noLF (s : jsstring) : Prop := Forall (fun c => c ≠ LF) s.

#[global] Instance noLF_dec s : Decision (noLF s).
Proof. unfold noLF. apply _. Defined.

(** The stream in which every line of [ls] is followed by a line feed. *)
Definition joinLines (ls : list jsstring) : jsstring :=
  flat_map (fun l => l ++ [LF]) ls.

(** A line of fewer than 4096 code units. *)
Definition short (l : jsstring) : Prop := (length l < 4096)%nat.

#[global] Instance short_dec l : Decision (short l).
Proof. unfold short. apply _. Defined.

(** *** Streams *)

(** The answers of a reader that delivers the given chunks, each with
    the clock reading at its arrival. *)
Definition dataReads (chunks : list (Uint8Array * Z)) : list readResult :=
  map (fun c => Read (Some c.1) false c.2) chunks.

(** The answers of a reader whose stream delivers the chunks and then
    closes: the last answer is [{ value: undefined, done: true }]. *)
Definition closedStream (chunks : list (Uint8Array * Z)) (closedAt : Z)
    : list readResult :=
  dataReads chunks ++ [Read None true closedAt].

(** The text of a whole stream, decoded in one piece. *)
Definition streamText `{Runtime} (chunks : list Uint8Array) : jsstring :=
  (decode newTextDecoder (concat chunks)).2.

(** *** Events *)

(** [Done] and [Errors] end the events of a request. *)
Definition isTerminal (e : event) : bool :=
  match e with
  | Done | Errors _ => true
  | Ack | Text _ => false
  end.

(** [after] extends [before] by events of which exactly the last is
    terminal. *)
Definition oneTerminalLast (before after : list event) : Prop :=
  ∃ es t,
    after = before ++ es ++ [t]
    ∧ isTerminal t = true
    ∧ Forall (fun e => isTerminal e = false) es.

(** The world after more events have been written. *)
Definition emit (w : world) (es : list event) : world :=
  {| sink := sink w ++ es; calls := calls w; userThreads := userThreads w |}.

(** A computation that writes no terminal event, whatever its outcome. *)
Definition quiet {A} (m : M A) : Prop :=
  ∀ w, ∃ es,
    sink (m w).2 = sink w ++ es ∧ Forall (fun e => isTerminal e = false) es.

(** A computation that writes [Done] as its last event when it completes,
    and no terminal event when it throws. *)
Definition finishes (m : M unit) : Prop :=
  ∀ w, ∃ es,
    Forall (fun e => isTerminal e = false) es
    ∧ match m w with
      | (Normal _, w') => sink w' = sink w ++ es ++ [Done]
      | (Throw _, w') => sink w' = sink w ++ es
      end.

(** *** Sessions *)

(** A computation that sends no request and leaves [userThreads] alone. *)
Definition local {A} (m : M A) : Prop :=
  ∀ w, calls (m w).2 = calls w ∧ userThreads (m w).2 = userThreads w.

(** The number of conversation-creation requests among the calls. *)
Fixpoint creations (cs : list call) : nat :=
  match cs with
  | [] => 0
  | CreateThread :: cs' => S (creations cs')
  | _ :: cs' => creations cs'
  end.

(** Every stored thread id is truthy. *)
Definition storedTruthy (w : world) : Prop :=
  ∀ k v, userThreads w !! k = Some v → truthy (Val v) = true.

(** The world before the first request. *)
Definition freshWorld : world :=
  {| sink := []; calls := []; userThreads := ∅ |}.

(** What the claim on session reuse says of a handler: of two requests
    of one caller, the first of which finds no entry and creates a
    conversation, only the first sends a creation request, and both
    open their run on the same thread; two requests of two callers
    without an entry send two creation requests. *)
Definition sessionReuse `{Runtime} (handle : scenario → world → world)
    : Prop :=
  (∀ sc1 sc2 w login h,
     userReply sc1 = inr login → userReply sc2 = inr login →
     userThreads w !! login = None →
     createConversation (threadReply sc1) = Normal h →
     calls (handle sc2 (handle sc1 w))
     = calls w ++ [GetUser; CreateThread; OpenRun h (prompt sc1);
                   GetUser; OpenRun h (prompt sc2)])
  ∧ (∀ sc1 sc2 w login1 login2,
       userReply sc1 = inr login1 → userReply sc2 = inr login2 →
       login1 ≠ login2 →
       userThreads w !! login1 = None → userThreads w !! login2 = None →
       creations (calls (handle sc2 (handle sc1 w)))
       = (creations (calls w) + 2)%nat).

(** *** Valid lines and garbage lines *)

(** A line carries the prefix [data: ], surrounding white space aside. *)
Definition hasDataPrefix (line : jsstring) : bool :=
  startsWith (trim line) (js "data: ").

(** What follows the prefix, as [fis.ts] and [part_000] take it. *)
Definition payload (line : jsstring) : jsstring := slice 6 (trim line).

(** What follows the prefix, as [part_001] takes it: trimmed once more. *)
Definition trimmedPayload (line : jsstring) : jsstring :=
  trim (slice 6 (trim line)).

(** A garbage line: it lacks the prefix, or its payload is not JSON (it
    is something else, or it is cut short). *)
Definition garbage `{Runtime} (payloadOf : jsstring → jsstring)
    (line : jsstring) : bool :=
  negb (hasDataPrefix line)
  || negb (bool_decide (is_Some (JSON_parse (payloadOf line)))).

(** *** The reply to the creation request *)

(** By the words of the specification: the first of the fields
    [thread_id], [id], [uuid] that is present. *)
Definition firstPresent (threadData : list (jsstring * json)) : jsval :=
  match field (js "thread_id") threadData with
  | Val v => Val v
  | Undefined =>
      match field (js "id") threadData with
      | Val v => Val v
      | Undefined => field (js "uuid") threadData
      end
  end.

(** The first truthy value of a list, if there is one. *)
Fixpoint firstTruthy (vs : list jsval) : option json :=
  match vs with
  | [] => None
  | Val v :: vs' => if truthy (Val v) then Some v else firstTruthy vs'
  | Undefined :: vs' => firstTruthy vs'
  end.

(** *** Sample streams and requests *)

(** The bytes of an ASCII literal; an apostrophe stands for a double
    quote. *)
Definition ascii (s : string) : Uint8Array :=
  map (fun b => if Byte.eqb b x27 then x22 else b)
      (list_byte_of_string s).

Definition helloLine : Uint8Array :=
  ascii "data: {'messages':[{'type':'ai','content':'Hello','tool_calls':[]}]}"
  ++ [x0a].

Definition emptyContentLine : Uint8Array :=
  ascii "data: {'messages':[{'type':'ai','content':'','tool_calls':[]}]}"
  ++ [x0a].

Definition pingLine : Uint8Array := ascii "data: ping" ++ [x0a].

(** 4096 bytes of an unfinished line. *)
Definition longTail : Uint8Array := repeat x78 4096.

(** The text of [helloLine] without its line feed, and the text of
    [longTail]. *)
Definition helloText : jsstring :=
  map Byte.to_N
    (ascii "data: {'messages':[{'type':'ai','content':'Hello','tool_calls':[]}]}").

Definition longText : jsstring := repeat 120 4096.

(** An unterminated record. *)
Definition lostRecord : Uint8Array :=
  ascii "data: {'messages':[{'type':'ai','content':'Lost'}]}".

(** A thread-creation reply with the given JSON body. *)
Definition created (body : string) : thrown + response :=
  inr {| ok := true; status := 200; statusText := js "OK";
         text := map Byte.to_N (ascii body); body := None |}.

(** A run whose body answers with the given reads. *)
Definition streaming (reads : list readResult) : thrown + response :=
  inr {| ok := true; status := 200; statusText := js "OK";
         text := []; body := Some reads |}.

(** A request of the user [bob] whose thread is created and whose run
    answers with the given reads. *)
Definition bobAsks (reads : list readResult) : scenario :=
  {| userReply := inr (js "bob"); prompt := js "hi";
     threadReply := created "{'thread_id':'t1'}";
     runReply := streaming reads; startTime := 0 |}.

(** A request of the user [alice], served like the one of [bob]. *)
Definition aliceAsks (reads : list readResult) : scenario :=
  {| userReply := inr (js "alice"); prompt := js "hello";
     threadReply := created "{'id':'t2'}";
     runReply := streaming reads; startTime := 0 |}.

(** A run whose stream carries one heartbeat line and closes. *)
Definition heartbeatOnly : scenario :=
  bobAsks (closedStream [(pingLine, 0%Z)] 0).


(** A run whose stream carries the three lines of the concrete scenario
    and closes. *)
Definition helloRun : scenario :=
  bobAsks (closedStream [(helloLine, 0%Z); (emptyContentLine, 0%Z);
                         (pingLine, 0%Z)] 0).

(** A run that delivers the line with ["Hello"], then an unterminated
    record, and closes. *)
Definition lostRun : scenario :=
  bobAsks (closedStream [(helloLine, 0%Z); (lostRecord, 0%Z)] 0).

(** *** The variables of the read loops *)

(** The pending buffer after the decoded chunks went through a [feed]
    step one after the other. *)
Definition pending (feed : jsstring → jsstring → jsstring * list json)
    (buffer : jsstring) (chunks : list jsstring) : jsstring :=
  fold_left (fun buffer chunk => (feed buffer chunk).1) chunks buffer.

(** The clock reading at the last of the chunks, or [start] when there
    is none. *)
Definition lastArrival (start : Z) (chunks : list (Uint8Array * Z)) : Z :=
  default start (last chunks.*2).

(** The answers of a reader that has nothing to deliver yet: it is not
    done, and the value is missing or empty. *)
Definition emptyReads (reads : list (option Uint8Array * Z))
    : list readResult :=
  map (fun r => Read r.1 false r.2) reads.

(** Answers the first of which ends the read loop of [part_001]: the
    reader is done (whatever value comes with it), the read is rejected,
    or the stream is closed. *)
Definition endsLoop (reads : list readResult) : Prop :=
  match reads with
  | [] => True
  | Read _ done _ :: _ => done = true
  | ReadRejected _ :: _ => True
  end.

(** Answers the first of which tells the read loop of [part_000] that
    the stream is closed: done, and without a value. *)
Definition closes (reads : list readResult) : Prop :=
  match reads with
  | [] => True
  | Read value done _ :: _ => value = None ∧ done = true
  | ReadRejected _ :: _ => False
  end.

(** *** The events of a reply *)

(** A content that is a string with at least one code unit, and one
    that is a string with a character that is not white space. *)
Definition nonEmptyText (j : json) : Prop := ∃ s, j = JStr s ∧ s ≠ [].

Definition nonBlankText (j : json) : Prop := ∃ s, j = JStr s ∧ trim s ≠ [].

(** The entry the [catch] blocks report. *)
Definition processingError (e : agentError) : Prop :=
  type e = js "agent"
  ∧ code e = js "PROCESSING_ERROR"
  ∧ identifier e = js "processing_error".

(** An event whose text, if it is a text, has a content as described,
    and whose errors, if it reports errors, are one entry of the [catch]
    block. *)
Definition wellFormed (content : json → Prop) (e : event) : Prop :=
  match e with
  | Ack | Done => True
  | Text c => content c
  | Errors es => ∃ e, es = [e] ∧ processingError e
  end.

(** A computation all of whose events are as described, whatever its
    outcome. *)
Definition writesOnly {A} (P : event → Prop) (m : M A) : Prop :=
  ∀ w, ∃ es, sink (m w).2 = sink w ++ es ∧ Forall P es.

(** *** What a request does to the session directory *)

(** The requests a handler sends for one request of a caller and what
    it does to [userThreads], from the world [w] before to the world
    [w'] after.  The user lookup is always sent.  If it fails nothing
    follows; if the caller has no thread and the creation fails, only
    the creation request follows; in both cases [userThreads] is as it
    was.  Otherwise one run is opened, with the prompt of the request,
    on the thread [userThreads] holds for the caller afterwards: the
    thread it held before, or the one just created and stored. *)
Definition sessionEffects `{Runtime} (sc : scenario) (w w' : world) : Prop :=
  ∃ cs,
    calls w' = calls w ++ GetUser :: cs
    ∧ ((cs = [] ∧ (∃ e, userReply sc = inl e)
        ∧ userThreads w' = userThreads w)
       ∨ (cs = [CreateThread]
          ∧ (∃ e, createConversation (threadReply sc) = Throw e)
          ∧ userThreads w' = userThreads w)
       ∨ (∃ login h,
            userReply sc = inr login
            ∧ truthy (Val h) = true
            ∧ userThreads w' !! login = Some h
            ∧ ((cs = [OpenRun h (prompt sc)]
                ∧ userThreads w' = userThreads w)
               ∨ (cs = [CreateThread; OpenRun h (prompt sc)]
                  ∧ createConversation (threadReply sc) = Normal h
                  ∧ userThreads w' = <[login := h]> (userThreads w))))).

(** *** Requests that fail before the stream is open *)

(** A run the agent refuses: the response is not successful, its body
    says why. *)
Definition refusedRun : thrown + response :=
  inr {| ok := false; status := 503; statusText := js "Service Unavailable";
         text := js "busy"; body := Some [] |}.

(** A request of [bob] whose token GitHub does not accept. *)
Definition strangerAsks : scenario :=
  {| userReply := inl (Error (js "Bad credentials")); prompt := js "hi";
     threadReply := created "{'thread_id':'t1'}";
     runReply := streaming []; startTime := 0 |}.

(** A request of [bob] for whom no thread can be created: the reply
    names no thread. *)
Definition bobWithoutThread : scenario :=
  {| userReply := inr (js "bob"); prompt := js "hi";
     threadReply := created "{'thread_id':''}";
     runReply := streaming []; startTime := 0 |}.

(** A request of [bob] whose thread is created and whose run is
    refused. *)
Definition bobRefused : scenario :=
  {| userReply := inr (js "bob"); prompt := js "hi";
     threadReply := created "{'thread_id':'t1'}";
     runReply := refusedRun; startTime := 0 |}.

(** *** Requests at the route *)

(** A request the route lets through: it carries a token that is not
    empty, and its signature is valid. *)
Definition authenticated (req : Routes.request) : Prop :=
  ∃ t, Routes.githubToken req = Some t ∧ t ≠ []
       ∧ Routes.verification req = inr true.

(** What the guards of a route do, for the headers of its streamed
    reply.  Without a token (the header is missing or empty) the reply
    is the one event [Errors] with the entry [MISSING_GITHUB_TOKEN],
    whatever the verification would say; with a token and a signature
    that is not valid it is the text of status 401.  A request that is
    not let through leaves the world as it is: nothing is sent, and
    [userThreads] is untouched.  A request that is let through sends
    the user lookup first and is answered with status 200 and the
    events of the handler: [Ack], then events that are not terminal,
    then one terminal event. *)
Definition guarded (streamHeaders : list (jsstring * jsstring))
    (route : Routes.request → scenario → M Routes.reply) : Prop :=
  ∀ req sc w,
    (default [] (Routes.githubToken req) = [] →
     route req sc w
     = (Normal {| Routes.replyStatus := 200; Routes.replyHeaders := [];
                  Routes.replyContent :=
                    Routes.Events [Errors [Routes.missingToken]] |}, w))
    ∧ (default [] (Routes.githubToken req) ≠ [] →
       Routes.verification req = inr false →
       route req sc w
       = (Normal {| Routes.replyStatus := 401;
                    Routes.replyHeaders :=
                      [(js "Content-Type", js "text/plain")];
                    Routes.replyContent :=
                      Routes.PlainText (js "Request could not be verified") |},
          w))
    ∧ (¬ authenticated req → (route req sc w).2 = w)
    ∧ (authenticated req →
       ∃ cs es t,
         calls (route req sc w).2 = calls w ++ GetUser :: cs
         ∧ (route req sc w).1
           = Normal {| Routes.replyStatus := 200;
                       Routes.replyHeaders := streamHeaders;
                       Routes.replyContent :=
                         Routes.Events (Ack :: es ++ [t]) |}
         ∧ Forall (fun e => isTerminal e = false) es
         ∧ isTerminal t = true).

(** A request with a token and a valid signature, one with a token and a
    signature that is not valid, and one without a token whose
    verification would even fail. *)
Definition signedRequest : Routes.request :=
  {| Routes.githubToken := Some (js "ghu_1"); Routes.verification := inr true |}.

Definition forgedRequest : Routes.request :=
  {| Routes.githubToken := Some (js "ghu_1"); Routes.verification := inr false |}.

Definition anonymousRequest : Routes.request :=
  {| Routes.githubToken := None;
     Routes.verification := inl (Error (js "no key")) |}.

(** *** What a read loop took and wrote *)








(** *** Any payload, and requests in turn *)

(** The same account for any payload: when [getUserMessage] throws, the
    user lookup is the only request and [userThreads] is as it was. *)
Definition requestEffects `{Runtime} (userMessage : thrown + jsstring)
    (sc : scenario) (w w' : world) : Prop :=
  match userMessage with
  | inr userPrompt => sessionEffects (withPrompt userPrompt sc) w w'
  | inl _ => calls w' = calls w ++ [GetUser] ∧ userThreads w' = userThreads w
  end.

(** Requests handled one after the other: each has run to its end
    before the next begins. *)
Definition inTurn (handle : scenario → world → world)
    (requests : list scenario) (w : world) : world :=
  fold_left (fun w sc => handle sc w) requests w.

(** A payload without a message: what [getUserMessage] throws for it. *)
Definition noMessage : thrown + jsstring :=
  inl (Error (js "Cannot read properties of undefined (reading 'content')")).

(** ** The concrete runtime and the string operations at work *)

Example split_lines :
  split LF (js "a" ++ [LF] ++ js "bc" ++ [LF]) = [js "a"; js "bc"; []]
  ∧ split LF [] = [[]]
  ∧ takeLines (js "a" ++ [LF] ++ js "bc") = (js "bc", [js "a"]).
Proof. repeat split. Qed.

Example trim_line :
  trim ([32; 9] ++ js "data: x" ++ [13]) = js "data: x"
  ∧ trim [160; 65279] = [].
Proof. split; reflexivity. Qed.

Example parse_record :
  Node.parse (map Byte.to_N (ascii "{'messages':[{'type':'ai','content':'Hi','tool_calls':[]}]}"))
  = Some (JObj [(js "messages",
                 JArr [JObj [(js "type", JStr (js "ai"));
                             (js "content", JStr (js "Hi"));
                             (js "tool_calls", JArr [])]])])
  ∧ Node.parse (js "ping") = None
  ∧ Node.parse (js "{") = None
  ∧ Node.parse (js "[1, -2.50e1, true, null]")
    = Some (JArr [JNum 1 0; JNum (-250) (-1); JBool true; JNull]).
Proof. repeat split; vm_compute; reflexivity. Qed.

(** A character whose bytes are split over two chunks leaves the decoder
    with the second chunk: the euro sign is [E2 82 AC]. *)
Example decode_across_chunks :
  decodeChunks (H := Node.runtime) newTextDecoder [[xe2; x82]; [xac; x0a]]
  = [[]; [8364; LF]]
  ∧ streamText (H := Node.runtime) [[xe2; x82]; [xac; x0a]] = [8364; LF].
Proof. split; vm_compute; reflexivity. Qed.

(** The looser path of [part_001] reads [content] off the record itself
    and does not look at [tool_calls]. *)
Example part001_top_level_content :
  Part001.processEvent
    (JObj [(js "content", JStr (js "Calling a tool"));
           (js "tool_calls", JArr [JObj []])])
  = [JStr (js "Calling a tool")]
  ∧ Part000.processEvent
      (JObj [(js "content", JStr (js "Calling a tool"));
             (js "tool_calls", JArr [JObj []])])
    = [].
Proof. split; reflexivity. Qed.

(** ** Lines and chunk boundaries *)

Section Lines.

Lemma split_cut s : split LF s = (cut s).1 ++ [(cut s).2].
Proof.
  induction s as [|c s IH]; [done|].
  simpl. rewrite IH. destruct (cut s) as [ls t]. simpl.
  destruct (c =? LF); [done|]. by destruct ls.
Qed.

Lemma takeLines_cut s : takeLines s = ((cut s).2, (cut s).1).
Proof.
  unfold takeLines, pop. rewrite split_cut.
  by rewrite last_snoc, removelast_last.
Qed.

Lemma cut_app a b :
  cut (a ++ b) = ((cut a).1 ++ (cut ((cut a).2 ++ b)).1,
                  (cut ((cut a).2 ++ b)).2).
Proof.
  induction a as [|c a IH]; simpl.
  { by destruct (cut b). }
  rewrite IH. destruct (cut a) as [la ta]. simpl.
  destruct (c =? LF) eqn:Hc; [done|].
  destruct la as [|l la]; simpl; [|done].
  rewrite Hc. by destruct (cut (ta ++ b)) as [[|] ?].
Qed.

Lemma cut_noLF s : noLF s → cut s = ([], s).
Proof.
  induction 1 as [|c s Hc _ IH]; [done|].
  simpl. rewrite IH. by apply N.eqb_neq in Hc as ->.
Qed.

Lemma cut_tail_noLF s : noLF (cut s).2.
Proof.
  induction s as [|c s IH]; simpl; [constructor|].
  destruct (cut s) as [ls t]. simpl in *.
  destruct (c =? LF) eqn:Hc; [done|].
  destruct ls; simpl; [|done].
  constructor; [by apply N.eqb_neq|done].
Qed.

Lemma cut_line l s : noLF l → cut (l ++ LF :: s) = (l :: (cut s).1, (cut s).2).
Proof.
  induction 1 as [|c l Hc _ IH]; simpl.
  { by destruct (cut s). }
  rewrite IH. simpl. by apply N.eqb_neq in Hc as ->.
Qed.

Lemma cut_joinLines ls r :
  Forall noLF ls → noLF r → cut (joinLines ls ++ r) = (ls, r).
Proof.
  intros Hls Hr. induction Hls as [|l ls Hl _ IH]; simpl.
  { by apply cut_noLF. }
  rewrite <- !app_assoc. simpl. rewrite cut_line by done. by rewrite IH.
Qed.

Lemma split_app a b :
  split LF (a ++ b) = (cut a).1 ++ split LF ((cut a).2 ++ b).
Proof. by rewrite !split_cut, cut_app, app_assoc. Qed.

Lemma split_app_noLF t b :
  noLF t →
  ∃ l0 ls, split LF b = l0 :: ls ∧ split LF (t ++ b) = (t ++ l0) :: ls.
Proof.
  induction 1 as [|c t Hc _ (l0 & ls & Hb & IH)]; simpl.
  - rewrite split_cut. destruct (cut b) as [[|l ls] r]; simpl; eauto.
  - exists l0, ls. split; [done|].
    apply N.eqb_neq in Hc as ->. by rewrite IH.
Qed.

(** The pending tail at any point of a text is the beginning of one of
    the text's lines. *)
Lemma short_tail a b : Forall short (split LF (a ++ b)) → short (cut a).2.
Proof.
  rewrite split_app.
  destruct (split_app_noLF (cut a).2 b (cut_tail_noLF a))
    as (l0 & ls & _ & ->).
  intros [_ Hs]%Forall_app. apply Forall_cons in Hs as [Hs _].
  unfold short in *. rewrite length_app in Hs. lia.
Qed.

End Lines.

(** ** The reassembly loop and the lines of the stream *)

Section Reassembly.
Context `{Runtime}.

Lemma decode_app d a b :
  decode d (a ++ b) =
    ((decode (decode d a).1 b).1, (decode d a).2 ++ (decode (decode d a).1 b).2).
Proof.
  revert d. induction a as [|x a IH]; intros d; simpl.
  { by destruct (decode d b). }
  destruct (decodeByte d x) as [d1 s1]. rewrite IH.
  destruct (decode d1 a) as [d2 s2]. simpl.
  by rewrite app_assoc.
Qed.

Lemma decodeChunks_concat d chunks :
  concat (decodeChunks d chunks) = (decode d (concat chunks)).2.
Proof.
  revert d. induction chunks as [|v chunks IH]; intros d; simpl; [done|].
  rewrite decode_app. destruct (decode d v) as [d1 s1]. simpl.
  by rewrite IH.
Qed.


Lemma decodeChunks_app d a b :
  decodeChunks d (a ++ b) =
    decodeChunks d a ++ decodeChunks (decode d (concat a)).1 b.
Proof.
  revert d. induction a as [|v a IH]; intros d; simpl; [done|].
  rewrite decode_app. destruct (decode d v) as [d1 s1]. simpl.
  by rewrite IH.
Qed.

(** A loop that hands every complete line to one function [g] yields
    the fragments of the complete lines of the whole text. *)
Lemma lines_of_stream (feed : jsstring → jsstring → jsstring * list json)
    (feedAll : jsstring → list jsstring → list json)
    (g : jsstring → list json) :
  (∀ b t, feed b t = ((cut (b ++ t)).2, flat_map g (cut (b ++ t)).1)) →
  (∀ b, feedAll b [] = []) →
  (∀ b t ts, feedAll b (t :: ts) = (feed b t).2 ++ feedAll (feed b t).1 ts) →
  ∀ ts b, noLF b → feedAll b ts = flat_map g (cut (b ++ concat ts)).1.
Proof.
  intros Hfeed Hnil Hcons ts.
  induction ts as [|t ts IH]; intros b Hb; simpl.
  { rewrite Hnil, app_nil_r, cut_noLF by done. done. }
  rewrite Hcons, Hfeed. simpl.
  rewrite IH by apply cut_tail_noLF.
  rewrite (app_assoc b), (cut_app (b ++ t)). simpl.
  by rewrite flat_map_app.
Qed.

Lemma part001_feed_cut b t :
  Part001.feed b t =
    ((cut (b ++ t)).2, flat_map Part001.processLine (cut (b ++ t)).1).
Proof. unfold Part001.feed. by rewrite takeLines_cut. Qed.

Lemma part000_feed_cut b t :
  Part000.feed b t =
    ((cut (b ++ t)).2, flat_map Part000.processLine (cut (b ++ t)).1).
Proof. unfold Part000.feed. by rewrite takeLines_cut. Qed.

Lemma fis_feed_cut b t :
  Fis.feed b t =
    ((cut (b ++ t)).2,
     flat_map (Fis.processLine (cut (b ++ t)).2) (cut (b ++ t)).1).
Proof. unfold Fis.feed. by rewrite takeLines_cut. Qed.

Lemma part001_feedAll_cons b t ts :
  Part001.feedAll b (t :: ts) =
    (Part001.feed b t).2 ++ Part001.feedAll (Part001.feed b t).1 ts.
Proof. simpl. by destruct (Part001.feed b t). Qed.

Lemma part000_feedAll_cons b t ts :
  Part000.feedAll b (t :: ts) =
    (Part000.feed b t).2 ++ Part000.feedAll (Part000.feed b t).1 ts.
Proof. simpl. by destruct (Part000.feed b t). Qed.

Lemma fis_feedAll_cons b t ts :
  Fis.feedAll b (t :: ts) =
    (Fis.feed b t).2 ++ Fis.feedAll (Fis.feed b t).1 ts.
Proof. simpl. by destruct (Fis.feed b t). Qed.

Lemma part001_feedAll_lines ts b :
  noLF b →
  Part001.feedAll b ts = flat_map Part001.processLine (cut (b ++ concat ts)).1.
Proof.
  apply (lines_of_stream Part001.feed);
    [apply part001_feed_cut|done|apply part001_feedAll_cons].
Qed.

Lemma part000_feedAll_lines ts b :
  noLF b →
  Part000.feedAll b ts = flat_map Part000.processLine (cut (b ++ concat ts)).1.
Proof.
  apply (lines_of_stream Part000.feed);
    [apply part000_feed_cut|done|apply part000_feedAll_cons].
Qed.

(** In [fis.ts] the pending tail only matters through its length. *)
Lemma fis_processLine_short b l :
  short b → Fis.processLine b l = Fis.processLine [] l.
Proof.
  intros Hb. unfold Fis.processLine.
  assert ((length b <? 4096)%nat = true) as -> by by apply Nat.ltb_lt.
  done.
Qed.

Lemma fis_processLine_long b l :
  ¬ short b → Fis.processLine b l = [].
Proof.
  intros Hb. unfold Fis.processLine.
  assert ((length b <? 4096)%nat = false) as -> by by apply Nat.ltb_nlt.
  rewrite andb_false_r.
  destruct (startsWith (trim l) (js "event: values")) eqn:Hev; [|done].
  assert (startsWith (trim l) (js "data: ") = false) as ->; [|done].
  destruct (trim l) as [|c ?]; [done|].
  change (js "event: values") with (101 :: js "vent: values") in Hev.
  change (js "data: ") with (100 :: js "ata: ").
  cbn [startsWith] in *.
  apply andb_true_iff in Hev as [Hc%N.eqb_eq _]. by subst c.
Qed.

Lemma fis_feedAll_lines ts b :
  noLF b → Forall short (split LF (b ++ concat ts)) →
  Fis.feedAll b ts = flat_map (Fis.processLine []) (cut (b ++ concat ts)).1.
Proof.
  revert b. induction ts as [|t ts IH]; intros b Hb Hshort.
  { simpl. by rewrite app_nil_r, cut_noLF. }
  rewrite fis_feedAll_cons, fis_feed_cut. cbn [concat fst snd] in *.
  rewrite (app_assoc b) in Hshort |- *.
  pose proof (short_tail _ _ Hshort) as Htail.
  rewrite split_app in Hshort. apply Forall_app in Hshort as [_ Hrest].
  rewrite IH by (done || apply cut_tail_noLF).
  rewrite (cut_app (b ++ t)). cbn [fst snd]. rewrite flat_map_app. f_equal.
  apply flat_map_ext. intros l. by apply fis_processLine_short.
Qed.

End Reassembly.

(** ** Chunk boundaries (claim C1) *)

(** [fis.ts] skips a complete line when 4096 or more code units are
    pending after the chunk that completed it: the line ["Hello"] is
    forwarded when its chunk ends at the line feed, and dropped when the
    same bytes arrive together with a long unfinished line. *)
Lemma chunk_boundary_fis_counterexample :
  Fis.reassemble (H := Node.runtime) [helloLine; longTail]
  ≠ Fis.reassemble (H := Node.runtime) [concat [helloLine; longTail]].
Proof. vm_compute. discriminate. Qed.

(** C1.  Feeding the chunks of a stream one at a time yields the same
    fragments, in the same order, as feeding the whole stream as one
    chunk: in [part_001] and [part_000] for every stream and every
    splitting, in [fis.ts] for every splitting of a stream whose lines
    are all shorter than 4096 code units. *)
Theorem chunk_boundary_invariance `{Runtime} (chunks : list Uint8Array) :
  Part001.reassemble chunks = Part001.reassemble [concat chunks]
  ∧ Part000.reassemble chunks = Part000.reassemble [concat chunks]
  ∧ (Forall short (split LF (streamText chunks)) →
     Fis.reassemble chunks = Fis.reassemble [concat chunks]).
Proof.
  assert (concat (decodeChunks newTextDecoder [concat chunks])
          = concat (decodeChunks newTextDecoder chunks)) as Hsame.
  { rewrite !decodeChunks_concat. simpl. by rewrite app_nil_r. }
  split; [|split].
  - unfold Part001.reassemble.
    rewrite !part001_feedAll_lines by constructor. by rewrite Hsame.
  - unfold Part000.reassemble.
    rewrite !part000_feedAll_lines by constructor. by rewrite Hsame.
  - intros Hshort. unfold Fis.reassemble, streamText in *.
    rewrite <- decodeChunks_concat in Hshort.
    rewrite !fis_feedAll_lines; rewrite ?Hsame; done || constructor.
Qed.

Lemma chunk_boundary_invariance_witness :
  Forall short
    (split LF (streamText (H := Node.runtime) [take 20 helloLine; drop 20 helloLine]))
  ∧ Fis.reassemble (H := Node.runtime) [take 20 helloLine; drop 20 helloLine]
    = Fis.reassemble (H := Node.runtime)
        [concat [take 20 helloLine; drop 20 helloLine]].
Proof.
  assert (Forall short
    (split LF (streamText (H := Node.runtime)
                 [take 20 helloLine; drop 20 helloLine]))) as Hshort.
  { apply (bool_decide_unpack _). vm_compute. exact I. }
  split; [exact Hshort|].
  apply (chunk_boundary_invariance (H := Node.runtime)); exact Hshort.
Defined.

(** ** The request as a whole *)

Section Requests.
Context `{Runtime}.

Lemma emit_nil w : emit w [] = w.
Proof. destruct w. unfold emit. simpl. by rewrite app_nil_r. Qed.

Lemma emit_emit w a b : emit (emit w a) b = emit w (a ++ b).
Proof. unfold emit. simpl. by rewrite app_assoc. Qed.

Lemma write_emit e w : write e w = (Normal tt, emit w [e]).
Proof. done. Qed.

Lemma writeAll_emit es w : writeAll es w = (Normal tt, emit w es).
Proof. done. Qed.

Lemma bind_normal {A B} (m : M A) (k : A → M B) w a w' :
  m w = (Normal a, w') → bind m k w = k a w'.
Proof. unfold bind. by intros ->. Qed.

Lemma bind_throw {A B} (m : M A) (k : A → M B) w e w' :
  m w = (Throw e, w') → bind m k w = (Throw e, w').
Proof. unfold bind. by intros ->. Qed.

Lemma decodeChunks_cons d v chunks :
  decodeChunks d (v :: chunks) =
    (decode d v).2 :: decodeChunks (decode d v).1 chunks.
Proof. simpl. by destruct (decode d v). Qed.

Lemma nonempty_fragments (a b : list json) :
  negb (bool_decide (a ++ b = []))
  = negb (bool_decide (a = [])) || negb (bool_decide (b = [])).
Proof. destruct a, b; done. Qed.

(** One turn of the read loop of [part_001] on a read that carries
    data. *)
Lemma part001_readLoop_data v now reads s w :
  v ≠ [] →
  Part001.readLoop (Read (Some v) false now :: reads) s w =
    let d := decode (Part001.decoder s) v in
    let f := Part001.feed (Part001.buffer s) d.2 in
    Part001.readLoop reads
      {| Part001.decoder := d.1; Part001.buffer := f.1;
         Part001.hasValidContent :=
           Part001.hasValidContent s || negb (bool_decide (f.2 = []));
         Part001.consecutiveEmptyReads := 0;
         Part001.lastActivityTime := now |}
      (emit w (Text <$> f.2)).
Proof.
  intros Hv. destruct v as [|x v]; [done|].
  cbn [Part001.readLoop Part001.noData length Nat.eqb from_option id].
  destruct (decode (Part001.decoder s) (x :: v)) as [d1 chunk].
  cbn [fst snd].
  destruct (Part001.feed (Part001.buffer s) chunk) as [b1 f1].
  by erewrite bind_normal by apply writeAll_emit.
Qed.

(** One turn of the read loop of [part_001] on an empty read. *)
Lemma part001_readLoop_empty value now rest s w :
  Part001.noData value = true →
  Part001.readLoop (Read value false now :: rest) s w =
    let stale :=
      (Part001.maxInactivityTime <? now - Part001.lastActivityTime s)%Z in
    let s1 :=
      {| Part001.decoder := Part001.decoder s;
         Part001.buffer := Part001.buffer s;
         Part001.hasValidContent := Part001.hasValidContent s;
         Part001.consecutiveEmptyReads :=
           if stale then 0%nat else S (Part001.consecutiveEmptyReads s);
         Part001.lastActivityTime :=
           if stale then now else Part001.lastActivityTime s |} in
    let w1 :=
      if stale then emit w [Text (JStr Part001.keepAlive)] else w in
    if (Part001.maxEmptyReads <=? Part001.consecutiveEmptyReads s1)%nat
    then (Normal s1, w1)
    else Part001.readLoop rest s1 w1.
Proof.
  intros Hv. cbn [Part001.readLoop]. rewrite Hv. cbn zeta.
  destruct (_ <? _)%Z.
  - by erewrite bind_normal by apply write_emit.
  - erewrite bind_normal by reflexivity.
    by destruct (_ <=? _)%nat.
Qed.

(** The read loop of [part_001] over the chunks of a stream that then
    closes. *)
Lemma part001_readLoop_stream chunks closedAt s w :
  Forall (fun c => c.1 ≠ []) chunks →
  let fragments :=
    Part001.feedAll (Part001.buffer s)
      (decodeChunks (Part001.decoder s) chunks.*1) in
  ∃ s',
    Part001.readLoop (closedStream chunks closedAt) s w
      = (Normal s', emit w (Text <$> fragments))
    ∧ Part001.hasValidContent s'
      = Part001.hasValidContent s || negb (bool_decide (fragments = [])).
Proof.
  intros Hne. revert s w.
  induction Hne as [|[v t] chunks Hv _ IH]; intros s w.
  { exists s. cbn. by rewrite emit_nil, orb_false_r. }
  cbn zeta in *. unfold closedStream in *.
  cbn [dataReads map app fst snd fmap list_fmap] in *.
  rewrite part001_readLoop_data by done. cbn zeta.
  edestruct IH as (s' & Hrun & Hflag). rewrite Hrun. exists s'.
  cbn [Part001.buffer Part001.decoder Part001.hasValidContent] in *.
  rewrite decodeChunks_cons, part001_feedAll_cons.
  rewrite emit_emit, fmap_app, Hflag, nonempty_fragments, orb_assoc.
  done.
Qed.

Lemma part001_attempt_stream sc w login chunks closedAt w1 :
  openStream sc w = (Normal (login, closedStream chunks closedAt), w1) →
  Forall (fun c => c.1 ≠ []) chunks →
  let fragments := Part001.reassemble chunks.*1 in
  Part001.attempt sc w =
    (Normal tt,
     emit w1
       (Text (JStr (Part001.greeting login)) :: (Text <$> fragments)
        ++ (if bool_decide (fragments = [])
            then [Text (JStr Part001.fallback)] else [])
        ++ [Done])).
Proof.
  intros Hopen Hne. cbn zeta. unfold Part001.attempt.
  erewrite bind_normal by exact Hopen. cbv beta iota.
  erewrite bind_normal by apply write_emit.
  destruct (part001_readLoop_stream chunks closedAt
              {| Part001.decoder := newTextDecoder; Part001.buffer := [];
                 Part001.hasValidContent := false;
                 Part001.consecutiveEmptyReads := 0;
                 Part001.lastActivityTime := startTime sc |}
              (emit w1 [Text (JStr (Part001.greeting login))]) Hne)
    as (s' & Hrun & Hflag).
  cbn [Part001.hasValidContent Part001.buffer Part001.decoder orb]
    in Hrun, Hflag.
  unfold Part001.reassemble.
  erewrite bind_normal by exact Hrun.
  rewrite Hflag, negb_involutive.
  destruct (bool_decide (Part001.feedAll _ _ = [])).
  - erewrite bind_normal by apply write_emit.
    rewrite write_emit, !emit_emit. cbn [app]. by rewrite <- ?app_assoc.
  - erewrite bind_normal by reflexivity.
    rewrite write_emit, !emit_emit. cbn [app]. by rewrite <- ?app_assoc.
Qed.

(** One turn of the read loop of [part_000] on a read that carries
    data. *)
Lemma part000_readLoop_data v streamDone now reads s w :
  Part000.readLoop (Read (Some v) streamDone now :: reads) s w =
    let d := decode (Part000.decoder s) v in
    let f := Part000.feed (Part000.buffer s) d.2 in
    let s1 :=
      {| Part000.decoder := d.1; Part000.buffer := f.1;
         Part000.hasValidContent :=
           Part000.hasValidContent s || negb (bool_decide (f.2 = [])) |} in
    if streamDone then (Normal s1, emit w (Text <$> f.2))
    else Part000.readLoop reads s1 (emit w (Text <$> f.2)).
Proof.
  cbn [Part000.readLoop Part000.consume]. rewrite bool_decide_true by eauto.
  cbn [negb andb].
  destruct (decode (Part000.decoder s) v) as [d1 chunk]. cbn [fst snd].
  destruct (Part000.feed (Part000.buffer s) chunk) as [b1 f1].
  erewrite bind_normal;
    [|erewrite bind_normal by apply writeAll_emit; reflexivity].
  by destruct streamDone.
Qed.

(** The read loop of [part_000] when the answer that reports the end
    carries the last chunk. *)
Lemma part000_readLoop_final chunks v closedAt s w :
  let fragments :=
    Part000.feedAll (Part000.buffer s)
      (decodeChunks (Part000.decoder s) (chunks.*1 ++ [v])) in
  ∃ s',
    Part000.readLoop (dataReads chunks ++ [Read (Some v) true closedAt]) s w
      = (Normal s', emit w (Text <$> fragments))
    ∧ Part000.hasValidContent s'
      = Part000.hasValidContent s || negb (bool_decide (fragments = [])).
Proof.
  revert s w. induction chunks as [|[v0 t] chunks IH]; intros s w;
    cbn zeta in *;
    cbn [dataReads map app fst snd fmap list_fmap] in *;
    rewrite part000_readLoop_data; cbn zeta;
    rewrite decodeChunks_cons, part000_feedAll_cons.
  { eexists. split; [by rewrite app_nil_r|].
    cbn [Part000.hasValidContent]. by rewrite app_nil_r. }
  edestruct IH as (s' & Hrun & Hflag). rewrite Hrun. exists s'.
  cbn [Part000.buffer Part000.decoder Part000.hasValidContent] in *.
  by rewrite emit_emit, fmap_app, Hflag, nonempty_fragments, orb_assoc.
Qed.


Lemma fis_readLoop_data v streamDone now reads s w :
  Fis.readLoop (Read (Some v) streamDone now :: reads) s w =
    let d := decode (Fis.decoder s) v in
    let f := Fis.feed (Fis.buffer s) d.2 in
    let s1 := {| Fis.decoder := d.1; Fis.buffer := f.1 |} in
    if streamDone then (Normal s1, emit w (Text <$> f.2))
    else Fis.readLoop reads s1 (emit w (Text <$> f.2)).
Proof.
  cbn [Fis.readLoop Fis.consume].
  destruct (decode (Fis.decoder s) v) as [d1 chunk]. cbn [fst snd].
  destruct (Fis.feed (Fis.buffer s) chunk) as [b1 f1].
  erewrite bind_normal;
    [|erewrite bind_normal by apply writeAll_emit; reflexivity].
  by destruct streamDone.
Qed.

(** The read loop of [fis.ts] over the chunks of a stream that then
    closes. *)
Lemma fis_readLoop_stream chunks closedAt s w :
  ∃ s',
    Fis.readLoop (closedStream chunks closedAt) s w
      = (Normal s',
         emit w (Text <$> Fis.feedAll (Fis.buffer s)
                   (decodeChunks (Fis.decoder s) chunks.*1))).
Proof.
  revert s w. induction chunks as [|[v0 t] chunks IH]; intros s w.
  { exists s. cbn. by rewrite emit_nil. }
  unfold closedStream in *.
  cbn [dataReads map app fst snd fmap list_fmap] in *.
  rewrite fis_readLoop_data. cbn zeta.
  edestruct IH as (s' & ->). exists s'.
  rewrite decodeChunks_cons, fis_feedAll_cons.
  cbn [Fis.buffer Fis.decoder].
  by rewrite emit_emit, fmap_app.
Qed.

Lemma part000_attempt_final sc w login chunks v closedAt w1 :
  openStream sc w
    = (Normal (login, dataReads chunks ++ [Read (Some v) true closedAt]), w1) →
  let fragments := Part000.reassemble (chunks.*1 ++ [v]) in
  Part000.attempt sc w =
    (Normal tt,
     emit w1
       (Text (JStr (Part000.greeting login)) :: (Text <$> fragments)
        ++ (if bool_decide (fragments = [])
            then [Text (JStr Part000.fallback)] else [])
        ++ [Done])).
Proof.
  intros Hopen. cbn zeta. unfold Part000.attempt.
  erewrite bind_normal by exact Hopen. cbv beta iota.
  erewrite bind_normal by apply write_emit.
  destruct (part000_readLoop_final chunks v closedAt
              {| Part000.decoder := newTextDecoder; Part000.buffer := [];
                 Part000.hasValidContent := false |}
              (emit w1 [Text (JStr (Part000.greeting login))]))
    as (s' & Hrun & Hflag).
  cbn [Part000.hasValidContent Part000.buffer Part000.decoder orb]
    in Hrun, Hflag.
  unfold Part000.reassemble.
  erewrite bind_normal by exact Hrun.
  rewrite Hflag, negb_involutive.
  destruct (bool_decide (Part000.feedAll _ _ = [])).
  - erewrite bind_normal by apply write_emit.
    rewrite write_emit, !emit_emit. cbn [app]. by rewrite <- ?app_assoc.
  - erewrite bind_normal by reflexivity.
    rewrite write_emit, !emit_emit. cbn [app]. by rewrite <- ?app_assoc.
Qed.


Lemma fis_attempt_stream sc w login chunks closedAt w1 :
  openStream sc w = (Normal (login, closedStream chunks closedAt), w1) →
  Fis.attempt sc w =
    (Normal tt,
     emit w1
       (Text (JStr (Fis.greeting login))
        :: (Text <$> Fis.reassemble chunks.*1) ++ [Done])).
Proof.
  intros Hopen. unfold Fis.attempt.
  erewrite bind_normal by exact Hopen. cbv beta iota.
  erewrite bind_normal by apply write_emit.
  destruct (fis_readLoop_stream chunks closedAt
              {| Fis.decoder := newTextDecoder; Fis.buffer := [] |}
              (emit w1 [Text (JStr (Fis.greeting login))]))
    as (s' & Hrun).
  erewrite bind_normal by exact Hrun.
  by rewrite write_emit, !emit_emit.
Qed.

(** *** Which events a computation can write *)

Lemma quiet_ret {A} (a : A) : quiet (ret a).
Proof. intros w. exists []. by rewrite app_nil_r. Qed.

Lemma quiet_throw {A} e : quiet (@throw A e).
Proof. intros w. exists []. by rewrite app_nil_r. Qed.

Lemma quiet_bind {A B} (m : M A) (k : A → M B) :
  quiet m → (∀ a, quiet (k a)) → quiet (bind m k).
Proof.
  intros Hm Hk w. destruct (Hm w) as (es1 & Hs1 & Hq1).
  unfold bind. destruct (m w) as [[a|e] w1]; simpl in *.
  - destruct (Hk a w1) as (es2 & Hs2 & Hq2).
    exists (es1 ++ es2). rewrite Hs2, Hs1, app_assoc.
    split; [done|by apply Forall_app].
  - by exists es1.
Qed.

Lemma quiet_writeAll es :
  Forall (fun e => isTerminal e = false) es → quiet (writeAll es).
Proof. intros Hes w. by exists es. Qed.

Lemma quiet_write e : isTerminal e = false → quiet (write e).
Proof. intros He w. exists [e]. split; [done|by constructor]. Qed.

Lemma quiet_send c : quiet (send c).
Proof. intros w. exists []. simpl. by rewrite app_nil_r. Qed.

Lemma quiet_threadsGet k : quiet (threadsGet k).
Proof. intros w. exists []. simpl. by rewrite app_nil_r. Qed.

Lemma quiet_threadsSet k v : quiet (threadsSet k v).
Proof. intros w. exists []. simpl. by rewrite app_nil_r. Qed.

Lemma quiet_await {A} (p : thrown + A) : quiet (await p).
Proof. destruct p; [apply quiet_throw|apply quiet_ret]. Qed.

Lemma quiet_settle {A} (c : completion A) : quiet (settle c).
Proof. destruct c; [apply quiet_ret|apply quiet_throw]. Qed.

Lemma quiet_texts (l : list json) :
  Forall (fun e => isTerminal e = false) (Text <$> l).
Proof. apply Forall_fmap. by apply Forall_true. Qed.

Lemma quiet_if {A} (b : bool) (m1 m2 : M A) :
  quiet m1 → quiet m2 → quiet (if b then m1 else m2).
Proof. by destruct b. Qed.

Create HintDb quiet.
Local Hint Resolve quiet_ret quiet_throw quiet_writeAll quiet_write
  quiet_send quiet_threadsGet quiet_threadsSet quiet_await quiet_settle
  quiet_texts quiet_if : quiet.

Ltac quiet_step :=
  first [ apply quiet_bind; [|intros ?] | progress eauto with quiet ].

Lemma quiet_createThread sc userLogin : quiet (createThread sc userLogin).
Proof. unfold createThread. repeat quiet_step. Qed.

Lemma quiet_resolve sc userLogin : quiet (resolve sc userLogin).
Proof.
  unfold resolve. apply quiet_bind; [eauto with quiet|].
  intros [|stored]; [apply quiet_createThread|].
  destruct (negb _); [apply quiet_createThread|apply quiet_ret].
Qed.

Lemma quiet_openRun sc threadId userPrompt :
  quiet (openRun sc threadId userPrompt).
Proof.
  unfold openRun. repeat quiet_step.
  destruct (body _); [destruct (negb _)|]; eauto with quiet.
Qed.

Lemma quiet_openStream sc : quiet (openStream sc).
Proof.
  unfold openStream, identify.
  apply quiet_bind; [repeat quiet_step|]. intros userLogin. cbn zeta.
  apply quiet_bind; [apply quiet_resolve|]. intros threadId.
  apply quiet_bind; [apply quiet_openRun|]. intros reads.
  apply quiet_ret.
Qed.

Lemma quiet_part001_readLoop reads s : quiet (Part001.readLoop reads s).
Proof.
  revert s. induction reads as [|[value done now|e] reads IH]; intros s;
    cbn [Part001.readLoop]; eauto with quiet.
  destruct done; [eauto with quiet|].
  destruct (Part001.noData value).
  - apply quiet_bind; [eauto with quiet|]. intros _.
    destruct (_ <=? _)%nat; eauto with quiet.
  - destruct (decode _ _) as [d1 chunk].
    destruct (Part001.feed _ _) as [b1 f1].
    apply quiet_bind; eauto with quiet.
Qed.

Lemma quiet_part000_readLoop reads s : quiet (Part000.readLoop reads s).
Proof.
  revert s. induction reads as [|[value done now|e] reads IH]; intros s;
    cbn [Part000.readLoop]; eauto with quiet.
  destruct (_ && _); [eauto with quiet|].
  apply quiet_bind.
  - unfold Part000.consume. destruct value; [|eauto with quiet].
    destruct (decode _ _) as [d1 chunk].
    destruct (Part000.feed _ _) as [b1 f1].
    apply quiet_bind; eauto with quiet.
  - intros s1. destruct done; eauto with quiet.
Qed.

Lemma quiet_fis_readLoop reads s : quiet (Fis.readLoop reads s).
Proof.
  revert s. induction reads as [|[value done now|e] reads IH]; intros s;
    cbn [Fis.readLoop]; eauto with quiet.
  apply quiet_bind.
  - unfold Fis.consume. destruct value; [|eauto with quiet].
    destruct (decode _ _) as [d1 chunk].
    destruct (Fis.feed _ _) as [b1 f1].
    apply quiet_bind; eauto with quiet.
  - intros s1. destruct done; eauto with quiet.
Qed.

Lemma finishes_done : finishes (write Done).
Proof. intros w. exists []. split; [constructor|done]. Qed.

Lemma finishes_bind {A} (m : M A) (k : A → M unit) :
  quiet m → (∀ a, finishes (k a)) → finishes (bind m k).
Proof.
  intros Hm Hk w. destruct (Hm w) as (es1 & Hs1 & Hq1).
  unfold bind. destruct (m w) as [[a|e] w1]; simpl in *.
  - destruct (Hk a w1) as (es2 & Hq2 & Hs2).
    exists (es1 ++ es2). split; [by apply Forall_app|].
    destruct (k a w1) as [[[]|e] w2]; rewrite Hs2, Hs1;
      by rewrite <- ?app_assoc.
  - by exists es1.
Qed.

Lemma finishes_part001 sc : finishes (Part001.attempt sc).
Proof.
  unfold Part001.attempt.
  apply finishes_bind; [apply quiet_openStream|]. intros [login reads].
  apply finishes_bind; [by apply quiet_write|]. intros _.
  apply finishes_bind; [apply quiet_part001_readLoop|]. intros s.
  apply finishes_bind; [|intros; apply finishes_done].
  destruct (negb _); eauto with quiet.
Qed.

Lemma finishes_part000 sc : finishes (Part000.attempt sc).
Proof.
  unfold Part000.attempt.
  apply finishes_bind; [apply quiet_openStream|]. intros [login reads].
  apply finishes_bind; [by apply quiet_write|]. intros _.
  apply finishes_bind; [apply quiet_part000_readLoop|]. intros s.
  apply finishes_bind; [|intros; apply finishes_done].
  destruct (negb _); eauto with quiet.
Qed.

Lemma finishes_fis sc : finishes (Fis.attempt sc).
Proof.
  unfold Fis.attempt.
  apply finishes_bind; [apply quiet_openStream|]. intros [login reads].
  apply finishes_bind; [by apply quiet_write|]. intros _.
  apply finishes_bind; [apply quiet_fis_readLoop|]. intros s.
  apply finishes_done.
Qed.

(** A handler that runs an attempt and reports a failure with one
    [Errors] event writes exactly one terminal event, as its last. *)
Lemma one_terminal (attempt : M unit) (report : thrown → event) w :
  finishes attempt → (∀ e, isTerminal (report e) = true) →
  ∃ es t,
    sink (match attempt w with
          | (Normal _, w') => w'
          | (Throw error, w') => (write (report error) w').2
          end) = sink w ++ es ++ [t]
    ∧ isTerminal t = true
    ∧ Forall (fun e => isTerminal e = false) es.
Proof.
  intros Hfin Hrep. destruct (Hfin w) as (es & Hq & Hs).
  destruct (attempt w) as [[[]|e] w1].
  - by exists es, Done.
  - exists es, (report e). simpl. rewrite Hs.
    by rewrite <- app_assoc.
Qed.

(** *** What the steps before the read loop do *)

Lemma openStream_sink sc w : sink (openStream sc w).2 = sink w ++ [Ack].
Proof.
  unfold openStream, identify, resolve, createThread, openRun, bind, write,
    send, await, settle, threadsGet, threadsSet, ret, throw.
  repeat (case_match; simplify_eq/=; try done).
Qed.

Lemma createConversation_truthy reply h :
  createConversation reply = Normal h → truthy (Val h) = true.
Proof.
  unfold createConversation. intros Hc.
  destruct reply as [|r]; [done|]. destruct (negb (ok r)); [done|].
  destruct (responseJson r) as [threadData|]; [|done].
  destruct (handleOf threadData) as [[|t]|]; try done.
  destruct (negb (truthy (Val t))) eqn:Ht; [done|].
  injection Hc as <-. by apply negb_false_iff.
Qed.

Lemma identify_ok sc login w :
  userReply sc = inr login →
  identify sc w =
    (Normal login,
     {| sink := sink w ++ [Ack]; calls := calls w ++ [GetUser];
        userThreads := userThreads w |}).
Proof. intros Hu. unfold identify, bind, write, send. by rewrite Hu. Qed.

(** The warm path: a stored thread id is returned as it is. *)
Lemma resolve_warm sc login h w :
  userThreads w !! login = Some h → truthy (Val h) = true →
  resolve sc login w = (Normal h, w).
Proof.
  intros Hget Hh. unfold resolve, bind, threadsGet. rewrite Hget.
  cbv beta iota. by rewrite Hh.
Qed.

(** The cold path: one creation request, and the new id is stored. *)
Lemma resolve_cold sc login h w :
  userThreads w !! login = None →
  createConversation (threadReply sc) = Normal h →
  resolve sc login w =
    (Normal h,
     {| sink := sink w; calls := calls w ++ [CreateThread];
        userThreads := <[login := h]> (userThreads w) |}).
Proof.
  intros Hget Hc. unfold resolve, bind, threadsGet. rewrite Hget.
  unfold createThread, bind, send, settle. rewrite Hc. done.
Qed.

Lemma resolve_cold_fail sc login e w :
  userThreads w !! login = None →
  createConversation (threadReply sc) = Throw e →
  resolve sc login w =
    (Throw e,
     {| sink := sink w; calls := calls w ++ [CreateThread];
        userThreads := userThreads w |}).
Proof.
  intros Hget Hc. unfold resolve, bind, threadsGet. rewrite Hget.
  unfold createThread, bind, send, settle. rewrite Hc. done.
Qed.

Lemma openStream_calls_warm sc login h w :
  userReply sc = inr login →
  userThreads w !! login = Some h → truthy (Val h) = true →
  calls (openStream sc w).2 = calls w ++ [GetUser; OpenRun h (prompt sc)]
  ∧ userThreads (openStream sc w).2 = userThreads w.
Proof.
  intros Hu Hget Hh. unfold openStream.
  erewrite bind_normal by (by apply identify_ok). cbn zeta.
  erewrite bind_normal by (by apply resolve_warm).
  unfold openRun, bind, send, await, ret, throw.
  repeat (case_match; simplify_eq/=; try done);
    by rewrite <- app_assoc.
Qed.

Lemma openStream_calls_cold sc login h w :
  userReply sc = inr login →
  userThreads w !! login = None →
  createConversation (threadReply sc) = Normal h →
  calls (openStream sc w).2
    = calls w ++ [GetUser; CreateThread; OpenRun h (prompt sc)]
  ∧ userThreads (openStream sc w).2 = <[login := h]> (userThreads w).
Proof.
  intros Hu Hget Hc. unfold openStream.
  erewrite bind_normal by (by apply identify_ok). cbn zeta.
  erewrite bind_normal by (by apply resolve_cold).
  unfold openRun, bind, send, await, ret, throw.
  repeat (case_match; simplify_eq/=; try done);
    by rewrite <- !app_assoc.
Qed.

Lemma creations_app a b : creations (a ++ b) = (creations a + creations b)%nat.
Proof.
  induction a as [|[] a IH]; simpl; [done|done| |done]. by rewrite IH.
Qed.

Lemma settle_normal {A} (c : completion A) w a w' :
  settle c w = (Normal a, w') → c = Normal a ∧ w' = w.
Proof. destruct c; intros [= -> ->]; done. Qed.

(** On the cold path one creation request goes out, whatever its
    outcome, and no other user's entry changes. *)
Lemma openStream_creations_cold sc login w :
  userReply sc = inr login → userThreads w !! login = None →
  creations (calls (openStream sc w).2) = S (creations (calls w))
  ∧ ∀ k, k ≠ login →
      userThreads (openStream sc w).2 !! k = userThreads w !! k.
Proof.
  intros Hu Hget.
  destruct (createConversation (threadReply sc)) as [h|e] eqn:Hc.
  - destruct (openStream_calls_cold sc login h w) as [-> ->]; [done..|].
    rewrite creations_app. simpl. split; [lia|].
    intros k Hk. by rewrite lookup_insert_ne.
  - unfold openStream.
    erewrite bind_normal by (by apply identify_ok). cbn zeta.
    erewrite bind_throw by (by apply resolve_cold_fail).
    simpl. rewrite !creations_app. simpl. split; [lia|done].
Qed.

Lemma identify_threads sc w :
  userThreads (identify sc w).2 = userThreads w.
Proof. unfold identify, bind, write, send, await. by destruct (userReply sc). Qed.

Lemma openRun_threads sc threadId userPrompt w :
  userThreads (openRun sc threadId userPrompt w).2 = userThreads w.
Proof.
  unfold openRun, bind, send, await, ret, throw.
  repeat (case_match; simplify_eq/=; try done).
Qed.

Lemma resolve_storedTruthy sc login w :
  storedTruthy w → storedTruthy (resolve sc login w).2.
Proof.
  intros Hw. unfold resolve, bind, threadsGet. cbv beta iota.
  assert (storedTruthy (createThread sc login w).2) as Hcreate.
  { unfold createThread, bind, send, threadsSet, ret. cbv beta iota.
    destruct (createConversation (threadReply sc)) as [h|e] eqn:Hc;
      cbn [settle ret throw]; [|done].
    intros k v. cbn. intros [[<- <-]|[_ ?]]%lookup_insert_Some; [|eauto].
    by eapply createConversation_truthy. }
  destruct (userThreads w !! login); [|done].
  by destruct (negb _).
Qed.

Lemma openStream_storedTruthy sc w :
  storedTruthy w → storedTruthy (openStream sc w).2.
Proof.
  intros Hw. unfold openStream, bind.
  pose proof (identify_threads sc w) as Hid.
  destruct (identify sc w) as [[login|e] w1]; simpl in Hid;
    [|simpl; unfold storedTruthy; by rewrite Hid].
  assert (storedTruthy w1) as Hw1 by (unfold storedTruthy; by rewrite Hid).
  pose proof (resolve_storedTruthy sc login w1 Hw1) as Hres.
  destruct (resolve sc login w1) as [[threadId|e] w2]; [|done].
  pose proof (openRun_threads sc threadId (prompt sc) w2) as Hrun.
  destruct (openRun sc threadId (prompt sc) w2) as [[reads|e] w3];
    simpl in *; unfold storedTruthy; by rewrite Hrun.
Qed.

(** *** After the stream is open only the sink changes *)

Lemma local_ret {A} (a : A) : local (ret a).
Proof. done. Qed.

Lemma local_throw {A} e : local (@throw A e).
Proof. done. Qed.

Lemma local_write e : local (write e).
Proof. done. Qed.

Lemma local_writeAll es : local (writeAll es).
Proof. done. Qed.

Lemma local_bind {A B} (m : M A) (k : A → M B) :
  local m → (∀ a, local (k a)) → local (bind m k).
Proof.
  intros Hm Hk w. destruct (Hm w) as [Hc Ht]. unfold bind.
  destruct (m w) as [[a|e] w1]; simpl in *; [|done].
  destruct (Hk a w1) as [-> ->]. done.
Qed.

Lemma local_if {A} (b : bool) (m1 m2 : M A) :
  local m1 → local m2 → local (if b then m1 else m2).
Proof. by destruct b. Qed.

Create HintDb local.
Local Hint Resolve local_ret local_throw local_write local_writeAll
  local_if : local.

Lemma local_part001_readLoop reads s : local (Part001.readLoop reads s).
Proof.
  revert s. induction reads as [|[value done now|e] reads IH]; intros s;
    cbn [Part001.readLoop]; eauto with local.
  destruct done; [eauto with local|].
  destruct (Part001.noData value).
  - apply local_bind; [eauto with local|]. intros _.
    destruct (_ <=? _)%nat; eauto with local.
  - destruct (decode _ _) as [d1 chunk].
    destruct (Part001.feed _ _) as [b1 f1].
    apply local_bind; eauto with local.
Qed.

Lemma local_part000_readLoop reads s : local (Part000.readLoop reads s).
Proof.
  revert s. induction reads as [|[value done now|e] reads IH]; intros s;
    cbn [Part000.readLoop]; eauto with local.
  destruct (_ && _); [eauto with local|].
  apply local_bind.
  - unfold Part000.consume. destruct value; [|eauto with local].
    destruct (decode _ _) as [d1 chunk].
    destruct (Part000.feed _ _) as [b1 f1].
    apply local_bind; eauto with local.
  - intros s1. destruct done; eauto with local.
Qed.

Lemma local_fis_readLoop reads s : local (Fis.readLoop reads s).
Proof.
  revert s. induction reads as [|[value done now|e] reads IH]; intros s;
    cbn [Fis.readLoop]; eauto with local.
  apply local_bind.
  - unfold Fis.consume. destruct value; [|eauto with local].
    destruct (decode _ _) as [d1 chunk].
    destruct (Fis.feed _ _) as [b1 f1].
    apply local_bind; eauto with local.
  - intros s1. destruct done; eauto with local.
Qed.

(** A handler whose steps after [openStream] are local sends the
    requests of [openStream] and no others. *)
Lemma handler_calls (k : jsstring * list readResult → M unit)
    (report : thrown → event) sc w :
  (∀ a, local (k a)) →
  let w' :=
    match bind (openStream sc) k w with
    | (Normal _, w') => w'
    | (Throw error, w') => (write (report error) w').2
    end in
  calls w' = calls (openStream sc w).2
  ∧ userThreads w' = userThreads (openStream sc w).2.
Proof.
  intros Hk. cbn zeta. unfold bind.
  destruct (openStream sc w) as [[a|e] w1]; simpl; [|done].
  destruct (Hk a w1) as [Hc Ht].
  by destruct (k a w1) as [[[]|e] w2].
Qed.

Lemma part001_handle_calls sc w :
  calls (Part001.handle sc w) = calls (openStream sc w).2
  ∧ userThreads (Part001.handle sc w) = userThreads (openStream sc w).2.
Proof.
  apply (handler_calls _ Part001.errorsEvent). intros [login reads].
  apply local_bind; [eauto with local|]. intros _.
  apply local_bind; [apply local_part001_readLoop|]. intros s.
  apply local_bind; eauto with local.
Qed.

Lemma part000_handle_calls sc w :
  calls (Part000.handle sc w) = calls (openStream sc w).2
  ∧ userThreads (Part000.handle sc w) = userThreads (openStream sc w).2.
Proof.
  apply (handler_calls _ Part000.errorsEvent). intros [login reads].
  apply local_bind; [eauto with local|]. intros _.
  apply local_bind; [apply local_part000_readLoop|]. intros s.
  apply local_bind; eauto with local.
Qed.

Lemma fis_handle_calls sc w :
  calls (Fis.handle sc w) = calls (openStream sc w).2
  ∧ userThreads (Fis.handle sc w) = userThreads (openStream sc w).2.
Proof.
  apply (handler_calls _ Fis.errorsEvent). intros [login reads].
  apply local_bind; [eauto with local|]. intros _.
  apply local_bind; [apply local_fis_readLoop|]. intros s.
  eauto with local.
Qed.

End Requests.

(** ** The terminal event (claim C2) *)

(** C2.  Whatever the upstream does (the user lookup, the thread
    creation or the run fails or times out, the stream is empty, carries
    only heartbeats, breaks or delivers content), each of the three
    handlers writes exactly one terminal event, [Done] or [Errors], and
    writes it last. *)
Theorem exactly_one_terminal_event `{Runtime} (sc : scenario) (w : world) :
  oneTerminalLast (sink w) (sink (Part001.handle sc w))
  ∧ oneTerminalLast (sink w) (sink (Part000.handle sc w))
  ∧ oneTerminalLast (sink w) (sink (Fis.handle sc w)).
Proof.
  split; [|split].
  - apply (one_terminal (Part001.attempt sc) Part001.errorsEvent);
      [apply finishes_part001|done].
  - apply (one_terminal (Part000.attempt sc) Part000.errorsEvent);
      [apply finishes_part000|done].
  - apply (one_terminal (Fis.attempt sc) Fis.errorsEvent);
      [apply finishes_fis|done].
Qed.

(** ** The fallback text (claims C3 and C10) *)

Section Fallback.
Context `{Runtime}.

Lemma part001_handle_stream sc w login chunks closedAt w1 :
  openStream sc w = (Normal (login, closedStream chunks closedAt), w1) →
  Forall (fun c => c.1 ≠ []) chunks →
  sink (Part001.handle sc w) =
    sink w ++ [Ack; Text (JStr (Part001.greeting login))]
    ++ (Text <$> Part001.reassemble chunks.*1)
    ++ (if bool_decide (Part001.reassemble chunks.*1 = [])
        then [Text (JStr Part001.fallback)] else [])
    ++ [Done].
Proof.
  intros Hopen Hne. unfold Part001.handle.
  erewrite part001_attempt_stream by done. cbn [emit sink].
  pose proof (openStream_sink sc w) as Hs. rewrite Hopen in Hs.
  simpl in Hs. rewrite Hs. by rewrite <- app_assoc.
Qed.

Lemma part000_handle_final sc w login chunks v closedAt w1 :
  openStream sc w
    = (Normal (login, dataReads chunks ++ [Read (Some v) true closedAt]), w1) →
  sink (Part000.handle sc w) =
    sink w ++ [Ack; Text (JStr (Part000.greeting login))]
    ++ (Text <$> Part000.reassemble (chunks.*1 ++ [v]))
    ++ (if bool_decide (Part000.reassemble (chunks.*1 ++ [v]) = [])
        then [Text (JStr Part000.fallback)] else [])
    ++ [Done].
Proof.
  intros Hopen. unfold Part000.handle.
  erewrite part000_attempt_final by done. cbn [emit sink].
  pose proof (openStream_sink sc w) as Hs. rewrite Hopen in Hs.
  simpl in Hs. rewrite Hs. by rewrite <- app_assoc.
Qed.

Lemma fis_handle_stream sc w login chunks closedAt w1 :
  openStream sc w = (Normal (login, closedStream chunks closedAt), w1) →
  sink (Fis.handle sc w) =
    sink w ++ [Ack; Text (JStr (Fis.greeting login))]
    ++ (Text <$> Fis.reassemble chunks.*1) ++ [Done].
Proof.
  intros Hopen. unfold Fis.handle.
  erewrite fis_attempt_stream by done. cbn [emit sink].
  pose proof (openStream_sink sc w) as Hs. rewrite Hopen in Hs.
  simpl in Hs. rewrite Hs. by rewrite <- app_assoc.
Qed.





End Fallback.

(** *** The read loops over any answers *)







(** *** The events of a request over any answers *)









(** ** The greeting (claim C10) *)






(** ** The concrete scenario (claim C6) *)

(** C6.  The three lines of the scenario, fed in this order, yield the
    one fragment ["Hello"] in each revision: the entry with empty
    content and the line [data: ping] contribute nothing. *)
Theorem hello_scenario :
  (Part001.reassemble (H := Node.runtime)
     [helloLine; emptyContentLine; pingLine] = [JStr (js "Hello")]
   ∧ Part001.reassemble (H := Node.runtime) [emptyContentLine] = []
   ∧ Part001.reassemble (H := Node.runtime) [pingLine] = [])
  ∧ (Part000.reassemble (H := Node.runtime)
       [helloLine; emptyContentLine; pingLine] = [JStr (js "Hello")]
     ∧ Part000.reassemble (H := Node.runtime) [emptyContentLine] = []
     ∧ Part000.reassemble (H := Node.runtime) [pingLine] = [])
  ∧ (Fis.reassemble (H := Node.runtime)
       [helloLine; emptyContentLine; pingLine] = [JStr (js "Hello")]
     ∧ Fis.reassemble (H := Node.runtime) [emptyContentLine] = []
     ∧ Fis.reassemble (H := Node.runtime) [pingLine] = []).
Proof. repeat split; vm_compute; reflexivity. Qed.

(** ** Tool calls (claim C4) *)

Lemma forOf_skip (body : json → option (list json)) before msg after :
  body msg = Some [] →
  forOf body (before ++ msg :: after) = forOf body (before ++ after).
Proof.
  intros Hmsg. induction before as [|m before IH]; simpl.
  { rewrite Hmsg. by destruct (forOf body after). }
  destruct (body m); [|done]. by rewrite IH.
Qed.

Lemma tool_calls_block msg t ts :
  getProp msg (js "tool_calls") = Some (Val (JArr (t :: ts))) →
  ∃ ty content,
    messageFields msg = Some (ty, content, Val (JArr (t :: ts)))
    ∧ noToolCalls (Val (JArr (t :: ts))) = false.
Proof.
  intros Htc. unfold messageFields. rewrite Htc.
  destruct msg; try done; simpl; eauto.
Qed.

(** C4.  A message entry whose [tool_calls] is a non-empty list yields
    no fragment in any revision, whatever its [type] and [content]: the
    body of the loop writes nothing for it, and a record yields the same
    fragments as the record without that entry. *)
Theorem tool_call_suppression (msg t : json) (ts before after : list json)
    (eventObj eventObj' : json) :
  getProp msg (js "tool_calls") = Some (Val (JArr (t :: ts))) →
  (Part001.messageBody msg = Some []
   ∧ Part000.messageBody msg = Some []
   ∧ Fis.messageBody msg = Some [])
  ∧ (getProp eventObj (js "messages")
       = Some (Val (JArr (before ++ msg :: after))) →
     getProp eventObj' (js "messages") = Some (Val (JArr (before ++ after))) →
     getProp eventObj' (js "content") = getProp eventObj (js "content") →
     Part001.processEvent eventObj = Part001.processEvent eventObj'
     ∧ Part000.processEvent eventObj = Part000.processEvent eventObj'
     ∧ Fis.processEvent eventObj = Fis.processEvent eventObj').
Proof.
  intros Htc.
  destruct (tool_calls_block msg t ts Htc) as (ty & content & Hf & Hno).
  assert (Part001.messageBody msg = Some []
          ∧ Part000.messageBody msg = Some []
          ∧ Fis.messageBody msg = Some []) as (H1 & H0 & Hfis).
  { unfold Part001.messageBody, Part000.messageBody, Fis.messageBody.
    rewrite Hf. cbn [mbind option_bind]. rewrite Hno.
    by rewrite !andb_false_r. }
  split; [done|]. intros Hm Hm' Hc.
  unfold Part001.processEvent, Part000.processEvent, Fis.processEvent.
  rewrite Hm, Hm', Hc. cbn [truthy isArray elementsOf andb Fis.iterate].
  by rewrite !forOf_skip.
Qed.

Lemma tool_call_suppression_witness :
  let call := JObj [(js "name", JStr (js "search"))] in
  let msg :=
    JObj [(js "type", JStr (js "ai")); (js "content", JStr (js "Searching"));
          (js "tool_calls", JArr [call])] in
  let answer :=
    JObj [(js "type", JStr (js "ai")); (js "content", JStr (js "Done"))] in
  getProp msg (js "tool_calls") = Some (Val (JArr [call]))
  ∧ Part001.messageBody msg = Some []
  ∧ Part001.processEvent (JObj [(js "messages", JArr [msg; answer])])
    = Part001.processEvent (JObj [(js "messages", JArr [answer])]).
Proof.
  intros call msg answer.
  assert (getProp msg (js "tool_calls") = Some (Val (JArr [call]))) as Htc
    by reflexivity.
  pose proof (tool_call_suppression msg call [] [] [answer]
                (JObj [(js "messages", JArr [msg; answer])])
                (JObj [(js "messages", JArr [answer])]) Htc) as [Hbody Hrec].
  split; [exact Htc|]. split; [exact (proj1 Hbody)|].
  apply Hrec; reflexivity.
Defined.

(** ** Malformed lines (claim C5) *)

Section Garbage.
Context `{Runtime}.

Lemma startsWith_weaken s p q :
  startsWith s (p ++ q) = true → startsWith s p = true.
Proof.
  revert s. induction p as [|c p IH]; intros s; [done|].
  destruct s as [|d s]; [done|]. cbn [startsWith app].
  intros [-> Hs]%andb_true_iff. by rewrite (IH s Hs).
Qed.

Lemma flat_map_valid {A B} (g : A → list B) (bad : A → bool) ls :
  (∀ l, bad l = true → g l = []) →
  flat_map g ls = flat_map g (filter (fun l => bad l = false) ls).
Proof.
  intros Hbad. induction ls as [|l ls IH]; [done|].
  rewrite filter_cons. simpl. destruct (bad l) eqn:Hl.
  - rewrite decide_False by done. by rewrite (Hbad l Hl).
  - rewrite decide_True by done. simpl. by rewrite IH.
Qed.

Lemma part001_garbage l :
  garbage trimmedPayload l = true → Part001.processLine l = [].
Proof.
  unfold garbage, hasDataPrefix, trimmedPayload, Part001.processLine.
  cbn zeta. intros Hg.
  destruct (bool_decide (trim l = [])); [done|].
  destruct (startsWith (trim l) (js "data: ")); [|done].
  destruct (str_eqb _ [] || _); [done|].
  destruct (startsWith _ (js "{")); [|done].
  destruct (JSON_parse _) as [eventObj|]; [|done].
  by rewrite bool_decide_true in Hg by eauto.
Qed.

Lemma part000_garbage l :
  garbage payload l = true → Part000.processLine l = [].
Proof.
  unfold garbage, hasDataPrefix, payload, Part000.processLine.
  cbn zeta. intros Hg.
  destruct (startsWith (trim l) (js "data: {")) eqn:Hp; [|done].
  apply (startsWith_weaken _ (js "data: ") (js "{")) in Hp.
  rewrite Hp in Hg.
  destruct (JSON_parse _) as [eventObj|]; [|done].
  by rewrite bool_decide_true in Hg by eauto.
Qed.

Lemma fis_event_line b l :
  startsWith (trim l) (js "event: values") = true →
  Fis.processLine b l = [].
Proof.
  intros Hev. unfold Fis.processLine. cbn zeta. rewrite Hev.
  assert (startsWith (trim l) (js "data: ") = false) as ->; [|done].
  destruct (trim l) as [|c ?]; [done|].
  change (js "event: values") with (101 :: js "vent: values") in Hev.
  change (js "data: ") with (100 :: js "ata: ").
  cbn [startsWith] in *.
  apply andb_true_iff in Hev as [Hc%N.eqb_eq _]. by subst c.
Qed.

Lemma fis_garbage b l :
  garbage payload l = true → Fis.processLine b l = [].
Proof.
  intros Hg.
  destruct (startsWith (trim l) (js "event: values")) eqn:Hev;
    [by apply fis_event_line|].
  revert Hg.
  unfold garbage, hasDataPrefix, payload, Fis.processLine.
  cbn zeta. rewrite Hev. intros Hg.
  destruct (startsWith (trim l) (js "data: {")) eqn:Hp; [|done].
  apply (startsWith_weaken _ (js "data: ") (js "{")) in Hp.
  rewrite Hp in Hg.
  destruct (_ <? _)%nat; [|done]. cbn [andb].
  destruct (JSON_parse _) as [eventObj|]; [|done].
  by rewrite bool_decide_true in Hg by eauto.
Qed.

Lemma split_joinLines ls :
  Forall noLF ls → split LF (joinLines ls) = ls ++ [[]].
Proof.
  intros Hls. rewrite split_cut.
  rewrite <- (app_nil_r (joinLines ls)), cut_joinLines; done || constructor.
Qed.

End Garbage.

(** In [fis.ts] a valid line is lost when the chunk that completes it
    ends with 4096 or more code units of the next line, here a garbage
    line. *)
Lemma malformed_line_fis_counterexample :
  let chunks := [helloLine ++ longTail; [x0a]] in
  let ls := [helloText; longText] in
  Forall noLF ls
  ∧ streamText (H := Node.runtime) chunks = joinLines ls
  ∧ filter (fun l => garbage (H := Node.runtime) payload l = false) ls
    = [helloText]
  ∧ Fis.reassemble (H := Node.runtime) chunks = []
  ∧ flat_map (Fis.processLine (H := Node.runtime) [])
      (filter (fun l => garbage (H := Node.runtime) payload l = false) ls)
    = [JStr (js "Hello")].
Proof.
  cbn zeta. split; [apply (bool_decide_unpack _); vm_compute; exact I|].
  split; [vm_compute; reflexivity|]. split; [vm_compute; reflexivity|].
  split; vm_compute; reflexivity.
Qed.

(** C5.  For a stream of lines, each ended by a line feed, and for every
    way the stream arrives in chunks, the fragments are those of the
    valid lines, in stream order: a line that lacks the prefix [data: ]
    or whose payload does not decode yields nothing and stops nothing.
    In [part_001] and [part_000] this holds for every stream, in
    [fis.ts] for the streams whose lines are shorter than 4096 code
    units. *)
Theorem malformed_line_tolerance `{Runtime} (ls : list jsstring)
    (chunks : list Uint8Array) :
  Forall noLF ls →
  streamText chunks = joinLines ls →
  Part001.reassemble chunks
  = flat_map Part001.processLine
      (filter (fun l => garbage trimmedPayload l = false) ls)
  ∧ Part000.reassemble chunks
    = flat_map Part000.processLine
        (filter (fun l => garbage payload l = false) ls)
  ∧ (Forall short ls →
     Fis.reassemble chunks
     = flat_map (Fis.processLine [])
         (filter (fun l => garbage payload l = false) ls)).
Proof.
  intros Hls Htext. unfold streamText in Htext.
  rewrite <- decodeChunks_concat in Htext.
  assert (cut (concat (decodeChunks newTextDecoder chunks)) = (ls, [])) as Hcut.
  { rewrite Htext, <- (app_nil_r (joinLines ls)).
    apply cut_joinLines; done || constructor. }
  split; [|split].
  - unfold Part001.reassemble.
    rewrite part001_feedAll_lines by constructor. simpl. rewrite Hcut.
    apply flat_map_valid, part001_garbage.
  - unfold Part000.reassemble.
    rewrite part000_feedAll_lines by constructor. simpl. rewrite Hcut.
    apply flat_map_valid, part000_garbage.
  - intros Hshort. unfold Fis.reassemble.
    rewrite fis_feedAll_lines.
    + simpl. rewrite Hcut. apply flat_map_valid, fis_garbage.
    + constructor.
    + simpl. rewrite Htext, split_joinLines by done.
      apply Forall_app. split; [done|]. apply Forall_singleton.
        unfold short. simpl. lia.
Qed.

Lemma malformed_line_tolerance_witness :
  let ls := [js "noise"; helloText; js "data: {oops"; []] in
  let chunks :=
    [ascii "noi"; ascii "se" ++ [x0a] ++ take 30 helloLine;
     drop 30 helloLine ++ ascii "data: {oops" ++ [x0a; x0a]] in
  Forall noLF ls
  ∧ streamText (H := Node.runtime) chunks = joinLines ls
  ∧ Forall short ls
  ∧ Fis.reassemble (H := Node.runtime) chunks
    = flat_map (Fis.processLine (H := Node.runtime) [])
        (filter (fun l => garbage (H := Node.runtime) payload l = false) ls).
Proof.
  cbn zeta.
  assert (Forall noLF
            [js "noise"; helloText; js "data: {oops"; []]) as Hls.
  { apply (bool_decide_unpack _). vm_compute. exact I. }
  assert (Forall short
            [js "noise"; helloText; js "data: {oops"; []]) as Hshort.
  { apply (bool_decide_unpack _). vm_compute. exact I. }
  assert (streamText (H := Node.runtime)
            [ascii "noi"; ascii "se" ++ [x0a] ++ take 30 helloLine;
             drop 30 helloLine ++ ascii "data: {oops" ++ [x0a; x0a]]
          = joinLines
              [js "noise"; helloText; js "data: {oops"; []])
    as Htext by (vm_compute; reflexivity).
  split; [exact Hls|]. split; [exact Htext|]. split; [exact Hshort|].
  exact (proj2 (proj2 (malformed_line_tolerance (H := Node.runtime) _ _
                         Hls Htext)) Hshort).
Defined.

(** ** The unterminated tail (claim C9) *)

Section Tail.
Context `{Runtime}.

Lemma flat_map_nil {A B} (g : A → list B) ls :
  (∀ l, g l = []) → flat_map g ls = [].
Proof. intros Hg. induction ls as [|l ls IH]; simpl; [done|]. by rewrite Hg. Qed.

(** Chunks without a line feed complete no line. *)
Lemma fis_feedAll_noLF b rs :
  noLF b → Forall noLF rs → Fis.feedAll b rs = [].
Proof.
  intros Hb Hrs. revert b Hb.
  induction Hrs as [|r rs Hr _ IH]; intros b Hb; [done|].
  rewrite fis_feedAll_cons, fis_feed_cut.
  rewrite (cut_noLF (b ++ r)) by by apply Forall_app.
  simpl. apply IH. by apply Forall_app.
Qed.

Lemma cut_after_buffer b ls r :
  noLF b → Forall noLF ls → noLF r → ls ≠ [] →
  ∃ l ls', cut (b ++ joinLines ls ++ r) = (l :: ls', r)
           ∧ cut (b ++ joinLines ls) = (l :: ls', []).
Proof.
  intros Hb Hls Hr Hne. destruct Hls as [|l ls Hl Hls]; [done|].
  exists (b ++ l), ls.
  assert (∀ t, b ++ joinLines (l :: ls) ++ t
               = joinLines ((b ++ l) :: ls) ++ t) as Heq.
  { intros t. simpl. by rewrite <- !app_assoc. }
  assert (Forall noLF ((b ++ l) :: ls)) as Hls'.
  { constructor; [by apply Forall_app|done]. }
  split.
  - rewrite Heq. by apply cut_joinLines.
  - rewrite <- (app_nil_r (joinLines (l :: ls))), Heq.
    apply cut_joinLines; done || constructor.
Qed.

(** One chunk of [fis.ts] that completes lines and ends with an
    unterminated tail, and the chunks after it that complete none. *)
Lemma fis_tail_step b ls r rs :
  noLF b → Forall noLF ls → noLF r → Forall noLF rs →
  Fis.feedAll b ((joinLines ls ++ r) :: rs)
  = if bool_decide (short r) then Fis.feedAll b [joinLines ls] else [].
Proof.
  intros Hb Hls Hr Hrs.
  rewrite !fis_feedAll_cons, !fis_feed_cut. cbn [Fis.feedAll fst snd].
  rewrite app_nil_r.
  destruct (decide (ls = [])) as [->|Hne].
  { cbn [joinLines flat_map app]. rewrite app_nil_r.
    rewrite !cut_noLF by (done || by apply Forall_app). simpl.
    rewrite fis_feedAll_noLF by (done || by apply Forall_app).
    by destruct (bool_decide _). }
  destruct (cut_after_buffer b ls r) as (l & ls' & -> & ->); [done..|].
  cbn [fst snd]. rewrite fis_feedAll_noLF, app_nil_r by done.
  case_bool_decide as Hshort.
  - apply flat_map_ext. intros ?. by apply fis_processLine_short.
  - apply flat_map_nil. intros ?. by apply fis_processLine_long.
Qed.

End Tail.

(** C9.  What follows the last line feed of a stream is never parsed:
    in [part_001] and [part_000] a stream with an unterminated last
    record yields the fragments of the stream without that record, for
    every splitting into chunks, and so it does in [fis.ts] when no line
    reaches 4096 code units; in [fis.ts] in general the chunk that holds
    the last line feed yields the fragments of its complete lines or
    none, whatever the tail holds, and later chunks yield nothing.  When
    the stream closes the handlers write the fallback text (if they have
    one) and [Done], and nothing from the pending buffer. *)
Theorem unterminated_record_dropped `{Runtime} :
  (∀ (chunks chunks' : list Uint8Array) (ls : list jsstring) (r : jsstring),
     streamText chunks = joinLines ls ++ r →
     streamText chunks' = joinLines ls →
     Forall noLF ls → noLF r →
     Part001.reassemble chunks = Part001.reassemble chunks'
     ∧ Part000.reassemble chunks = Part000.reassemble chunks'
     ∧ (Forall short (split LF (joinLines ls ++ r)) →
        Fis.reassemble chunks = Fis.reassemble chunks'))
  ∧ (∀ (b : jsstring) (ls : list jsstring) (r : jsstring)
       (rs : list jsstring),
       noLF b → Forall noLF ls → noLF r → Forall noLF rs →
       Fis.feedAll b ((joinLines ls ++ r) :: rs)
       = if bool_decide (short r) then Fis.feedAll b [joinLines ls] else [])
  ∧ (∀ sc w w1 login chunks closedAt,
       openStream sc w = (Normal (login, closedStream chunks closedAt), w1) →
       Forall (fun c => c.1 ≠ []) chunks →
       sink (Part001.handle sc w)
       = sink w ++ [Ack; Text (JStr (Part001.greeting login))]
         ++ (Text <$> Part001.reassemble chunks.*1)
         ++ (if bool_decide (Part001.reassemble chunks.*1 = [])
             then [Text (JStr Part001.fallback)] else [])
         ++ [Done])
  ∧ (∀ sc w w1 login chunks closedAt,
       openStream sc w = (Normal (login, closedStream chunks closedAt), w1) →
       sink (Fis.handle sc w)
       = sink w ++ [Ack; Text (JStr (Fis.greeting login))]
         ++ (Text <$> Fis.reassemble chunks.*1) ++ [Done]).
Proof.
  split; [|split; [|split]].
  - intros chunks chunks' ls r Htext Htext' Hls Hr.
    unfold streamText in *. rewrite <- decodeChunks_concat in Htext, Htext'.
    assert (cut (concat (decodeChunks newTextDecoder chunks)) = (ls, r))
      as Hcut by (rewrite Htext; by apply cut_joinLines).
    assert (cut (concat (decodeChunks newTextDecoder chunks')) = (ls, []))
      as Hcut'.
    { rewrite Htext', <- (app_nil_r (joinLines ls)).
      apply cut_joinLines; done || constructor. }
    split; [|split].
    + unfold Part001.reassemble.
      rewrite !part001_feedAll_lines by constructor. simpl.
      by rewrite Hcut, Hcut'.
    + unfold Part000.reassemble.
      rewrite !part000_feedAll_lines by constructor. simpl.
      by rewrite Hcut, Hcut'.
    + intros Hshort. unfold Fis.reassemble.
      assert (Forall short ls) as Hsl.
      { rewrite split_cut, cut_joinLines in Hshort by done.
        by apply Forall_app in Hshort as [? _]. }
      rewrite (fis_feedAll_lines (decodeChunks newTextDecoder chunks));
        [|constructor|simpl; by rewrite Htext].
      rewrite (fis_feedAll_lines (decodeChunks newTextDecoder chunks'));
        [|constructor|].
      * simpl. by rewrite Hcut, Hcut'.
      * simpl. rewrite Htext', split_joinLines by done.
        apply Forall_app. split; [done|]. apply Forall_singleton.
        unfold short. simpl. lia.
  - intros. by apply fis_tail_step.
  - intros. by eapply part001_handle_stream.
  - intros. by eapply fis_handle_stream.
Qed.

Lemma unterminated_record_dropped_witness :
  let ls := [helloText] in
  let r := map Byte.to_N lostRecord in
  (streamText (H := Node.runtime) [helloLine; lostRecord] = joinLines ls ++ r
   ∧ streamText (H := Node.runtime) [helloLine] = joinLines ls
   ∧ Forall noLF ls ∧ noLF r)
  ∧ Part001.reassemble (H := Node.runtime) [helloLine; lostRecord]
    = Part001.reassemble (H := Node.runtime) [helloLine]
  ∧ Fis.feedAll (H := Node.runtime) [] [joinLines ls ++ r]
    = (if bool_decide (short r)
       then Fis.feedAll (H := Node.runtime) [] [joinLines ls] else [])
  ∧ sink (Part001.handle (H := Node.runtime) lostRun freshWorld)
    = [Ack; Text (JStr (Part001.greeting (js "bob")))]
      ++ (Text <$> Part001.reassemble (H := Node.runtime)
                     [helloLine; lostRecord])
      ++ (if bool_decide (Part001.reassemble (H := Node.runtime)
                            [helloLine; lostRecord] = [])
          then [Text (JStr Part001.fallback)] else [])
      ++ [Done].
Proof.
  cbn zeta.
  assert (Forall noLF [helloText]) as Hls
    by (apply (bool_decide_unpack _); vm_compute; exact I).
  assert (noLF (map Byte.to_N lostRecord)) as Hr
    by (apply (bool_decide_unpack _); vm_compute; exact I).
  assert (streamText (H := Node.runtime) [helloLine; lostRecord]
          = joinLines [helloText] ++ map Byte.to_N lostRecord) as Htext
    by (vm_compute; reflexivity).
  assert (streamText (H := Node.runtime) [helloLine] = joinLines [helloText])
    as Htext' by (vm_compute; reflexivity).
  destruct (unterminated_record_dropped (H := Node.runtime))
    as (Hdrop & Hstep & Hend & _).
  split; [repeat split; assumption|]. split; [|split].
  - exact (proj1 (Hdrop _ _ _ _ Htext Htext' Hls Hr)).
  - apply Hstep; assumption || constructor.
  - apply (Hend lostRun freshWorld
             (openStream (H := Node.runtime) lostRun freshWorld).2
             (js "bob") [(helloLine, 0%Z); (lostRecord, 0%Z)] 0%Z).
    + vm_compute. reflexivity.
    + repeat constructor; discriminate.
Defined.

(** ** Session reuse (claim C7) *)

Section Sessions.
Context `{Runtime}.

Lemma sessionReuse_of (handle : scenario → world → world) :
  (∀ sc w,
     calls (handle sc w) = calls (openStream sc w).2
     ∧ userThreads (handle sc w) = userThreads (openStream sc w).2) →
  sessionReuse handle.
Proof.
  intros Hh. split.
  - intros sc1 sc2 w login h Hu1 Hu2 Hget Hc.
    destruct (Hh sc1 w) as [Hc1 Ht1].
    destruct (openStream_calls_cold sc1 login h w) as [Hoc Hot]; [done..|].
    rewrite Hoc in Hc1. rewrite Hot in Ht1.
    destruct (Hh sc2 (handle sc1 w)) as [-> _].
    destruct (openStream_calls_warm sc2 login h (handle sc1 w)) as [-> _];
      [done| |by eapply createConversation_truthy|].
    + by rewrite Ht1, lookup_insert_eq.
    + rewrite Hc1. by rewrite <- app_assoc.
  - intros sc1 sc2 w login1 login2 Hu1 Hu2 Hne Hget1 Hget2.
    destruct (Hh sc1 w) as [Hc1 Ht1].
    destruct (openStream_creations_cold sc1 login1 w) as [Hn1 Hk1];
      [done..|].
    destruct (Hh sc2 (handle sc1 w)) as [-> _].
    destruct (openStream_creations_cold sc2 login2 (handle sc1 w))
      as [-> _]; [done| |].
    + rewrite Ht1, Hk1 by done. done.
    + rewrite Hc1, Hn1. lia.
Qed.

Lemma handler_storedTruthy (handle : scenario → world → world) sc w :
  userThreads (handle sc w) = userThreads (openStream sc w).2 →
  storedTruthy w → storedTruthy (handle sc w).
Proof.
  intros Ht Hw k v. rewrite Ht. by apply openStream_storedTruthy.
Qed.

End Sessions.

(** C7.  In each revision: of two successive requests of one caller, the
    first of which creates the conversation, only the first sends a
    creation request and both open their run on the thread it returned;
    two requests of two callers send two creation requests.  On the warm
    path [resolve] returns the stored thread id, sends nothing and
    leaves the world as it is; that every stored id is truthy holds
    before the first request and after every request. *)
Theorem session_reuse `{Runtime} :
  (sessionReuse Part001.handle ∧ sessionReuse Part000.handle
   ∧ sessionReuse Fis.handle)
  ∧ (∀ sc login h w,
       storedTruthy w → userThreads w !! login = Some h →
       resolve sc login w = (Normal h, w))
  ∧ storedTruthy freshWorld
  ∧ (∀ sc w,
       storedTruthy w →
       storedTruthy (Part001.handle sc w)
       ∧ storedTruthy (Part000.handle sc w)
       ∧ storedTruthy (Fis.handle sc w)).
Proof.
  split; [|split; [|split]].
  - split; [|split]; apply sessionReuse_of.
    + apply part001_handle_calls.
    + apply part000_handle_calls.
    + apply fis_handle_calls.
  - intros sc login h w Hw Hget. apply resolve_warm; [done|].
    by eapply Hw.
  - intros k v Hk. cbn [freshWorld userThreads] in Hk.
    by rewrite lookup_empty in Hk.
  - intros sc w Hw. split; [|split]; apply handler_storedTruthy; try done.
    + apply part001_handle_calls.
    + apply part000_handle_calls.
    + apply fis_handle_calls.
Qed.

Lemma session_reuse_witness :
  let first := Part001.handle (H := Node.runtime) heartbeatOnly freshWorld in
  (userReply heartbeatOnly = inr (js "bob")
   ∧ userThreads freshWorld !! js "bob" = None
   ∧ createConversation (H := Node.runtime) (threadReply heartbeatOnly)
     = Normal (JStr (js "t1")))
  ∧ calls (Part001.handle (H := Node.runtime) helloRun first)
    = [GetUser; CreateThread; OpenRun (JStr (js "t1")) (js "hi");
       GetUser; OpenRun (JStr (js "t1")) (js "hi")]
  ∧ creations
      (calls (Part001.handle (H := Node.runtime) (aliceAsks []) first)) = 2%nat
  ∧ resolve (H := Node.runtime) helloRun (js "bob") first
    = (Normal (JStr (js "t1")), first).
Proof.
  cbn zeta.
  destruct (session_reuse (H := Node.runtime))
    as ((Hreuse & _ & _) & Hwarm & Hfresh & Hkeep).
  destruct Hreuse as [Hsame Hother].
  split; [repeat split; vm_compute; reflexivity|].
  split; [|split].
  - apply (Hsame heartbeatOnly helloRun freshWorld (js "bob")
             (JStr (js "t1"))); vm_compute; reflexivity.
  - apply (Hother heartbeatOnly (aliceAsks []) freshWorld (js "bob")
             (js "alice")); try (vm_compute; reflexivity).
    discriminate.
  - apply Hwarm.
    + exact (proj1 (Hkeep heartbeatOnly freshWorld Hfresh)).
    + vm_compute. reflexivity.
Defined.

(** ** The reply to the creation request (claim C8) *)

(** The handle is the first field that is truthy, not the first that is
    present: for the body [{'thread_id':'','id':'abc'}] (with double
    quotes) the first field present is [thread_id], with the empty
    string, and the conversation is created with the handle [abc]. *)
Lemma creation_reply_counterexample :
  ∃ threadData,
    @JSON_parse Node.runtime
      (map Byte.to_N (ascii "{'thread_id':'','id':'abc'}"))
    = Some (JObj threadData)
    ∧ firstPresent threadData = Val (JStr [])
    ∧ createConversation (H := Node.runtime)
        (created "{'thread_id':'','id':'abc'}")
      = Normal (JStr (js "abc")).
Proof. eexists. repeat split; vm_compute; reflexivity. Qed.

(** C8.  [createConversation] rejects when the request itself fails,
    when the response is not successful (with the response text in the
    message), when the body is not JSON or is [null], and when none of
    [thread_id], [id], [uuid] has a truthy value; otherwise it returns
    the first truthy value among [thread_id], [id], [uuid], in this
    order. *)
Theorem creation_reply_handling `{Runtime} :
  (∀ e, createConversation (inl e) = Throw e)
  ∧ (∀ r,
       ok r = false →
       createConversation (inr r)
       = Throw (Error (js "Failed to create thread: " ++ text r)))
  ∧ (∀ r,
       ok r = true → JSON_parse (text r) = None →
       createConversation (inr r)
       = Throw (Error (syntaxErrorMessage (text r))))
  ∧ (∀ r,
       ok r = true → JSON_parse (text r) = Some JNull →
       createConversation (inr r)
       = Throw (Error (typeErrorMessage (js "thread_id"))))
  ∧ (∀ r threadData thread_id id uuid,
       ok r = true → JSON_parse (text r) = Some threadData →
       getProp threadData (js "thread_id") = Some thread_id →
       getProp threadData (js "id") = Some id →
       getProp threadData (js "uuid") = Some uuid →
       createConversation (inr r)
       = match firstTruthy [thread_id; id; uuid] with
         | Some h => Normal h
         | None =>
             Throw (Error (js "Thread creation response missing thread_id"))
         end).
Proof.
  repeat split.
  - intros r Hok. unfold createConversation. by rewrite Hok.
  - intros r Hok Hparse. unfold createConversation, responseJson.
    by rewrite Hok, Hparse.
  - intros r Hok Hparse. unfold createConversation, responseJson.
    by rewrite Hok, Hparse.
  - intros r threadData a b c Hok Hparse Ha Hb Hc.
    unfold createConversation, responseJson, handleOf.
    rewrite Hok, Hparse, Ha, Hb, Hc. cbn [negb mbind option_bind].
    unfold jsOr. cbn [firstTruthy].
    destruct a as [|a], b as [|b], c as [|c];
      repeat (cbv beta iota;
              match goal with
              | |- context [truthy Undefined] =>
                  change (truthy Undefined) with false
              | Hv : truthy (Val ?v) = _ |- context [truthy (Val ?v)] =>
                  rewrite Hv
              | |- context [truthy (Val ?v)] =>
                  destruct (truthy (Val v)) eqn:?
              end);
      reflexivity.
Qed.

Lemma creation_reply_handling_witness :
  let r :=
    {| ok := true; status := 200; statusText := js "OK";
       text := map Byte.to_N (ascii "{'thread_id':'','id':'abc'}");
       body := None |} in
  let threadData :=
    JObj [(js "thread_id", JStr []); (js "id", JStr (js "abc"))] in
  (ok r = true
   ∧ @JSON_parse Node.runtime (text r) = Some threadData
   ∧ getProp threadData (js "thread_id") = Some (Val (JStr []))
   ∧ getProp threadData (js "id") = Some (Val (JStr (js "abc")))
   ∧ getProp threadData (js "uuid") = Some Undefined)
  ∧ createConversation (H := Node.runtime) (inr r) = Normal (JStr (js "abc"))
  ∧ createConversation (H := Node.runtime)
      (inr {| ok := false; status := 500; statusText := js "Error";
              text := js "boom"; body := None |})
    = Throw (Error (js "Failed to create thread: " ++ js "boom")).
Proof.
  cbn zeta.
  destruct (creation_reply_handling (H := Node.runtime))
    as (_ & Hfail & _ & _ & Hpick).
  split; [repeat split; vm_compute; reflexivity|]. split.
  - apply (Hpick _ (JObj [(js "thread_id", JStr []);
                          (js "id", JStr (js "abc"))])
             (Val (JStr [])) (Val (JStr (js "abc"))) Undefined);
      vm_compute; reflexivity.
  - by apply Hfail.
Defined.

(** * Further properties of the three revisions *)

(** ** Lines: splitting and joining *)

Lemma cut_lines_noLF s : Forall noLF (cut s).1.
Proof.
  induction s as [|c s IH]; [constructor|].
  cbn [cut]. pose proof (cut_tail_noLF s) as Ht.
  destruct (cut s) as [ls t]. cbn [fst snd] in *.
  destruct (c =? LF) eqn:Hc.
  - cbn [fst]. constructor; [constructor|done].
  - destruct ls as [|l ls]; cbn [fst]; [constructor|].
    inversion IH; subst. constructor; [|done].
    constructor; [|done]. by apply N.eqb_neq.
Qed.

Lemma cut_join s : joinLines (cut s).1 ++ (cut s).2 = s.
Proof.
  induction s as [|c s IH]; [done|].
  cbn [cut]. destruct (cut s) as [ls t]. cbn [fst snd] in *.
  destruct (c =? LF) eqn:Hc.
  - apply N.eqb_eq in Hc. subst c. unfold joinLines in *.
    cbn [flat_map fst snd]. rewrite <- !app_assoc. cbn [app]. by rewrite IH.
  - unfold joinLines in *.
    destruct ls as [|l ls]; cbn [flat_map app fst snd] in *; [by rewrite IH|].
    rewrite <- IH, <- !app_assoc. done.
Qed.

(** X1.  [buffer.split('\n')] followed by [lines.pop()] cuts the buffer
    into its complete lines and the tail after the last line feed, and
    loses nothing: the lines, each with its line feed, followed by the
    tail are the buffer again; no line and no tail holds a line feed;
    and this is the only such decomposition of the buffer. *)
Theorem takeLines_joinLines (buffer : jsstring) :
  joinLines (takeLines buffer).2 ++ (takeLines buffer).1 = buffer
  ∧ Forall noLF (takeLines buffer).2
  ∧ noLF (takeLines buffer).1
  ∧ ∀ lines tail,
      Forall noLF lines → noLF tail → buffer = joinLines lines ++ tail →
      takeLines buffer = (tail, lines).
Proof.
  rewrite takeLines_cut. cbn [fst snd].
  split; [apply cut_join|]. split; [apply cut_lines_noLF|].
  split; [apply cut_tail_noLF|].
  intros lines tail Hlines Htail ->. by rewrite cut_joinLines.
Qed.

Lemma takeLines_joinLines_witness :
  takeLines (js "a" ++ [LF] ++ js "bc") = (js "bc", [js "a"]).
Proof.
  apply (takeLines_joinLines (js "a" ++ [LF] ++ js "bc")).
  - repeat constructor; discriminate.
  - repeat constructor; discriminate.
  - reflexivity.
Defined.

(** ** The variables of the read loop while the chunks arrive *)

Section Invariant.
Context `{Runtime}.

Lemma pending_cons feed b t ts :
  pending feed b (t :: ts) = pending feed (feed b t).1 ts.
Proof. done. Qed.

Lemma pending_cut (feed : jsstring → jsstring → jsstring * list json) :
  (∀ b t, (feed b t).1 = (cut (b ++ t)).2) →
  ∀ ts b, noLF b → pending feed b ts = (cut (b ++ concat ts)).2.
Proof.
  intros Hfeed ts. induction ts as [|t ts IH]; intros b Hb.
  { cbn. by rewrite app_nil_r, cut_noLF. }
  rewrite pending_cons. cbn [concat]. rewrite IH, Hfeed.
  - by rewrite (app_assoc b), (cut_app (b ++ t)).
  - rewrite Hfeed. apply cut_tail_noLF.
Qed.

Lemma pending_app feed b ts1 ts2 :
  pending feed b (ts1 ++ ts2) = pending feed (pending feed b ts1) ts2.
Proof. apply fold_left_app. Qed.

Lemma part001_feedAll_app ts1 ts2 b :
  Part001.feedAll b (ts1 ++ ts2) =
    Part001.feedAll b ts1
    ++ Part001.feedAll (pending Part001.feed b ts1) ts2.
Proof.
  revert b. induction ts1 as [|t ts1 IH]; intros b; [done|].
  rewrite <- app_comm_cons, !part001_feedAll_cons, IH, pending_cons.
  by rewrite app_assoc.
Qed.

Lemma part000_feedAll_app ts1 ts2 b :
  Part000.feedAll b (ts1 ++ ts2) =
    Part000.feedAll b ts1
    ++ Part000.feedAll (pending Part000.feed b ts1) ts2.
Proof.
  revert b. induction ts1 as [|t ts1 IH]; intros b; [done|].
  rewrite <- app_comm_cons, !part000_feedAll_cons, IH, pending_cons.
  by rewrite app_assoc.
Qed.

Lemma fis_feedAll_app ts1 ts2 b :
  Fis.feedAll b (ts1 ++ ts2) =
    Fis.feedAll b ts1 ++ Fis.feedAll (pending Fis.feed b ts1) ts2.
Proof.
  revert b. induction ts1 as [|t ts1 IH]; intros b; [done|].
  rewrite <- app_comm_cons, !fis_feedAll_cons, IH, pending_cons.
  by rewrite app_assoc.
Qed.

Lemma lastArrival_cons start v t chunks :
  lastArrival start ((v, t) :: chunks) = lastArrival t chunks.
Proof.
  unfold lastArrival. cbn [fmap list_fmap snd].
  destruct chunks as [|c chunks]; [done|].
  cbn [fmap list_fmap]. rewrite last_cons.
  by destruct (last _).
Qed.

(** The read loop of [part_001] over reads that carry data, whatever
    follows them. *)
Lemma part001_readLoop_chunks chunks rest s w :
  Forall (fun c => c.1 ≠ []) chunks →
  let fragments :=
    Part001.feedAll (Part001.buffer s)
      (decodeChunks (Part001.decoder s) chunks.*1) in
  Part001.readLoop (dataReads chunks ++ rest) s w =
    Part001.readLoop rest
      {| Part001.decoder := (decode (Part001.decoder s) (concat chunks.*1)).1;
         Part001.buffer :=
           pending Part001.feed (Part001.buffer s)
             (decodeChunks (Part001.decoder s) chunks.*1);
         Part001.hasValidContent :=
           Part001.hasValidContent s || negb (bool_decide (fragments = []));
         Part001.consecutiveEmptyReads :=
           match chunks with
           | [] => Part001.consecutiveEmptyReads s
           | _ => 0%nat
           end;
         Part001.lastActivityTime :=
           lastArrival (Part001.lastActivityTime s) chunks |}
      (emit w (Text <$> fragments)).
Proof.
  intros Hne. revert s w.
  induction Hne as [|[v t] chunks Hv _ IH]; intros s w.
  { cbn. rewrite emit_nil, orb_false_r. by destruct s. }
  cbn zeta in *.
  cbn [dataReads map app fst snd fmap list_fmap concat] in *.
  rewrite part001_readLoop_data by done. cbn zeta.
  rewrite IH.
  cbn [Part001.buffer Part001.decoder Part001.hasValidContent
       Part001.consecutiveEmptyReads Part001.lastActivityTime].
  rewrite decodeChunks_cons, part001_feedAll_cons, pending_cons.
  rewrite emit_emit, fmap_app, nonempty_fragments, orb_assoc.
  rewrite lastArrival_cons, decode_app. cbn [fst].
  by destruct chunks.
Qed.

(** The same for [part_000] ... *)
Lemma part000_readLoop_chunks chunks rest s w :
  let fragments :=
    Part000.feedAll (Part000.buffer s)
      (decodeChunks (Part000.decoder s) chunks.*1) in
  Part000.readLoop (dataReads chunks ++ rest) s w =
    Part000.readLoop rest
      {| Part000.decoder := (decode (Part000.decoder s) (concat chunks.*1)).1;
         Part000.buffer :=
           pending Part000.feed (Part000.buffer s)
             (decodeChunks (Part000.decoder s) chunks.*1);
         Part000.hasValidContent :=
           Part000.hasValidContent s || negb (bool_decide (fragments = [])) |}
      (emit w (Text <$> fragments)).
Proof.
  revert s w. induction chunks as [|[v t] chunks IH]; intros s w.
  { cbn. rewrite emit_nil, orb_false_r. by destruct s. }
  cbn zeta in *.
  cbn [dataReads map app fst snd fmap list_fmap concat] in *.
  rewrite part000_readLoop_data. cbn zeta.
  rewrite IH.
  cbn [Part000.buffer Part000.decoder Part000.hasValidContent].
  rewrite decodeChunks_cons, part000_feedAll_cons, pending_cons.
  rewrite emit_emit, fmap_app, nonempty_fragments, orb_assoc.
  by rewrite decode_app.
Qed.

(** ... and for [fis.ts]. *)
Lemma fis_readLoop_chunks chunks rest s w :
  Fis.readLoop (dataReads chunks ++ rest) s w =
    Fis.readLoop rest
      {| Fis.decoder := (decode (Fis.decoder s) (concat chunks.*1)).1;
         Fis.buffer :=
           pending Fis.feed (Fis.buffer s)
             (decodeChunks (Fis.decoder s) chunks.*1) |}
      (emit w (Text <$> Fis.feedAll (Fis.buffer s)
                 (decodeChunks (Fis.decoder s) chunks.*1))).
Proof.
  revert s w. induction chunks as [|[v t] chunks IH]; intros s w.
  { cbn. rewrite emit_nil. by destruct s. }
  cbn [dataReads map app fst snd fmap list_fmap concat] in *.
  rewrite fis_readLoop_data. cbn zeta.
  rewrite IH.
  cbn [Fis.buffer Fis.decoder].
  rewrite decodeChunks_cons, fis_feedAll_cons, pending_cons.
  rewrite emit_emit, fmap_app.
  by rewrite decode_app.
Qed.

Lemma pending_stream feed chunks :
  (∀ b t, (feed b t).1 = (cut (b ++ t)).2) →
  pending feed [] (decodeChunks newTextDecoder chunks)
  = (takeLines (streamText chunks)).1.
Proof.
  intros Hfeed. rewrite pending_cut by (done || constructor).
  by rewrite takeLines_cut, decodeChunks_concat.
Qed.

End Invariant.

(** X2.  The invariant of the three read loops.  When the loop has taken
    the reads that carry the chunks of a stream, it has written exactly
    the fragments of these chunks, its [buffer] holds the text after the
    last line feed received so far, and (where the revision has them)
    [hasValidContent] tells whether a fragment was written and
    [lastActivityTime] is the arrival of the last chunk; it goes on with
    the reads that follow from this state.  For [part_001] the chunks
    are not empty: an empty chunk counts as an empty read there. *)
Theorem read_loop_invariant `{Runtime} (chunks : list (Uint8Array * Z))
    (rest : list readResult) (start : Z) (w : world) :
  (Forall (fun c => c.1 ≠ []) chunks →
   ∃ s,
     Part001.readLoop (dataReads chunks ++ rest)
       {| Part001.decoder := newTextDecoder; Part001.buffer := [];
          Part001.hasValidContent := false;
          Part001.consecutiveEmptyReads := 0;
          Part001.lastActivityTime := start |} w
     = Part001.readLoop rest s
         (emit w (Text <$> Part001.reassemble chunks.*1))
     ∧ Part001.buffer s = (takeLines (streamText chunks.*1)).1
     ∧ Part001.hasValidContent s
       = negb (bool_decide (Part001.reassemble chunks.*1 = []))
     ∧ Part001.consecutiveEmptyReads s = 0%nat
     ∧ Part001.lastActivityTime s = lastArrival start chunks)
  ∧ (∃ s,
       Part000.readLoop (dataReads chunks ++ rest)
         {| Part000.decoder := newTextDecoder; Part000.buffer := [];
            Part000.hasValidContent := false |} w
       = Part000.readLoop rest s
           (emit w (Text <$> Part000.reassemble chunks.*1))
       ∧ Part000.buffer s = (takeLines (streamText chunks.*1)).1
       ∧ Part000.hasValidContent s
         = negb (bool_decide (Part000.reassemble chunks.*1 = [])))
  ∧ (∃ s,
       Fis.readLoop (dataReads chunks ++ rest)
         {| Fis.decoder := newTextDecoder; Fis.buffer := [] |} w
       = Fis.readLoop rest s (emit w (Text <$> Fis.reassemble chunks.*1))
       ∧ Fis.buffer s = (takeLines (streamText chunks.*1)).1).
Proof.
  split; [|split].
  - intros Hne. eexists. split; [by apply part001_readLoop_chunks|].
    cbn [Part001.buffer Part001.decoder Part001.hasValidContent
         Part001.consecutiveEmptyReads Part001.lastActivityTime orb].
    split; [|split; [done|split; [by destruct chunks|done]]].
    apply pending_stream. intros b t. by rewrite part001_feed_cut.
  - eexists. split; [by apply part000_readLoop_chunks|].
    cbn [Part000.buffer Part000.decoder Part000.hasValidContent orb].
    split; [|done].
    apply pending_stream. intros b t. by rewrite part000_feed_cut.
  - eexists. split; [by apply fis_readLoop_chunks|].
    cbn [Fis.buffer Fis.decoder].
    apply pending_stream. intros b t. by rewrite fis_feed_cut.
Qed.

Lemma read_loop_invariant_witness :
  ∃ s,
    Part001.readLoop (H := Node.runtime)
      (dataReads [(helloLine, 5%Z); (lostRecord, 7%Z)] ++ [])
      {| Part001.decoder := newTextDecoder; Part001.buffer := [];
         Part001.hasValidContent := false;
         Part001.consecutiveEmptyReads := 0;
         Part001.lastActivityTime := 0 |} freshWorld
    = Part001.readLoop (H := Node.runtime) [] s
        (emit freshWorld
           (Text <$> Part001.reassemble (H := Node.runtime)
                       [(helloLine, 5%Z); (lostRecord, 7%Z)].*1))
    ∧ Part001.buffer s
      = (takeLines (streamText (H := Node.runtime)
                      [(helloLine, 5%Z); (lostRecord, 7%Z)].*1)).1
    ∧ Part001.hasValidContent s
      = negb (bool_decide (Part001.reassemble (H := Node.runtime)
                             [(helloLine, 5%Z); (lostRecord, 7%Z)].*1 = []))
    ∧ Part001.consecutiveEmptyReads s = 0%nat
    ∧ Part001.lastActivityTime s
      = lastArrival 0 [(helloLine, 5%Z); (lostRecord, 7%Z)].
Proof.
  apply (proj1 (read_loop_invariant (H := Node.runtime)
                  [(helloLine, 5%Z); (lostRecord, 7%Z)] [] 0 freshWorld)).
  repeat constructor; discriminate.
Defined.

(** X3.  The fragments already forwarded are never revised: the
    fragments of the first chunks of a stream are the first fragments of
    the whole stream, in the three revisions. *)
Theorem fragments_extend `{Runtime} (chunks more : list Uint8Array) :
  Part001.reassemble chunks `prefix_of` Part001.reassemble (chunks ++ more)
  ∧ Part000.reassemble chunks `prefix_of` Part000.reassemble (chunks ++ more)
  ∧ Fis.reassemble chunks `prefix_of` Fis.reassemble (chunks ++ more).
Proof.
  unfold Part001.reassemble, Part000.reassemble, Fis.reassemble.
  rewrite decodeChunks_app.
  rewrite part001_feedAll_app, part000_feedAll_app, fis_feedAll_app.
  repeat split; apply prefix_app_r; done.
Qed.

(** ** The filter on records and message entries *)

Lemma event_line_not_data (t : jsstring) :
  startsWith t (js "event: values") = true →
  startsWith t (js "data: {") = false.
Proof.
  intros Hev. destruct t as [|c t]; [done|].
  change (js "event: values") with (101 :: js "vent: values") in Hev.
  change (js "data: {") with (100 :: js "ata: {").
  cbn [startsWith] in *.
  apply andb_true_iff in Hev as [Hc%N.eqb_eq _]. by subst c.
Qed.

(** X4.  In [fis.ts] the branch for lines that begin with
    [event: values] (lines 146-169) never writes: such a line cannot
    begin with [data: ] as well, so the branch always ends at its
    [continue].  One iteration over a line is the [data: {] branch
    (lines 170-187) alone. *)
Theorem fis_event_branch_dead `{Runtime} (buffer line : jsstring) :
  Fis.processLine buffer line =
    if startsWith (trim line) (js "data: {") && (length buffer <? 4096)%nat
    then match JSON_parse (slice 6 (trim line)) with
         | Some eventObj => Fis.processEvent eventObj
         | None => []
         end
    else [].
Proof.
  destruct (startsWith (trim line) (js "event: values")) eqn:Hev.
  - rewrite fis_event_line by done.
    by rewrite (event_line_not_data _ Hev).
  - unfold Fis.processLine. cbn zeta. by rewrite Hev.
Qed.

Section Filter.
Context `{Runtime}.

Lemma messageFields_null msg :
  messageFields msg = None ↔ msg = JNull.
Proof.
  split; [|by intros ->].
  destruct msg; done.
Qed.

Lemma forOf_elem (body : json → option (list json)) msgs j :
  j ∈ (forOf body msgs).1 → ∃ msg w, msg ∈ msgs ∧ body msg = Some w ∧ j ∈ w.
Proof.
  induction msgs as [|m msgs IH]; cbn [forOf].
  { by intros ?%elem_of_nil. }
  destruct (body m) as [w|] eqn:Hm; [|by intros ?%elem_of_nil].
  destruct (forOf body msgs) as [w' completed]. cbn [fst] in *.
  intros [Hj|Hj]%elem_of_app.
  - exists m, w. split; [left|done].
  - destruct (IH Hj) as (msg & w0 & Hin & Hb & Hw).
    exists msg, w0. split; [by right|done].
Qed.

Lemma strictEqStr_true v s : strictEqStr v s = true → v = Val (JStr s).
Proof.
  destruct v as [|[]]; try done. cbn.
  by intros ->%bool_decide_eq_true.
Qed.

Lemma nonBlankString_text c :
  nonBlankString c = true → ∃ s, c = Val (JStr s) ∧ trim s ≠ [].
Proof.
  destruct c as [|[]]; try done. cbn.
  intros Ht%negb_true_iff%bool_decide_eq_false. eauto.
Qed.

Lemma isArray_elements v :
  isArray v = true → v = Val (JArr (elementsOf v)).
Proof. by destruct v as [|[]]. Qed.

Lemma part000_messageBody_elem msg w j :
  Part000.messageBody msg = Some w → j ∈ w →
  ∃ tc, messageFields msg = Some (Val (JStr (js "ai")), Val j, tc)
        ∧ noToolCalls tc = true ∧ nonBlankText j.
Proof.
  unfold Part000.messageBody.
  destruct (messageFields msg) as [[[ty content] tc]|]; [|done].
  cbn [mbind option_bind].
  destruct (strictEqStr ty (js "ai")) eqn:Hty;
    [|by intros [= <-] ?%elem_of_nil].
  destruct (truthy content);
    [|by intros [= <-] ?%elem_of_nil].
  destruct (nonBlankString content) eqn:Hc;
    [|by intros [= <-] ?%elem_of_nil].
  destruct (noToolCalls tc) eqn:Htc;
    [|by intros [= <-] ?%elem_of_nil].
  cbn [andb]. intros [= <-] Hj.
  apply strictEqStr_true in Hty as ->.
  apply nonBlankString_text in Hc as (s & -> & Hs).
  apply list_elem_of_singleton in Hj as ->.
  exists tc. repeat split; [done|]. by exists s.
Qed.

Lemma part001_messageBody_part000 msg :
  Part001.messageBody msg = Part000.messageBody msg.
Proof. done. Qed.

Lemma fis_messageBody_elem msg w j :
  Fis.messageBody msg = Some w → j ∈ w →
  ∃ tc, messageFields msg = Some (Val (JStr (js "ai")), Val j, tc)
        ∧ noToolCalls tc = true ∧ truthy (Val j) = true.
Proof.
  unfold Fis.messageBody.
  destruct (messageFields msg) as [[[ty content] tc]|]; [|done].
  cbn [mbind option_bind].
  destruct (strictEqStr ty (js "ai")) eqn:Hty;
    [|by intros [= <-] ?%elem_of_nil].
  destruct (truthy content) eqn:Hc;
    [|by intros [= <-] ?%elem_of_nil].
  destruct (noToolCalls tc) eqn:Htc;
    [|by intros [= <-] ?%elem_of_nil].
  cbn [andb]. intros [= <-] Hj.
  apply strictEqStr_true in Hty as ->.
  destruct content as [|c]; [done|].
  apply list_elem_of_singleton in Hj as ->.
  exists tc. done.
Qed.

(** The characters of a string have no [type]. *)
Lemma fis_characters s :
  (forOf Fis.messageBody (map (fun c => JStr [c]) s)).1 = [].
Proof.
  induction s as [|c s IH]; [done|].
  cbn [map forOf].
  change (Fis.messageBody (JStr [c])) with (Some (@nil json)).
  by destruct (forOf _ _).
Qed.

Lemma part000_processEvent_elem eventObj j :
  j ∈ Part000.processEvent eventObj →
  ∃ msgs msg tc,
    getProp eventObj (js "messages") = Some (Val (JArr msgs))
    ∧ msg ∈ msgs
    ∧ messageFields msg = Some (Val (JStr (js "ai")), Val j, tc)
    ∧ noToolCalls tc = true ∧ nonBlankText j.
Proof.
  unfold Part000.processEvent.
  destruct (getProp eventObj (js "messages")) as [messages|];
    [|by intros ?%elem_of_nil].
  destruct (truthy messages); [|by intros ?%elem_of_nil].
  destruct (isArray messages) eqn:Harr; [|by intros ?%elem_of_nil].
  cbn [andb]. intros (msg & w & Hin & Hb & Hj)%forOf_elem.
  destruct (part000_messageBody_elem msg w j Hb Hj) as (tc & Hf & Htc & Hs).
  exists (elementsOf messages), msg, tc.
  by rewrite <- isArray_elements.
Qed.

Lemma fis_processEvent_elem eventObj j :
  j ∈ Fis.processEvent eventObj →
  ∃ msgs msg tc,
    getProp eventObj (js "messages") = Some (Val (JArr msgs))
    ∧ msg ∈ msgs
    ∧ messageFields msg = Some (Val (JStr (js "ai")), Val j, tc)
    ∧ noToolCalls tc = true ∧ truthy (Val j) = true.
Proof.
  unfold Fis.processEvent.
  destruct (getProp eventObj (js "messages")) as [messages|];
    [|by intros ?%elem_of_nil].
  destruct messages as [|[]]; cbn [Fis.iterate fst forOf];
    try by intros ?%elem_of_nil.
  - rewrite fis_characters. by intros ?%elem_of_nil.
  - intros (msg & w & Hin & Hb & Hj)%forOf_elem.
    destruct (fis_messageBody_elem msg w j Hb Hj) as (tc & Hf & Htc & Hs).
    by exists elements, msg, tc.
Qed.

Lemma part001_processEvent_elem eventObj j :
  j ∈ Part001.processEvent eventObj →
  (∃ msgs msg tc,
     getProp eventObj (js "messages") = Some (Val (JArr msgs))
     ∧ msg ∈ msgs
     ∧ messageFields msg = Some (Val (JStr (js "ai")), Val j, tc)
     ∧ noToolCalls tc = true ∧ nonBlankText j)
  ∨ (getProp eventObj (js "content") = Some (Val j) ∧ nonEmptyText j).
Proof.
  unfold Part001.processEvent.
  destruct (getProp eventObj (js "messages")) as [messages|];
    [|by intros ?%elem_of_nil].
  assert (∀ w completed,
            (if truthy messages && isArray messages
             then forOf Part001.messageBody (elementsOf messages)
             else ([], true)) = (w, completed) →
            j ∈ w →
            ∃ msgs msg tc,
              Some messages = Some (Val (JArr msgs))
              ∧ msg ∈ msgs
              ∧ messageFields msg = Some (Val (JStr (js "ai")), Val j, tc)
              ∧ noToolCalls tc = true ∧ nonBlankText j) as Hentries.
  { intros w completed Hw Hj.
    destruct (truthy messages); [|by inversion Hw; subst; apply elem_of_nil in Hj].
    destruct (isArray messages) eqn:Harr;
      [|by inversion Hw; subst; apply elem_of_nil in Hj].
    cbn [andb] in Hw.
    assert (j ∈ (forOf Part001.messageBody (elementsOf messages)).1) as Hj'
      by by rewrite Hw.
    apply forOf_elem in Hj' as (msg & w0 & Hin & Hb & Hj').
    rewrite part001_messageBody_part000 in Hb.
    destruct (part000_messageBody_elem msg w0 j Hb Hj') as (tc & Hf & Htc & Hs).
    exists (elementsOf messages), msg, tc.
    by rewrite <- isArray_elements. }
  destruct (if truthy messages && isArray messages then _ else _)
    as [w completed] eqn:Hw.
  destruct completed; [|by left; eapply Hentries].
  destruct (getProp eventObj (js "content")) as [content|];
    [|by left; eapply Hentries].
  intros [Hj|Hj]%elem_of_app; [by left; eapply Hentries|]. right.
  destruct (truthy content && isString content) eqn:Hc;
    [|by apply elem_of_nil in Hj].
  apply andb_true_iff in Hc as [Ht Hs].
  destruct content as [|[ |b|m e|s|l|fs]]; try done.
  apply list_elem_of_singleton in Hj as ->. split; [done|].
  exists s. split; [done|].
  by apply negb_true_iff, bool_decide_eq_false in Ht.
Qed.

Lemma forOf_null (body : json → option (list json)) before after :
  (∀ msg, body msg = None ↔ msg = JNull) →
  JNull ∉ before →
  forOf body (before ++ JNull :: after) = ((forOf body before).1, false)
  ∧ (forOf body before).2 = true.
Proof.
  intros Hbody. induction before as [|m before IH]; intros Hnot.
  { cbn [app forOf]. by rewrite (proj2 (Hbody JNull)). }
  cbn [app forOf].
  destruct (body m) as [w|] eqn:Hm.
  - destruct IH as [-> Hc]; [by intros ?; apply Hnot; right|].
    destruct (forOf body before) as [w' c]. cbn [fst snd] in *. by subst c.
  - apply Hbody in Hm. subst m. exfalso. apply Hnot. left.
Qed.

Lemma part001_messageBody_null msg :
  Part001.messageBody msg = None ↔ msg = JNull.
Proof.
  rewrite <- messageFields_null. unfold Part001.messageBody.
  by destruct (messageFields msg) as [[[ty content] tc]|].
Qed.

Lemma part000_messageBody_null msg :
  Part000.messageBody msg = None ↔ msg = JNull.
Proof.
  rewrite <- messageFields_null. unfold Part000.messageBody.
  by destruct (messageFields msg) as [[[ty content] tc]|].
Qed.

Lemma fis_messageBody_null msg :
  Fis.messageBody msg = None ↔ msg = JNull.
Proof.
  rewrite <- messageFields_null. unfold Fis.messageBody.
  by destruct (messageFields msg) as [[[ty content] tc]|].
Qed.

End Filter.

(** X5.  Where a fragment comes from.  Every fragment a decoded record
    yields is the [content], unchanged, of an entry of the record's
    [messages] array whose [type] is the string [ai] and whose
    [tool_calls] is missing, falsy or empty; in [part_000] and
    [part_001] it is a string with a character that is not white space,
    in [fis.ts] any truthy value.  In [part_001] a fragment may instead
    be the [content] of the record itself, a string that is not
    empty. *)
Theorem fragment_provenance (eventObj j : json) :
  (j ∈ Part000.processEvent eventObj →
   ∃ msgs msg tc,
     getProp eventObj (js "messages") = Some (Val (JArr msgs))
     ∧ msg ∈ msgs
     ∧ messageFields msg = Some (Val (JStr (js "ai")), Val j, tc)
     ∧ noToolCalls tc = true ∧ nonBlankText j)
  ∧ (j ∈ Fis.processEvent eventObj →
     ∃ msgs msg tc,
       getProp eventObj (js "messages") = Some (Val (JArr msgs))
       ∧ msg ∈ msgs
       ∧ messageFields msg = Some (Val (JStr (js "ai")), Val j, tc)
       ∧ noToolCalls tc = true ∧ truthy (Val j) = true)
  ∧ (j ∈ Part001.processEvent eventObj →
     (∃ msgs msg tc,
        getProp eventObj (js "messages") = Some (Val (JArr msgs))
        ∧ msg ∈ msgs
        ∧ messageFields msg = Some (Val (JStr (js "ai")), Val j, tc)
        ∧ noToolCalls tc = true ∧ nonBlankText j)
     ∨ (getProp eventObj (js "content") = Some (Val j) ∧ nonEmptyText j)).
Proof.
  split; [apply part000_processEvent_elem|].
  split; [apply fis_processEvent_elem|apply part001_processEvent_elem].
Qed.

Lemma fragment_provenance_witness :
  let answer :=
    JObj [(js "type", JStr (js "ai")); (js "content", JStr (js "Hi"))] in
  let eventObj := JObj [(js "messages", JArr [JObj []; answer])] in
  (∃ msgs msg tc,
     getProp eventObj (js "messages") = Some (Val (JArr msgs))
     ∧ msg ∈ msgs
     ∧ messageFields msg
       = Some (Val (JStr (js "ai")), Val (JStr (js "Hi")), tc)
     ∧ noToolCalls tc = true ∧ nonBlankText (JStr (js "Hi")))
  ∧ (∃ msgs msg tc,
       getProp eventObj (js "messages") = Some (Val (JArr msgs))
       ∧ msg ∈ msgs
       ∧ messageFields msg
         = Some (Val (JStr (js "ai")), Val (JStr (js "Hi")), tc)
       ∧ noToolCalls tc = true ∧ truthy (Val (JStr (js "Hi"))) = true)
  ∧ ((∃ msgs msg tc,
        getProp eventObj (js "messages") = Some (Val (JArr msgs))
        ∧ msg ∈ msgs
        ∧ messageFields msg
          = Some (Val (JStr (js "ai")), Val (JStr (js "Hi")), tc)
        ∧ noToolCalls tc = true ∧ nonBlankText (JStr (js "Hi")))
     ∨ (getProp eventObj (js "content") = Some (Val (JStr (js "Hi")))
        ∧ nonEmptyText (JStr (js "Hi")))).
Proof.
  intros answer eventObj.
  destruct (fragment_provenance eventObj (JStr (js "Hi")))
    as (H0 & Hfis & H1).
  split; [|split].
  - apply H0. apply list_elem_of_here.
  - apply Hfis. apply list_elem_of_here.
  - apply H1. apply list_elem_of_here.
Defined.

(** X6.  A [null] among the entries of [messages] ends the record: the
    read of [msg.type] throws, the [catch] of the line takes it, and the
    record yields what the entries before the [null] yielded.  The
    entries after it are not looked at, and in [part_001] neither is the
    [content] of the record itself. *)
Theorem null_entry_ends_record (eventObj : json) (before after : list json) :
  getProp eventObj (js "messages")
  = Some (Val (JArr (before ++ JNull :: after))) →
  JNull ∉ before →
  Part001.processEvent eventObj
  = Part001.processEvent (JObj [(js "messages", JArr before)])
  ∧ Part000.processEvent eventObj
    = Part000.processEvent (JObj [(js "messages", JArr before)])
  ∧ Fis.processEvent eventObj
    = Fis.processEvent (JObj [(js "messages", JArr before)]).
Proof.
  intros Hm Hnot.
  unfold Part001.processEvent, Part000.processEvent, Fis.processEvent.
  rewrite Hm.
  change (getProp (JObj [(js "messages", JArr before)]) (js "messages"))
    with (Some (Val (JArr before))).
  change (getProp (JObj [(js "messages", JArr before)]) (js "content"))
    with (Some Undefined).
  cbn [truthy isArray elementsOf andb Fis.iterate isString fragmentOf].
  destruct (forOf_null _ before after part001_messageBody_null Hnot)
    as [-> H1].
  destruct (forOf_null _ before after part000_messageBody_null Hnot)
    as [-> _].
  destruct (forOf_null _ before after fis_messageBody_null Hnot)
    as [-> _].
  destruct (forOf Part001.messageBody before) as [w c].
  cbn [fst snd] in *. subst c. by rewrite app_nil_r.
Qed.

Lemma null_entry_ends_record_witness :
  let answer :=
    JObj [(js "type", JStr (js "ai")); (js "content", JStr (js "Hi"))] in
  let eventObj :=
    JObj [(js "messages", JArr [answer; JNull; answer]);
          (js "content", JStr (js "more"))] in
  Part001.processEvent eventObj
  = Part001.processEvent (JObj [(js "messages", JArr [answer])])
  ∧ Part000.processEvent eventObj
    = Part000.processEvent (JObj [(js "messages", JArr [answer])])
  ∧ Fis.processEvent eventObj
    = Fis.processEvent (JObj [(js "messages", JArr [answer])]).
Proof.
  intros answer eventObj.
  apply (null_entry_ends_record eventObj [answer] [answer]).
  - reflexivity.
  - intros Hin. apply list_elem_of_singleton in Hin. discriminate.
Defined.

(** ** The events a request can write *)

Section Events.
Context `{Runtime}.

Lemma writesOnly_ret {A} P (a : A) : writesOnly P (ret a).
Proof. intros w. exists []. by rewrite app_nil_r. Qed.

Lemma writesOnly_throw {A} P e : writesOnly P (@throw A e).
Proof. intros w. exists []. by rewrite app_nil_r. Qed.

Lemma writesOnly_bind {A B} P (m : M A) (k : A → M B) :
  writesOnly P m → (∀ a, writesOnly P (k a)) → writesOnly P (bind m k).
Proof.
  intros Hm Hk w. unfold bind.
  destruct (Hm w) as (es1 & Hs1 & H1).
  destruct (m w) as [[a|e] w1]; simpl in *; [|by eauto].
  destruct (Hk a w1) as (es2 & Hs2 & H2).
  exists (es1 ++ es2). rewrite Hs2, Hs1, app_assoc.
  split; [done|by apply Forall_app].
Qed.

Lemma writesOnly_writeAll P es : Forall P es → writesOnly P (writeAll es).
Proof. intros Hes w. by exists es. Qed.

Lemma writesOnly_write P e : P e → writesOnly P (write e).
Proof. intros He w. exists [e]. split; [done|by constructor]. Qed.

Lemma writesOnly_if {A} P (b : bool) (m1 m2 : M A) :
  writesOnly P m1 → writesOnly P m2 → writesOnly P (if b then m1 else m2).
Proof. by destruct b. Qed.

Lemma nonBlank_nonEmpty j : nonBlankText j → nonEmptyText j.
Proof. intros (s & -> & Hs). exists s. split; [done|]. by intros ->. Qed.

Lemma part000_processLine_text l : Forall nonBlankText (Part000.processLine l).
Proof.
  unfold Part000.processLine. cbn zeta.
  destruct (startsWith _ _); [|constructor].
  destruct (JSON_parse _) as [eventObj|]; [|constructor].
  apply Forall_forall. intros j Hj.
  by destruct (part000_processEvent_elem eventObj j Hj)
    as (? & ? & ? & ? & ? & ? & ? & ?).
Qed.

Lemma part001_processLine_text l : Forall nonEmptyText (Part001.processLine l).
Proof.
  unfold Part001.processLine. cbn zeta.
  destruct (bool_decide _); [constructor|].
  destruct (startsWith _ _); [|constructor].
  destruct (_ || _); [constructor|].
  destruct (startsWith _ _); [|constructor].
  destruct (JSON_parse _) as [eventObj|]; [|constructor].
  apply Forall_forall. intros j Hj.
  destruct (part001_processEvent_elem eventObj j Hj)
    as [(? & ? & ? & ? & ? & ? & ? & ?)|[_ ?]];
    [by apply nonBlank_nonEmpty|done].
Qed.

Lemma fis_processLine_truthy b l :
  Forall (fun j => truthy (Val j) = true) (Fis.processLine b l).
Proof.
  destruct (startsWith (trim l) (js "event: values")) eqn:Hev;
    [rewrite fis_event_line by done; constructor|].
  unfold Fis.processLine. cbn zeta. rewrite Hev.
  destruct (_ && _); [|constructor].
  destruct (JSON_parse _) as [eventObj|]; [|constructor].
  apply Forall_forall. intros j Hj.
  by destruct (fis_processEvent_elem eventObj j Hj)
    as (? & ? & ? & ? & ? & ? & ? & ?).
Qed.

Lemma Forall_flat_map {A B} (P : B → Prop) (g : A → list B) ls :
  (∀ l, Forall P (g l)) → Forall P (flat_map g ls).
Proof.
  intros Hg. induction ls as [|l ls IH]; [constructor|].
  cbn [flat_map]. by apply Forall_app.
Qed.

Lemma part001_feed_text b t :
  Forall (wellFormed nonEmptyText) (Text <$> (Part001.feed b t).2).
Proof.
  rewrite part001_feed_cut. cbn [snd]. apply Forall_fmap.
  apply Forall_flat_map, part001_processLine_text.
Qed.

Lemma part000_feed_text b t :
  Forall (wellFormed nonEmptyText) (Text <$> (Part000.feed b t).2).
Proof.
  rewrite part000_feed_cut. cbn [snd]. apply Forall_fmap.
  apply Forall_flat_map. intros l.
  eapply Forall_impl; [apply part000_processLine_text|].
  apply nonBlank_nonEmpty.
Qed.

Lemma fis_feed_truthy b t :
  Forall (wellFormed (fun c => truthy (Val c) = true))
    (Text <$> (Fis.feed b t).2).
Proof.
  rewrite fis_feed_cut. cbn [snd]. apply Forall_fmap.
  apply Forall_flat_map, fis_processLine_truthy.
Qed.

Lemma writesOnly_part001_readLoop reads s :
  writesOnly (wellFormed nonEmptyText) (Part001.readLoop reads s).
Proof.
  revert s. induction reads as [|[value done now|e] reads IH]; intros s;
    cbn [Part001.readLoop]; try apply writesOnly_ret.
  destruct done; [apply writesOnly_ret|].
  destruct (Part001.noData value).
  - apply writesOnly_bind.
    + apply writesOnly_if; [|apply writesOnly_ret].
      apply writesOnly_write. by eexists.
    + intros _. apply writesOnly_if; [apply writesOnly_ret|apply IH].
  - destruct (decode _ _) as [d1 chunk].
    pose proof (part001_feed_text (Part001.buffer s) chunk) as Hf.
    destruct (Part001.feed _ _) as [b1 f1].
    apply writesOnly_bind; [by apply writesOnly_writeAll|].
    intros _. apply IH.
Qed.

Lemma writesOnly_part000_readLoop reads s :
  writesOnly (wellFormed nonEmptyText) (Part000.readLoop reads s).
Proof.
  revert s. induction reads as [|[value done now|e] reads IH]; intros s;
    cbn [Part000.readLoop]; try apply writesOnly_throw.
  destruct (_ && _); [apply writesOnly_throw|].
  apply writesOnly_bind.
  - destruct value as [bytes|]; cbn [Part000.consume];
      [|apply writesOnly_ret].
    destruct (decode _ _) as [d1 chunk].
    pose proof (part000_feed_text (Part000.buffer s) chunk) as Hf.
    destruct (Part000.feed _ _) as [b1 f1].
    apply writesOnly_bind; [by apply writesOnly_writeAll|].
    intros _. apply writesOnly_ret.
  - intros s1. apply writesOnly_if; [apply writesOnly_ret|apply IH].
Qed.

Lemma writesOnly_fis_readLoop reads s :
  writesOnly (wellFormed (fun c => truthy (Val c) = true))
    (Fis.readLoop reads s).
Proof.
  revert s. induction reads as [|[value done now|e] reads IH]; intros s;
    cbn [Fis.readLoop];
    [apply writesOnly_ret| |apply writesOnly_throw].
  apply writesOnly_bind.
  - destruct value as [bytes|]; cbn [Fis.consume];
      [|apply writesOnly_ret].
    destruct (decode _ _) as [d1 chunk].
    pose proof (fis_feed_truthy (Fis.buffer s) chunk) as Hf.
    destruct (Fis.feed _ _) as [b1 f1].
    apply writesOnly_bind; [by apply writesOnly_writeAll|].
    intros _. apply writesOnly_ret.
  - intros s1. apply writesOnly_if; [apply writesOnly_ret|apply IH].
Qed.

(** The acknowledgement comes first, whatever follows. *)
Lemma handler_events (P : event → Prop)
    (k : jsstring * list readResult → M unit) (report : thrown → event)
    sc w :
  (∀ a, writesOnly P (k a)) → (∀ e, P (report e)) →
  ∃ es,
    sink (match bind (openStream sc) k w with
          | (Normal _, w') => w'
          | (Throw error, w') => (write (report error) w').2
          end) = sink w ++ Ack :: es
    ∧ Forall P es.
Proof.
  intros Hk Hreport. unfold bind.
  pose proof (openStream_sink sc w) as Hs.
  destruct (openStream sc w) as [[a|e] w1]; cbn [snd] in Hs.
  - destruct (Hk a w1) as (es & Hes & HP).
    destruct (k a w1) as [[[]|e] w2]; cbn [snd] in Hes.
    + exists es. rewrite Hes, Hs, <- app_assoc. done.
    + exists (es ++ [report e]). cbn [write snd sink].
      rewrite Hes, Hs, <- !app_assoc. split; [done|].
      apply Forall_app. split; [done|]. by constructor.
  - exists [report e]. cbn [write snd sink].
    rewrite Hs, <- !app_assoc. split; [done|]. by constructor.
Qed.

Lemma part001_errorsEvent_wellFormed P e :
  wellFormed P (Part001.errorsEvent e).
Proof. by eexists. Qed.

Lemma part000_errorsEvent_wellFormed P e :
  wellFormed P (Part000.errorsEvent e).
Proof. by eexists. Qed.

Lemma fis_errorsEvent_wellFormed P e :
  wellFormed P (Fis.errorsEvent e).
Proof. by eexists. Qed.

Lemma part001_handle_events sc w :
  ∃ es, sink (Part001.handle sc w) = sink w ++ Ack :: es
        ∧ Forall (wellFormed nonEmptyText) es.
Proof.
  apply (handler_events _ _ Part001.errorsEvent);
    [|apply part001_errorsEvent_wellFormed].
  intros [login reads].
  apply writesOnly_bind; [apply writesOnly_write; by eexists|]. intros _.
  apply writesOnly_bind; [apply writesOnly_part001_readLoop|]. intros s.
  apply writesOnly_bind; [|intros _; by apply writesOnly_write].
  apply writesOnly_if; [|apply writesOnly_ret].
  apply writesOnly_write. by eexists.
Qed.

Lemma part000_handle_events sc w :
  ∃ es, sink (Part000.handle sc w) = sink w ++ Ack :: es
        ∧ Forall (wellFormed nonEmptyText) es.
Proof.
  apply (handler_events _ _ Part000.errorsEvent);
    [|apply part000_errorsEvent_wellFormed].
  intros [login reads].
  apply writesOnly_bind; [apply writesOnly_write; by eexists|]. intros _.
  apply writesOnly_bind; [apply writesOnly_part000_readLoop|]. intros s.
  apply writesOnly_bind; [|intros _; by apply writesOnly_write].
  apply writesOnly_if; [|apply writesOnly_ret].
  apply writesOnly_write. by eexists.
Qed.

Lemma fis_handle_events sc w :
  ∃ es, sink (Fis.handle sc w) = sink w ++ Ack :: es
        ∧ Forall (wellFormed (fun c => truthy (Val c) = true)) es.
Proof.
  apply (handler_events _ _ Fis.errorsEvent);
    [|apply fis_errorsEvent_wellFormed].
  intros [login reads].
  apply writesOnly_bind; [by apply writesOnly_write|]. intros _.
  apply writesOnly_bind; [apply writesOnly_fis_readLoop|]. intros s.
  by apply writesOnly_write.
Qed.

End Events.

(** X7.  The events of a reply, in every scenario.  The first event a
    handler writes is [Ack].  Every text that [part_001] and [part_000]
    write after it (greeting, fragments, keep-alive, fallback) is a
    string that is not empty; every text of [fis.ts] is truthy, but need
    not be a string.  Every [Errors] event carries exactly one entry,
    of type [agent], code [PROCESSING_ERROR] and identifier
    [processing_error]. *)
Theorem events_well_formed `{Runtime} (sc : scenario) (w : world) :
  (∃ es, sink (Part001.handle sc w) = sink w ++ Ack :: es
         ∧ Forall (wellFormed nonEmptyText) es)
  ∧ (∃ es, sink (Part000.handle sc w) = sink w ++ Ack :: es
           ∧ Forall (wellFormed nonEmptyText) es)
  ∧ (∃ es, sink (Fis.handle sc w) = sink w ++ Ack :: es
           ∧ Forall (wellFormed (fun c => truthy (Val c) = true)) es).
Proof.
  split; [apply part001_handle_events|].
  split; [apply part000_handle_events|apply fis_handle_events].
Qed.

(** [fis.ts] forwards a [content] that is not a string: here the number
    5, which [part_001] and [part_000] drop. *)
Example fis_forwards_a_number :
  let record :=
    ascii "data: {'messages':[{'type':'ai','content':5}]}" ++ [x0a] in
  Fis.reassemble (H := Node.runtime) [record] = [JNum 5 0]
  ∧ Part000.reassemble (H := Node.runtime) [record] = []
  ∧ Part001.reassemble (H := Node.runtime) [record] = [].
Proof. repeat split; vm_compute; reflexivity. Qed.

(** ** Failures before the stream is open *)

Section Failures.
Context `{Runtime}.

Lemma part001_handle_throw sc w e w1 :
  openStream sc w = (Throw e, w1) →
  Part001.handle sc w = emit w1 [Part001.errorsEvent e].
Proof.
  intros Hopen. unfold Part001.handle, Part001.attempt.
  by erewrite bind_throw by exact Hopen.
Qed.

Lemma part000_handle_throw sc w e w1 :
  openStream sc w = (Throw e, w1) →
  Part000.handle sc w = emit w1 [Part000.errorsEvent e].
Proof.
  intros Hopen. unfold Part000.handle, Part000.attempt.
  by erewrite bind_throw by exact Hopen.
Qed.

Lemma fis_handle_throw sc w e w1 :
  openStream sc w = (Throw e, w1) →
  Fis.handle sc w = emit w1 [Fis.errorsEvent e].
Proof.
  intros Hopen. unfold Fis.handle, Fis.attempt.
  by erewrite bind_throw by exact Hopen.
Qed.

Lemma openStream_lookup_fails sc w e :
  userReply sc = inl e →
  openStream sc w =
    (Throw e,
     {| sink := sink w ++ [Ack]; calls := calls w ++ [GetUser];
        userThreads := userThreads w |}).
Proof.
  intros Hu. unfold openStream, identify, bind, write, send, await.
  by rewrite Hu.
Qed.

Lemma openStream_creation_fails sc w login e :
  userReply sc = inr login →
  userThreads w !! login = None →
  createConversation (threadReply sc) = Throw e →
  openStream sc w =
    (Throw e,
     {| sink := sink w ++ [Ack]; calls := calls w ++ [GetUser; CreateThread];
        userThreads := userThreads w |}).
Proof.
  intros Hu Hget Hc. unfold openStream.
  erewrite bind_normal by (by apply identify_ok). cbn zeta.
  erewrite bind_throw by (by apply resolve_cold_fail).
  cbn [sink calls userThreads]. by rewrite <- app_assoc.
Qed.

Lemma openRun_world sc h p w :
  (openRun sc h p w).2
  = {| sink := sink w; calls := calls w ++ [OpenRun h p];
       userThreads := userThreads w |}.
Proof.
  unfold openRun, bind, send, await, ret, throw.
  repeat (case_match; simplify_eq/=; try done).
Qed.

Lemma openRun_rejected sc h p w e :
  runReply sc = inl e → (openRun sc h p w).1 = Throw e.
Proof.
  intros Hr. unfold openRun, bind, send, await. by rewrite Hr.
Qed.

Lemma openRun_refused sc h p w r :
  runReply sc = inr r → ok r = false ∨ body r = None →
  (openRun sc h p w).1
  = Throw (Error (js "LangGraph agent error: " ++ toDecimal (status r)
                  ++ js " "
                  ++ match body r with
                     | Some _ => text r
                     | None => statusText r
                     end)).
Proof.
  intros Hr Hbad. unfold openRun, bind, send, await. rewrite Hr.
  cbn [ret]. destruct (body r) as [reads|]; [|done].
  destruct Hbad as [->|]; done.
Qed.

Lemma pair_eta {A B} (p : A * B) : p = (p.1, p.2).
Proof. by destruct p. Qed.

Lemma openStream_resolved sc w login h w2 :
  userReply sc = inr login →
  resolve sc login
    {| sink := sink w ++ [Ack]; calls := calls w ++ [GetUser];
       userThreads := userThreads w |} = (Normal h, w2) →
  openStream sc w =
    (match (openRun sc h (prompt sc) w2).1 with
     | Normal reads => Normal (login, reads)
     | Throw e => Throw e
     end,
     {| sink := sink w2; calls := calls w2 ++ [OpenRun h (prompt sc)];
        userThreads := userThreads w2 |}).
Proof.
  intros Hu Hres. unfold openStream.
  erewrite bind_normal by (by apply identify_ok). cbn zeta.
  erewrite bind_normal by exact Hres.
  pose proof (openRun_world sc h (prompt sc) w2) as Hw.
  unfold bind. destruct (openRun sc h (prompt sc) w2) as [[reads|e] w3];
    cbn [fst snd] in *; by subst w3.
Qed.

Lemma openStream_run_fails sc w login h w2 e :
  userReply sc = inr login →
  resolve sc login
    {| sink := sink w ++ [Ack]; calls := calls w ++ [GetUser];
       userThreads := userThreads w |} = (Normal h, w2) →
  (openRun sc h (prompt sc) w2).1 = Throw e →
  openStream sc w =
    (Throw e,
     {| sink := sink w2; calls := calls w2 ++ [OpenRun h (prompt sc)];
        userThreads := userThreads w2 |}).
Proof.
  intros Hu Hres Hrun. erewrite openStream_resolved by done.
  by rewrite Hrun.
Qed.

Lemma openRun_fails sc h p w report :
  runReply sc = inl report
  ∨ (∃ r, runReply sc = inr r
          ∧ (ok r = false ∨ body r = None)
          ∧ report
            = Error (js "LangGraph agent error: " ++ toDecimal (status r)
                     ++ js " "
                     ++ match body r with
                        | Some _ => text r
                        | None => statusText r
                        end)) →
  (openRun sc h p w).1 = Throw report.
Proof.
  intros [Hr|(r & Hr & Hbad & ->)];
    [by apply openRun_rejected|by apply openRun_refused].
Qed.

Lemma openStream_warm_run_fails sc w login h report :
  userReply sc = inr login →
  userThreads w !! login = Some h → truthy (Val h) = true →
  (∀ w2, (openRun sc h (prompt sc) w2).1 = Throw report) →
  openStream sc w =
    (Throw report,
     {| sink := sink w ++ [Ack];
        calls := calls w ++ [GetUser; OpenRun h (prompt sc)];
        userThreads := userThreads w |}).
Proof.
  intros Hu Hget Hh Hrun.
  erewrite openStream_run_fails; [|done|by apply resolve_warm|apply Hrun].
  cbn [sink calls userThreads]. by rewrite <- app_assoc.
Qed.

Lemma openStream_cold_run_fails sc w login h report :
  userReply sc = inr login →
  userThreads w !! login = None →
  createConversation (threadReply sc) = Normal h →
  (∀ w2, (openRun sc h (prompt sc) w2).1 = Throw report) →
  openStream sc w =
    (Throw report,
     {| sink := sink w ++ [Ack];
        calls := calls w ++ [GetUser; CreateThread; OpenRun h (prompt sc)];
        userThreads := <[login := h]> (userThreads w) |}).
Proof.
  intros Hu Hget Hc Hrun.
  erewrite openStream_run_fails; [|done|by apply resolve_cold|apply Hrun].
  cbn [sink calls userThreads]. by rewrite <- !app_assoc.
Qed.

Lemma emit_report w1 e :
  emit w1 [e]
  = {| sink := sink w1 ++ [e]; calls := calls w1;
       userThreads := userThreads w1 |}.
Proof. done. Qed.

End Failures.

(** X8.  A request whose user lookup fails.  The handler has written
    [Ack] and sent the lookup; it reports the failure as the one
    [Errors] event of its [catch] block and does nothing else: no
    thread is looked up or created, no run is opened, [userThreads] is
    as it was, and neither a greeting nor [Done] is written. *)
Theorem user_lookup_failure `{Runtime} (sc : scenario) (w : world)
    (e : thrown) :
  userReply sc = inl e →
  Part001.handle sc w
  = {| sink := sink w ++ [Ack; Part001.errorsEvent e];
       calls := calls w ++ [GetUser]; userThreads := userThreads w |}
  ∧ Part000.handle sc w
    = {| sink := sink w ++ [Ack; Part000.errorsEvent e];
         calls := calls w ++ [GetUser]; userThreads := userThreads w |}
  ∧ Fis.handle sc w
    = {| sink := sink w ++ [Ack; Fis.errorsEvent e];
         calls := calls w ++ [GetUser]; userThreads := userThreads w |}.
Proof.
  intros Hu. pose proof (openStream_lookup_fails sc w e Hu) as Hopen.
  rewrite (part001_handle_throw _ _ _ _ Hopen),
    (part000_handle_throw _ _ _ _ Hopen), (fis_handle_throw _ _ _ _ Hopen).
  rewrite !emit_report. cbn [sink calls userThreads].
  by rewrite <- !app_assoc.
Qed.

Lemma user_lookup_failure_witness :
  Part001.handle (H := Node.runtime) strangerAsks freshWorld
  = {| sink := [Ack; Part001.errorsEvent (Error (js "Bad credentials"))];
       calls := [GetUser]; userThreads := ∅ |}.
Proof.
  apply (proj1 (user_lookup_failure (H := Node.runtime) strangerAsks
                  freshWorld (Error (js "Bad credentials")) eq_refl)).
Defined.

(** X9.  A request of a caller without a thread whose creation request
    fails (the request is rejected, the response is not successful, or
    its body names no thread).  The handler reports the failure as one
    [Errors] event after [Ack]; it has sent the lookup and the creation
    request and opens no run; [userThreads] is left as it was, so the
    next request of the caller tries again. *)
Theorem creation_failure `{Runtime} (sc : scenario) (w : world)
    (login : jsstring) (e : thrown) :
  userReply sc = inr login →
  userThreads w !! login = None →
  createConversation (threadReply sc) = Throw e →
  Part001.handle sc w
  = {| sink := sink w ++ [Ack; Part001.errorsEvent e];
       calls := calls w ++ [GetUser; CreateThread];
       userThreads := userThreads w |}
  ∧ Part000.handle sc w
    = {| sink := sink w ++ [Ack; Part000.errorsEvent e];
         calls := calls w ++ [GetUser; CreateThread];
         userThreads := userThreads w |}
  ∧ Fis.handle sc w
    = {| sink := sink w ++ [Ack; Fis.errorsEvent e];
         calls := calls w ++ [GetUser; CreateThread];
         userThreads := userThreads w |}.
Proof.
  intros Hu Hget Hc.
  pose proof (openStream_creation_fails sc w login e Hu Hget Hc) as Hopen.
  rewrite (part001_handle_throw _ _ _ _ Hopen),
    (part000_handle_throw _ _ _ _ Hopen), (fis_handle_throw _ _ _ _ Hopen).
  rewrite !emit_report. cbn [sink calls userThreads].
  by rewrite <- !app_assoc.
Qed.

Lemma creation_failure_witness :
  Part001.handle (H := Node.runtime) bobWithoutThread freshWorld
  = {| sink :=
         [Ack;
          Part001.errorsEvent
            (Error (js "Thread creation response missing thread_id"))];
       calls := [GetUser; CreateThread]; userThreads := ∅ |}.
Proof.
  apply (proj1 (creation_failure (H := Node.runtime) bobWithoutThread
                  freshWorld (js "bob")
                  (Error (js "Thread creation response missing thread_id"))
                  eq_refl eq_refl ltac:(vm_compute; reflexivity))).
Defined.

(** X10.  A request whose run does not open: the request is rejected
    (in [part_001] also by the timeout), the response is not successful,
    or it has no body.  The handler reports one [Errors] event after
    [Ack] and writes no greeting; for a response the message is
    [LangGraph agent error: <status> <text>], with the text of the body,
    or the status text when there is no body.  The run request went
    out on the caller's thread, and a thread created for this request
    stays in [userThreads]. *)
Theorem run_open_failure `{Runtime} (sc : scenario) (w : world)
    (login : jsstring) (h : json) (report : thrown) :
  userReply sc = inr login →
  runReply sc = inl report
  ∨ (∃ r, runReply sc = inr r
          ∧ (ok r = false ∨ body r = None)
          ∧ report
            = Error (js "LangGraph agent error: " ++ toDecimal (status r)
                     ++ js " "
                     ++ match body r with
                        | Some _ => text r
                        | None => statusText r
                        end)) →
  (userThreads w !! login = Some h → truthy (Val h) = true →
   let after events :=
     {| sink := sink w ++ events;
        calls := calls w ++ [GetUser; OpenRun h (prompt sc)];
        userThreads := userThreads w |} in
   Part001.handle sc w = after [Ack; Part001.errorsEvent report]
   ∧ Part000.handle sc w = after [Ack; Part000.errorsEvent report]
   ∧ Fis.handle sc w = after [Ack; Fis.errorsEvent report])
  ∧ (userThreads w !! login = None →
     createConversation (threadReply sc) = Normal h →
     let after events :=
       {| sink := sink w ++ events;
          calls := calls w ++ [GetUser; CreateThread; OpenRun h (prompt sc)];
          userThreads := <[login := h]> (userThreads w) |} in
     Part001.handle sc w = after [Ack; Part001.errorsEvent report]
     ∧ Part000.handle sc w = after [Ack; Part000.errorsEvent report]
     ∧ Fis.handle sc w = after [Ack; Fis.errorsEvent report]).
Proof.
  intros Hu Hrun.
  assert (∀ w2, (openRun sc h (prompt sc) w2).1 = Throw report) as Hfail
    by (intros w2; by apply openRun_fails).
  split.
  - intros Hget Hh. cbn zeta.
    pose proof (openStream_warm_run_fails sc w login h report
                  Hu Hget Hh Hfail) as Hopen.
    rewrite (part001_handle_throw _ _ _ _ Hopen),
      (part000_handle_throw _ _ _ _ Hopen), (fis_handle_throw _ _ _ _ Hopen).
    rewrite !emit_report. cbn [sink calls userThreads].
    by rewrite <- !app_assoc.
  - intros Hget Hc. cbn zeta.
    pose proof (openStream_cold_run_fails sc w login h report
                  Hu Hget Hc Hfail) as Hopen.
    rewrite (part001_handle_throw _ _ _ _ Hopen),
      (part000_handle_throw _ _ _ _ Hopen), (fis_handle_throw _ _ _ _ Hopen).
    rewrite !emit_report. cbn [sink calls userThreads].
    by rewrite <- !app_assoc.
Qed.

Lemma run_open_failure_witness :
  let report := Error (js "LangGraph agent error: 503 busy") in
  Part001.handle (H := Node.runtime) bobRefused freshWorld
  = {| sink := [Ack; Part001.errorsEvent report];
       calls := [GetUser; CreateThread; OpenRun (JStr (js "t1")) (js "hi")];
       userThreads := {[ js "bob" := JStr (js "t1") ]} |}
  ∧ Part001.handle (H := Node.runtime) bobRefused
      {| sink := []; calls := [];
         userThreads := {[ js "bob" := JStr (js "t0") ]} |}
    = {| sink := [Ack; Part001.errorsEvent report];
         calls := [GetUser; OpenRun (JStr (js "t0")) (js "hi")];
         userThreads := {[ js "bob" := JStr (js "t0") ]} |}.
Proof.
  intros report.
  assert (runReply bobRefused = inl report
          ∨ (∃ r, runReply bobRefused = inr r
                  ∧ (ok r = false ∨ body r = None)
                  ∧ report
                    = Error (js "LangGraph agent error: "
                             ++ toDecimal (status r) ++ js " "
                             ++ match body r with
                                | Some _ => text r
                                | None => statusText r
                                end))) as Hrun.
  { right. eexists. split; [reflexivity|]. split; [by left|reflexivity]. }
  split.
  - destruct (run_open_failure (H := Node.runtime) bobRefused freshWorld
                (js "bob") (JStr (js "t1")) report eq_refl Hrun)
      as [_ Hcold].
    refine (proj1 (Hcold eq_refl _)). vm_compute. reflexivity.
  - destruct (run_open_failure (H := Node.runtime) bobRefused
                {| sink := []; calls := [];
                   userThreads := {[ js "bob" := JStr (js "t0") ]} |}
                (js "bob") (JStr (js "t0")) report eq_refl Hrun)
      as [Hwarm _].
    refine (proj1 (Hwarm _ eq_refl)). apply lookup_singleton_eq.
Defined.

(** ** What a request does to the session directory *)

Section Directory.
Context `{Runtime}.

Lemma createThread_run sc login w :
  createThread sc login w =
    match createConversation (threadReply sc) with
    | Normal h =>
        (Normal h,
         {| sink := sink w; calls := calls w ++ [CreateThread];
            userThreads := <[login := h]> (userThreads w) |})
    | Throw e =>
        (Throw e,
         {| sink := sink w; calls := calls w ++ [CreateThread];
            userThreads := userThreads w |})
    end.
Proof.
  unfold createThread, bind, send, settle.
  by destruct (createConversation (threadReply sc)).
Qed.

(** [resolve] returns a truthy stored thread as it is, and creates one
    in every other case. *)
Lemma resolve_cases sc login w :
  (∃ h, userThreads w !! login = Some h ∧ truthy (Val h) = true
        ∧ resolve sc login w = (Normal h, w))
  ∨ ((∀ v, userThreads w !! login = Some v → truthy (Val v) = false)
     ∧ resolve sc login w = createThread sc login w).
Proof.
  unfold resolve, bind, threadsGet.
  destruct (userThreads w !! login) as [v|] eqn:Hget; [|by right].
  cbv beta iota. destruct (truthy (Val v)) eqn:Hv; cbn [negb].
  - left. by exists v.
  - right. split; [|done]. by intros ? [= <-].
Qed.

Lemma sessionEffects_openStream sc w :
  sessionEffects sc w (openStream sc w).2.
Proof.
  unfold sessionEffects.
  destruct (userReply sc) as [e|login] eqn:Hu.
  { rewrite (openStream_lookup_fails sc w e Hu). cbn [snd calls userThreads].
    exists []. split; [done|]. left. eauto. }
  set (w1 := {| sink := sink w ++ [Ack]; calls := calls w ++ [GetUser];
                userThreads := userThreads w |}).
  destruct (resolve_cases sc login w1) as [(h & Hget & Hh & Hres)|[_ Hres]].
  - rewrite (openStream_resolved sc w login h w1 Hu Hres).
    cbn [snd calls userThreads w1].
    exists [OpenRun h (prompt sc)]. split; [by rewrite <- app_assoc|].
    right; right. exists login, h. eauto 10.
  - rewrite createThread_run in Hres.
    destruct (createConversation (threadReply sc)) as [h|e] eqn:Hc.
    + rewrite (openStream_resolved sc w login h _ Hu Hres).
      cbn [snd calls userThreads w1].
      exists [CreateThread; OpenRun h (prompt sc)].
      split; [by rewrite <- !app_assoc|].
      right; right. exists login, h.
      split; [done|]. split; [by eapply createConversation_truthy|].
      split; [by rewrite lookup_insert_eq|]. right. done.
    + unfold openStream.
      erewrite bind_normal by (by apply identify_ok). cbn zeta.
      erewrite bind_throw by exact Hres.
      subst w1. cbn [snd calls userThreads].
      exists [CreateThread]. split; [by rewrite <- !app_assoc|].
      right; left. eauto.
Qed.

Lemma sessionEffects_ext sc w w1 w2 :
  calls w2 = calls w1 → userThreads w2 = userThreads w1 →
  sessionEffects sc w w1 → sessionEffects sc w w2.
Proof. unfold sessionEffects. by intros -> ->. Qed.

(** Under the invariant that stored threads are truthy, a creation
    happens only for a caller without an entry. *)
Lemma openStream_grows sc w :
  storedTruthy w →
  userThreads w ⊆ userThreads (openStream sc w).2
  ∧ ∀ k, userReply sc ≠ inr k →
      userThreads (openStream sc w).2 !! k = userThreads w !! k.
Proof.
  intros Hw.
  destruct (userReply sc) as [e|login] eqn:Hu.
  { by rewrite (openStream_lookup_fails sc w e Hu). }
  set (w1 := {| sink := sink w ++ [Ack]; calls := calls w ++ [GetUser];
                userThreads := userThreads w |}).
  destruct (resolve_cases sc login w1) as [(h & Hget & Hh & Hres)|[Hno Hres]].
  - by rewrite (openStream_resolved sc w login h w1 Hu Hres).
  - rewrite createThread_run in Hres.
    destruct (createConversation (threadReply sc)) as [h|e] eqn:Hc.
    + rewrite (openStream_resolved sc w login h _ Hu Hres).
      cbn [snd userThreads w1].
      assert (userThreads w !! login = None) as Hnone.
      { destruct (userThreads w !! login) as [v|] eqn:Hget; [|done].
        pose proof (Hno v Hget) as Hfalse.
        by rewrite (Hw login v Hget) in Hfalse. }
      split; [by apply insert_subseteq|].
      intros k Hk. apply lookup_insert_ne. by intros ->.
    + unfold openStream.
      erewrite bind_normal by (by apply identify_ok). cbn zeta.
      by erewrite bind_throw by exact Hres.
Qed.

Lemma part001_sessionEffects sc w :
  sessionEffects sc w (Part001.handle sc w).
Proof.
  eapply sessionEffects_ext;
    [apply part001_handle_calls..|apply sessionEffects_openStream].
Qed.

Lemma part000_sessionEffects sc w :
  sessionEffects sc w (Part000.handle sc w).
Proof.
  eapply sessionEffects_ext;
    [apply part000_handle_calls..|apply sessionEffects_openStream].
Qed.

Lemma fis_sessionEffects sc w :
  sessionEffects sc w (Fis.handle sc w).
Proof.
  eapply sessionEffects_ext;
    [apply fis_handle_calls..|apply sessionEffects_openStream].
Qed.

End Directory.

Section Payload.
Context `{Runtime}.

Lemma withPrompt_prompt sc : withPrompt (prompt sc) sc = sc.
Proof. by destruct sc. Qed.

Lemma answer_no_message handle report e sc w :
  calls (answer handle report (inl e) sc w) = calls w ++ [GetUser]
  ∧ userThreads (answer handle report (inl e) sc w) = userThreads w.
Proof.
  unfold answer, identify, bind, write, send, await.
  by destruct (userReply sc).
Qed.

Lemma answer_no_message_events handle report e sc w login :
  userReply sc = inr login →
  answer handle report (inl e) sc w
  = {| sink := sink w ++ [Ack; report e]; calls := calls w ++ [GetUser];
       userThreads := userThreads w |}.
Proof.
  intros Hu. unfold answer. rewrite (identify_ok sc login w Hu).
  cbn [write snd sink calls userThreads]. by rewrite <- app_assoc.
Qed.

Lemma inTurn_grows (handle : scenario → world → world) :
  (∀ sc w, userThreads (handle sc w) = userThreads (openStream sc w).2) →
  ∀ requests w,
    storedTruthy w →
    userThreads w ⊆ userThreads (inTurn handle requests w)
    ∧ ∀ k, Forall (fun sc => userReply sc ≠ inr k) requests →
        userThreads (inTurn handle requests w) !! k = userThreads w !! k.
Proof.
  intros Hhandle requests.
  induction requests as [|sc requests IH]; intros w Hw; [done|].
  cbn [inTurn fold_left]. fold (inTurn handle requests (handle sc w)).
  destruct (openStream_grows sc w Hw) as [Hsub Hother].
  destruct (IH (handle sc w)) as [Hsub' Hother'].
  { by apply handler_storedTruthy. }
  rewrite <- Hhandle in Hsub, Hother. split.
  - by etrans.
  - intros k [Hk Hks]%Forall_cons. rewrite Hother' by done. by apply Hother.
Qed.

End Payload.

(** X11.  The requests of one request and the session directory, for
    every payload and every outcome of the calls, in the three
    revisions, for a request that runs to its end with no other request
    in between.  The user lookup is always sent, first.  When the lookup
    fails, or when [getUserMessage] throws for the payload, nothing
    follows and [userThreads] is as it was; in the second case the
    events are [Ack] and one [Errors].  Otherwise at most one creation
    request and at most one run request follow, in this order.  When
    the creation fails, [userThreads] is as it was.  A run is opened
    with the prompt of the request on a truthy thread id, and at the end
    of the request [userThreads] holds this id for the caller: the one
    it held before (then no creation request is sent and [userThreads]
    is unchanged), or the one the creation reply named, stored under the
    caller's login. *)
Theorem session_effects `{Runtime} (userMessage : thrown + jsstring)
    (sc : scenario) (w : world) :
  (requestEffects userMessage sc w
     (answer Part001.handle Part001.errorsEvent userMessage sc w)
   ∧ requestEffects userMessage sc w
       (answer Part000.handle Part000.errorsEvent userMessage sc w)
   ∧ requestEffects userMessage sc w
       (answer Fis.handle Fis.errorsEvent userMessage sc w))
  ∧ (∀ e login,
       userMessage = inl e → userReply sc = inr login →
       let after report :=
         {| sink := sink w ++ [Ack; report e]; calls := calls w ++ [GetUser];
            userThreads := userThreads w |} in
       answer Part001.handle Part001.errorsEvent userMessage sc w
       = after Part001.errorsEvent
       ∧ answer Part000.handle Part000.errorsEvent userMessage sc w
         = after Part000.errorsEvent
       ∧ answer Fis.handle Fis.errorsEvent userMessage sc w
         = after Fis.errorsEvent)
  ∧ (answer Part001.handle Part001.errorsEvent (inr (prompt sc)) sc w
     = Part001.handle sc w
     ∧ answer Part000.handle Part000.errorsEvent (inr (prompt sc)) sc w
       = Part000.handle sc w
     ∧ answer Fis.handle Fis.errorsEvent (inr (prompt sc)) sc w
       = Fis.handle sc w)
  ∧ (sessionEffects sc w (Part001.handle sc w)
     ∧ sessionEffects sc w (Part000.handle sc w)
     ∧ sessionEffects sc w (Fis.handle sc w)).
Proof.
  split; [|split; [|split]].
  - destruct userMessage as [e|userPrompt]; cbn [requestEffects].
    + repeat split; apply answer_no_message.
    + cbn [answer]. split; [apply part001_sessionEffects|].
      split; [apply part000_sessionEffects|apply fis_sessionEffects].
  - intros e login -> Hu. cbn zeta.
    by rewrite !(answer_no_message_events _ _ e sc w login Hu).
  - cbn [answer]. by rewrite withPrompt_prompt.
  - split; [apply part001_sessionEffects|].
    split; [apply part000_sessionEffects|apply fis_sessionEffects].
Qed.

Lemma session_effects_witness :
  answer (Part001.handle (H := Node.runtime)) Part001.errorsEvent noMessage
    helloRun freshWorld
  = {| sink :=
         [Ack;
          Part001.errorsEvent
            (Error (js "Cannot read properties of undefined (reading 'content')"))];
       calls := [GetUser]; userThreads := ∅ |}.
Proof.
  refine (proj1 (proj1 (proj2 (session_effects (H := Node.runtime)
                                 noMessage helloRun freshWorld))
                   _ (js "bob") eq_refl eq_refl)).
Defined.

(** X12.  Entries of the session directory are never removed or
    replaced by requests that are handled one after the other, each
    running to its end before the next begins.  If every stored thread
    id is truthy (the empty directory is such), then after any number of
    such requests every entry is still there with the same thread id,
    and only callers of these requests can have a new entry.  (Two
    requests that overlap are not covered: both can find no entry
    before either stores one.) *)
Theorem directory_grows `{Runtime} (requests : list scenario) (w : world) :
  storedTruthy w →
  (userThreads w ⊆ userThreads (inTurn Part001.handle requests w)
   ∧ userThreads w ⊆ userThreads (inTurn Part000.handle requests w)
   ∧ userThreads w ⊆ userThreads (inTurn Fis.handle requests w))
  ∧ ∀ k, Forall (fun sc => userReply sc ≠ inr k) requests →
      userThreads (inTurn Part001.handle requests w) !! k
      = userThreads w !! k
      ∧ userThreads (inTurn Part000.handle requests w) !! k
        = userThreads w !! k
      ∧ userThreads (inTurn Fis.handle requests w) !! k
        = userThreads w !! k.
Proof.
  intros Hw.
  destruct (inTurn_grows Part001.handle
              (fun sc w => proj2 (part001_handle_calls sc w)) requests w Hw)
    as [H1 H1'].
  destruct (inTurn_grows Part000.handle
              (fun sc w => proj2 (part000_handle_calls sc w)) requests w Hw)
    as [H0 H0'].
  destruct (inTurn_grows Fis.handle
              (fun sc w => proj2 (fis_handle_calls sc w)) requests w Hw)
    as [Hf Hf'].
  split; [done|]. intros k Hk. by rewrite H1', H0', Hf'.
Qed.

Lemma directory_grows_witness :
  let w :=
    {| sink := []; calls := [];
       userThreads := {[ js "alice" := JStr (js "t2") ]} |} in
  userThreads w
  ⊆ userThreads (inTurn (Part001.handle (H := Node.runtime))
                   [helloRun; heartbeatOnly] w)
  ∧ userThreads (inTurn (Part001.handle (H := Node.runtime))
                   [helloRun; heartbeatOnly] w) !! js "alice"
    = userThreads w !! js "alice".
Proof.
  intros w.
  assert (storedTruthy w) as Hw.
  { intros k v Hk. unfold w in Hk. cbn [userThreads] in Hk.
    apply lookup_singleton_Some in Hk as [_ <-]. reflexivity. }
  destruct (directory_grows (H := Node.runtime)
              [helloRun; heartbeatOnly] w Hw)
    as [(Hsub & _ & _) Hother].
  split; [exact Hsub|].
  refine (proj1 (Hother (js "alice") _)).
  repeat constructor; discriminate.
Defined.

(** ** How the read loops end *)

Section Endings.
Context `{Runtime}.

(** From the outcome of the read loop to the events of the request. *)
Lemma part001_handle_loop sc w login reads w1 s' es :
  openStream sc w = (Normal (login, reads), w1) →
  (∀ w',
     Part001.readLoop reads
       {| Part001.decoder := newTextDecoder; Part001.buffer := [];
          Part001.hasValidContent := false;
          Part001.consecutiveEmptyReads := 0;
          Part001.lastActivityTime := startTime sc |} w'
     = (Normal s', emit w' es)) →
  sink (Part001.handle sc w) =
    sink w ++ [Ack; Text (JStr (Part001.greeting login))] ++ es
    ++ (if Part001.hasValidContent s' then []
        else [Text (JStr Part001.fallback)])
    ++ [Done].
Proof.
  intros Hopen Hloop. unfold Part001.handle, Part001.attempt.
  erewrite bind_normal by exact Hopen. cbv beta iota.
  erewrite bind_normal by apply write_emit.
  erewrite bind_normal by apply Hloop.
  pose proof (openStream_sink sc w) as Hs. rewrite Hopen in Hs.
  cbn [snd] in Hs.
  destruct (Part001.hasValidContent s'); cbn [negb].
  - erewrite bind_normal by reflexivity.
    rewrite write_emit, !emit_emit. cbn [emit sink app].
    rewrite Hs, <- !app_assoc. done.
  - erewrite bind_normal by apply write_emit.
    rewrite write_emit, !emit_emit. cbn [emit sink app].
    rewrite Hs, <- !app_assoc. done.
Qed.

Lemma part000_handle_loop_throw sc w login reads w1 e es :
  openStream sc w = (Normal (login, reads), w1) →
  (∀ w',
     Part000.readLoop reads
       {| Part000.decoder := newTextDecoder; Part000.buffer := [];
          Part000.hasValidContent := false |} w'
     = (Throw e, emit w' es)) →
  sink (Part000.handle sc w) =
    sink w ++ [Ack; Text (JStr (Part000.greeting login))] ++ es
    ++ [Part000.errorsEvent e].
Proof.
  intros Hopen Hloop. unfold Part000.handle, Part000.attempt.
  erewrite bind_normal by exact Hopen. cbv beta iota.
  erewrite bind_normal by apply write_emit.
  erewrite bind_throw by apply Hloop.
  pose proof (openStream_sink sc w) as Hs. rewrite Hopen in Hs.
  cbn [snd] in Hs.
  rewrite write_emit, !emit_emit. cbn [emit sink app snd].
  rewrite Hs, <- !app_assoc. done.
Qed.

Lemma fis_handle_loop_throw sc w login reads w1 e es :
  openStream sc w = (Normal (login, reads), w1) →
  (∀ w',
     Fis.readLoop reads
       {| Fis.decoder := newTextDecoder; Fis.buffer := [] |} w'
     = (Throw e, emit w' es)) →
  sink (Fis.handle sc w) =
    sink w ++ [Ack; Text (JStr (Fis.greeting login))] ++ es
    ++ [Fis.errorsEvent e].
Proof.
  intros Hopen Hloop. unfold Fis.handle, Fis.attempt.
  erewrite bind_normal by exact Hopen. cbv beta iota.
  erewrite bind_normal by apply write_emit.
  erewrite bind_throw by apply Hloop.
  pose proof (openStream_sink sc w) as Hs. rewrite Hopen in Hs.
  cbn [snd] in Hs.
  rewrite write_emit, !emit_emit. cbn [emit sink app snd].
  rewrite Hs, <- !app_assoc. done.
Qed.

Lemma part001_readLoop_ends rest s w :
  endsLoop rest → Part001.readLoop rest s w = (Normal s, w).
Proof.
  destruct rest as [|[value fin now|e] rest]; [done| |done].
  cbn [endsLoop Part001.readLoop]. by intros ->.
Qed.

Lemma part000_readLoop_closes rest s w :
  closes rest → Part000.readLoop rest s w = (Throw Part000.closedEarly, w).
Proof.
  destruct rest as [|[value fin now|e] rest]; [done| |done].
  cbn [closes Part000.readLoop]. by intros [-> ->].
Qed.

End Endings.

(** X13.  However its stream ends, [part_001] tells the caller [Done].
    When the reader reports the end (whatever value comes with that
    answer: it is not looked at), when a read is rejected (the error is
    caught inside the loop and only logged), or when the stream is
    closed, the loop ends without an exception and the answers after
    that one are not read: the caller gets the greeting, the fragments
    of the chunks read before, the fallback text if there was no
    fragment, and [Done]. *)
Theorem part001_stream_end `{Runtime} (sc : scenario) (w w1 : world)
    (login : jsstring) (chunks : list (Uint8Array * Z))
    (rest : list readResult) :
  openStream sc w = (Normal (login, dataReads chunks ++ rest), w1) →
  Forall (fun c => c.1 ≠ []) chunks →
  endsLoop rest →
  sink (Part001.handle sc w) =
    sink w ++ [Ack; Text (JStr (Part001.greeting login))]
    ++ (Text <$> Part001.reassemble chunks.*1)
    ++ (if bool_decide (Part001.reassemble chunks.*1 = [])
        then [Text (JStr Part001.fallback)] else [])
    ++ [Done].
Proof.
  intros Hopen Hne Hend.
  erewrite part001_handle_loop; [|exact Hopen|].
  2:{ intros w'. rewrite part001_readLoop_chunks by done. cbn zeta.
      by apply part001_readLoop_ends. }
  cbn [Part001.hasValidContent Part001.buffer Part001.decoder orb].
  unfold Part001.reassemble. by destruct (bool_decide _).
Qed.

Lemma part001_stream_end_witness :
  sink (Part001.handle (H := Node.runtime)
          (bobAsks (dataReads [(pingLine, 0%Z)]
                    ++ [ReadRejected (Error (js "socket hang up"));
                        Read (Some helloLine) false 0]))
          freshWorld)
  = sink freshWorld ++ [Ack; Text (JStr (Part001.greeting (js "bob")))]
    ++ (Text <$> Part001.reassemble (H := Node.runtime) [(pingLine, 0%Z)].*1)
    ++ (if bool_decide
             (Part001.reassemble (H := Node.runtime) [(pingLine, 0%Z)].*1 = [])
        then [Text (JStr Part001.fallback)] else [])
    ++ [Done].
Proof.
  eapply (part001_stream_end (H := Node.runtime)
            (bobAsks (dataReads [(pingLine, 0%Z)]
                      ++ [ReadRejected (Error (js "socket hang up"));
                          Read (Some helloLine) false 0]))
            freshWorld _ (js "bob") [(pingLine, 0%Z)]
            [ReadRejected (Error (js "socket hang up"));
             Read (Some helloLine) false 0]).
  - vm_compute. reflexivity.
  - repeat constructor. discriminate.
  - exact I.
Defined.

(** X14.  [fis.ts] and [part_000] report a rejected read.  The
    rejection leaves the loop as an exception: the caller gets the
    greeting and the fragments of the chunks read before it, then one
    [Errors] event with the message of the rejection, and neither a
    fallback text nor [Done]; the answers after the rejected one are
    not read. *)
Theorem read_rejection_reported `{Runtime} (sc : scenario) (w w1 : world)
    (login : jsstring) (chunks : list (Uint8Array * Z)) (e : thrown)
    (rest : list readResult) :
  openStream sc w
  = (Normal (login, dataReads chunks ++ ReadRejected e :: rest), w1) →
  sink (Part000.handle sc w)
  = sink w ++ [Ack; Text (JStr (Part000.greeting login))]
    ++ (Text <$> Part000.reassemble chunks.*1)
    ++ [Part000.errorsEvent e]
  ∧ sink (Fis.handle sc w)
    = sink w ++ [Ack; Text (JStr (Fis.greeting login))]
      ++ (Text <$> Fis.reassemble chunks.*1)
      ++ [Fis.errorsEvent e].
Proof.
  intros Hopen. split.
  - erewrite part000_handle_loop_throw; [done|exact Hopen|].
    intros w'. by rewrite part000_readLoop_chunks.
  - erewrite fis_handle_loop_throw; [done|exact Hopen|].
    intros w'. by rewrite fis_readLoop_chunks.
Qed.

Lemma read_rejection_reported_witness :
  sink (Fis.handle (H := Node.runtime)
          (bobAsks (dataReads [(helloLine, 0%Z)]
                    ++ [ReadRejected (Error (js "socket hang up"))]))
          freshWorld)
  = sink freshWorld ++ [Ack; Text (JStr (Fis.greeting (js "bob")))]
    ++ (Text <$> Fis.reassemble (H := Node.runtime) [(helloLine, 0%Z)].*1)
    ++ [Fis.errorsEvent (Error (js "socket hang up"))].
Proof.
  refine (proj2 (read_rejection_reported (H := Node.runtime)
            (bobAsks (dataReads [(helloLine, 0%Z)]
                      ++ [ReadRejected (Error (js "socket hang up"))]))
            freshWorld
            (openStream (H := Node.runtime)
               (bobAsks (dataReads [(helloLine, 0%Z)]
                         ++ [ReadRejected (Error (js "socket hang up"))]))
               freshWorld).2
            (js "bob") [(helloLine, 0%Z)]
            (Error (js "socket hang up")) [] _)).
  vm_compute. reflexivity.
Defined.

(** X15.  In [part_000] the ordinary end of a stream is an error.  When
    the reader answers that it is done and gives no value (line 132),
    as every reader does at the end of its stream, the loop throws:
    after the greeting and the fragments of the chunks the caller gets
    one [Errors] event with the message
    [LangGraph stream closed before any data was sent.], although data
    was sent, and neither a fallback text nor [Done]. *)
Theorem part000_close_is_reported `{Runtime} (sc : scenario) (w w1 : world)
    (login : jsstring) (chunks : list (Uint8Array * Z))
    (rest : list readResult) :
  openStream sc w = (Normal (login, dataReads chunks ++ rest), w1) →
  closes rest →
  sink (Part000.handle sc w)
  = sink w ++ [Ack; Text (JStr (Part000.greeting login))]
    ++ (Text <$> Part000.reassemble chunks.*1)
    ++ [Errors
          [{| type := js "agent";
              message :=
                js "LangGraph stream closed before any data was sent.";
              code := js "PROCESSING_ERROR";
              identifier := js "processing_error" |}]].
Proof.
  intros Hopen Hclose.
  erewrite part000_handle_loop_throw;
    [|exact Hopen
     |intros w'; rewrite part000_readLoop_chunks; cbn zeta;
      by apply part000_readLoop_closes].
  done.
Qed.

Lemma part000_close_is_reported_witness :
  sink (Part000.handle (H := Node.runtime) helloRun freshWorld)
  = sink freshWorld ++ [Ack; Text (JStr (Part000.greeting (js "bob")))]
    ++ (Text <$> Part000.reassemble (H := Node.runtime)
                   [(helloLine, 0%Z); (emptyContentLine, 0%Z);
                    (pingLine, 0%Z)].*1)
    ++ [Errors
          [{| type := js "agent";
              message :=
                js "LangGraph stream closed before any data was sent.";
              code := js "PROCESSING_ERROR";
              identifier := js "processing_error" |}]].
Proof.
  eapply (part000_close_is_reported (H := Node.runtime) helloRun freshWorld
            _ (js "bob")
            [(helloLine, 0%Z); (emptyContentLine, 0%Z); (pingLine, 0%Z)]
            [Read None true 0]).
  - vm_compute. reflexivity.
  - split; reflexivity.
Defined.

(** ** Empty reads in [part_001]: the stall limit and the keep-alive *)

Section Liveness.
Context `{Runtime}.

(** Empty reads inside the inactivity window only count. *)
Lemma part001_readLoop_idle idle rest s w :
  Forall (fun r =>
            Part001.noData r.1 = true
            ∧ (r.2 - Part001.lastActivityTime s
               ≤ Part001.maxInactivityTime)%Z) idle →
  (Part001.consecutiveEmptyReads s + length idle < Part001.maxEmptyReads)%nat →
  Part001.readLoop (emptyReads idle ++ rest) s w =
    Part001.readLoop rest
      {| Part001.decoder := Part001.decoder s;
         Part001.buffer := Part001.buffer s;
         Part001.hasValidContent := Part001.hasValidContent s;
         Part001.consecutiveEmptyReads :=
           Part001.consecutiveEmptyReads s + length idle;
         Part001.lastActivityTime := Part001.lastActivityTime s |} w.
Proof.
  intros Hidle. revert s Hidle.
  induction idle as [|[v t] idle IH]; intros s Hidle Hcount.
  { cbn [emptyReads map app length]. rewrite Nat.add_0_r. by destruct s. }
  apply Forall_cons in Hidle as [[Hv Ht] Hidle]. cbn [fst snd] in Hv, Ht.
  change (emptyReads ((v, t) :: idle) ++ rest)
    with (Read v false t :: (emptyReads idle ++ rest)).
  cbn [length] in Hcount.
  rewrite part001_readLoop_empty by done. cbn zeta.
  assert ((Part001.maxInactivityTime <? t - Part001.lastActivityTime s)%Z
          = false) as -> by (apply Z.ltb_ge; lia).
  assert ((Part001.maxEmptyReads <=? S (Part001.consecutiveEmptyReads s))%nat
          = false) as Hlt by (apply Nat.leb_gt; lia).
  cbn [Part001.consecutiveEmptyReads]. rewrite Hlt.
  rewrite IH; [|exact Hidle|cbn; lia].
  cbn [Part001.decoder Part001.buffer Part001.hasValidContent
       Part001.consecutiveEmptyReads Part001.lastActivityTime length].
  by rewrite Nat.add_succ_r.
Qed.

(** The read that brings the count to the limit ends the loop. *)
Lemma part001_readLoop_stall idle rest s w :
  Forall (fun r =>
            Part001.noData r.1 = true
            ∧ (r.2 - Part001.lastActivityTime s
               ≤ Part001.maxInactivityTime)%Z) idle →
  (Part001.consecutiveEmptyReads s < Part001.maxEmptyReads)%nat →
  (Part001.consecutiveEmptyReads s + length idle = Part001.maxEmptyReads)%nat →
  Part001.readLoop (emptyReads idle ++ rest) s w =
    (Normal
       {| Part001.decoder := Part001.decoder s;
          Part001.buffer := Part001.buffer s;
          Part001.hasValidContent := Part001.hasValidContent s;
          Part001.consecutiveEmptyReads := Part001.maxEmptyReads;
          Part001.lastActivityTime := Part001.lastActivityTime s |}, w).
Proof.
  intros Hidle. revert s Hidle.
  induction idle as [|[v t] idle IH]; intros s Hidle Hlt Hcount.
  { cbn [length] in Hcount. lia. }
  apply Forall_cons in Hidle as [[Hv Ht] Hidle]. cbn [fst snd] in Hv, Ht.
  change (emptyReads ((v, t) :: idle) ++ rest)
    with (Read v false t :: (emptyReads idle ++ rest)).
  cbn [length] in Hcount.
  rewrite part001_readLoop_empty by done. cbn zeta.
  assert ((Part001.maxInactivityTime <? t - Part001.lastActivityTime s)%Z
          = false) as -> by (apply Z.ltb_ge; lia).
  cbn [Part001.consecutiveEmptyReads].
  destruct (Part001.maxEmptyReads <=? S (Part001.consecutiveEmptyReads s))%nat
    eqn:Hle.
  - apply Nat.leb_le in Hle. do 3 f_equal. lia.
  - apply Nat.leb_gt in Hle.
    rewrite IH; [done|exact Hidle|cbn; lia|cbn; lia].
Qed.

Lemma part001_reassemble_app chunks more :
  Part001.reassemble (chunks ++ more) =
    Part001.reassemble chunks
    ++ Part001.feedAll
         (pending Part001.feed [] (decodeChunks newTextDecoder chunks))
         (decodeChunks (decode newTextDecoder (concat chunks)).1 more).
Proof.
  unfold Part001.reassemble.
  by rewrite decodeChunks_app, part001_feedAll_app.
Qed.

End Liveness.

(** X16.  The stall limit of [part_001].  Fifty answers in a row that
    are not done and carry no data ([maxEmptyReads], line 143), none of
    them later than 60 seconds after the last chunk (or after the start
    of the loop), end the read loop: the answers after them are not
    read, and the request ends like one whose stream closed, with the
    fragments of the chunks read before, the fallback text if there was
    none, and [Done]. *)
Theorem part001_stall `{Runtime} (sc : scenario) (w w1 : world)
    (login : jsstring) (chunks : list (Uint8Array * Z))
    (idle : list (option Uint8Array * Z)) (rest : list readResult) :
  openStream sc w
  = (Normal (login, dataReads chunks ++ emptyReads idle ++ rest), w1) →
  Forall (fun c => c.1 ≠ []) chunks →
  length idle = Part001.maxEmptyReads →
  Forall (fun r =>
            Part001.noData r.1 = true
            ∧ (r.2 - lastArrival (startTime sc) chunks
               ≤ Part001.maxInactivityTime)%Z) idle →
  sink (Part001.handle sc w) =
    sink w ++ [Ack; Text (JStr (Part001.greeting login))]
    ++ (Text <$> Part001.reassemble chunks.*1)
    ++ (if bool_decide (Part001.reassemble chunks.*1 = [])
        then [Text (JStr Part001.fallback)] else [])
    ++ [Done].
Proof.
  intros Hopen Hne Hlen Hidle.
  erewrite part001_handle_loop; [|exact Hopen|].
  2:{ intros w'. rewrite part001_readLoop_chunks by done. cbn zeta.
      apply part001_readLoop_stall.
      - exact Hidle.
      - cbn [Part001.consecutiveEmptyReads]. unfold Part001.maxEmptyReads.
        destruct chunks; lia.
      - cbn [Part001.consecutiveEmptyReads]. rewrite Hlen.
        by destruct chunks. }
  cbn [Part001.hasValidContent Part001.buffer Part001.decoder orb].
  unfold Part001.reassemble. by destruct (bool_decide _).
Qed.

Lemma part001_stall_witness :
  let idle := replicate 50 (@None Uint8Array, 100%Z) in
  sink (Part001.handle (H := Node.runtime)
          (bobAsks (dataReads [(pingLine, 0%Z)] ++ emptyReads idle
                    ++ [Read (Some helloLine) false 200]))
          freshWorld)
  = sink freshWorld ++ [Ack; Text (JStr (Part001.greeting (js "bob")))]
    ++ (Text <$> Part001.reassemble (H := Node.runtime) [(pingLine, 0%Z)].*1)
    ++ (if bool_decide
             (Part001.reassemble (H := Node.runtime) [(pingLine, 0%Z)].*1 = [])
        then [Text (JStr Part001.fallback)] else [])
    ++ [Done].
Proof.
  intros idle.
  refine (part001_stall (H := Node.runtime)
            (bobAsks (dataReads [(pingLine, 0%Z)] ++ emptyReads idle
                      ++ [Read (Some helloLine) false 200]))
            freshWorld
            (openStream (H := Node.runtime)
               (bobAsks (dataReads [(pingLine, 0%Z)] ++ emptyReads idle
                         ++ [Read (Some helloLine) false 200]))
               freshWorld).2
            (js "bob") [(pingLine, 0%Z)] idle
            [Read (Some helloLine) false 200] _ _ _ _).
  - vm_compute. reflexivity.
  - repeat constructor. discriminate.
  - reflexivity.
  - apply Forall_replicate. split; [reflexivity|].
    vm_compute. discriminate.
Defined.

(** X17.  The keep-alive of [part_001].  An answer without data that
    comes more than 60 seconds ([maxInactivityTime], line 145) after the
    last chunk (or after the start of the loop) makes the handler write
    the text of line 163.  This text does not count as content: when the
    stream ends after it, the fallback text is still written if and only
    if the stream yielded no fragment. *)
Theorem part001_keep_alive `{Runtime} (sc : scenario) (w w1 : world)
    (login : jsstring) (chunks : list (Uint8Array * Z))
    (value : option Uint8Array) (now : Z) (rest : list readResult) :
  openStream sc w
  = (Normal (login, dataReads chunks ++ Read value false now :: rest), w1) →
  Forall (fun c => c.1 ≠ []) chunks →
  Part001.noData value = true →
  (Part001.maxInactivityTime < now - lastArrival (startTime sc) chunks)%Z →
  endsLoop rest →
  sink (Part001.handle sc w) =
    sink w ++ [Ack; Text (JStr (Part001.greeting login))]
    ++ (Text <$> Part001.reassemble chunks.*1)
    ++ [Text (JStr Part001.keepAlive)]
    ++ (if bool_decide (Part001.reassemble chunks.*1 = [])
        then [Text (JStr Part001.fallback)] else [])
    ++ [Done].
Proof.
  intros Hopen Hne Hv Hstale Hend.
  erewrite part001_handle_loop; [|exact Hopen|].
  2:{ intros w'. rewrite part001_readLoop_chunks by done. cbn zeta.
      rewrite part001_readLoop_empty by done. cbn zeta.
      cbn [Part001.lastActivityTime].
      rewrite (proj2 (Z.ltb_lt _ _) Hstale).
      change (Part001.maxEmptyReads <=? _)%nat with false. cbv iota.
      rewrite part001_readLoop_ends by done.
      by rewrite emit_emit. }
  cbn [Part001.hasValidContent Part001.buffer Part001.decoder orb].
  unfold Part001.reassemble. rewrite <- !app_assoc.
  by destruct (bool_decide _).
Qed.

Lemma part001_keep_alive_witness :
  sink (Part001.handle (H := Node.runtime)
          (bobAsks (dataReads [(pingLine, 1000%Z)]
                    ++ Read None false 61001 :: [Read None true 61002]))
          freshWorld)
  = sink freshWorld ++ [Ack; Text (JStr (Part001.greeting (js "bob")))]
    ++ (Text <$> Part001.reassemble (H := Node.runtime) [(pingLine, 1000%Z)].*1)
    ++ [Text (JStr Part001.keepAlive)]
    ++ (if bool_decide
             (Part001.reassemble (H := Node.runtime) [(pingLine, 1000%Z)].*1
              = [])
        then [Text (JStr Part001.fallback)] else [])
    ++ [Done].
Proof.
  refine (part001_keep_alive (H := Node.runtime)
            (bobAsks (dataReads [(pingLine, 1000%Z)]
                      ++ Read None false 61001 :: [Read None true 61002]))
            freshWorld
            (openStream (H := Node.runtime)
               (bobAsks (dataReads [(pingLine, 1000%Z)]
                         ++ Read None false 61001 :: [Read None true 61002]))
               freshWorld).2
            (js "bob") [(pingLine, 1000%Z)] None 61001
            [Read None true 61002] _ _ _ _ _).
  - vm_compute. reflexivity.
  - repeat constructor. discriminate.
  - reflexivity.
  - vm_compute. reflexivity.
  - reflexivity.
Defined.

(** X18.  Empty reads below the limits leave no trace in [part_001].
    Fewer than fifty answers without data between the chunks of a
    stream, none of them later than 60 seconds after the chunk before
    them, change nothing: the decoder and the pending buffer are kept
    over them, and the caller gets the events of the stream without
    these answers. *)
Theorem part001_empty_reads_skipped `{Runtime} (sc : scenario) (w w1 : world)
    (login : jsstring) (chunks more : list (Uint8Array * Z))
    (idle : list (option Uint8Array * Z)) (rest : list readResult) :
  openStream sc w
  = (Normal (login,
             dataReads chunks ++ emptyReads idle ++ dataReads more ++ rest),
     w1) →
  Forall (fun c => c.1 ≠ []) chunks → Forall (fun c => c.1 ≠ []) more →
  (length idle < Part001.maxEmptyReads)%nat →
  Forall (fun r =>
            Part001.noData r.1 = true
            ∧ (r.2 - lastArrival (startTime sc) chunks
               ≤ Part001.maxInactivityTime)%Z) idle →
  endsLoop rest →
  sink (Part001.handle sc w) =
    sink w ++ [Ack; Text (JStr (Part001.greeting login))]
    ++ (Text <$> Part001.reassemble (chunks ++ more).*1)
    ++ (if bool_decide (Part001.reassemble (chunks ++ more).*1 = [])
        then [Text (JStr Part001.fallback)] else [])
    ++ [Done].
Proof.
  intros Hopen Hne Hmore Hlen Hidle Hend.
  erewrite part001_handle_loop; [|exact Hopen|].
  2:{ intros w'. rewrite part001_readLoop_chunks by done. cbn zeta.
      rewrite part001_readLoop_idle;
        [|exact Hidle
         |cbn [Part001.consecutiveEmptyReads];
          unfold Part001.maxEmptyReads in *; destruct chunks; simpl; lia].
      rewrite part001_readLoop_chunks by done. cbn zeta.
      rewrite part001_readLoop_ends by done.
      by rewrite emit_emit, <- fmap_app. }
  cbn [Part001.hasValidContent Part001.buffer Part001.decoder orb].
  rewrite (fmap_app fst chunks more), part001_reassemble_app.
  rewrite <- nonempty_fragments.
  by destruct (bool_decide _).
Qed.

Lemma part001_empty_reads_skipped_witness :
  let idle := [(@None Uint8Array, 10%Z); (Some [], 20%Z)] in
  sink (Part001.handle (H := Node.runtime)
          (bobAsks (dataReads [(take 20 helloLine, 0%Z)] ++ emptyReads idle
                    ++ dataReads [(drop 20 helloLine, 30%Z)] ++ []))
          freshWorld)
  = sink freshWorld ++ [Ack; Text (JStr (Part001.greeting (js "bob")))]
    ++ (Text <$> Part001.reassemble (H := Node.runtime)
                   ([(take 20 helloLine, 0%Z)]
                    ++ [(drop 20 helloLine, 30%Z)]).*1)
    ++ (if bool_decide
             (Part001.reassemble (H := Node.runtime)
                ([(take 20 helloLine, 0%Z)]
                 ++ [(drop 20 helloLine, 30%Z)]).*1 = [])
        then [Text (JStr Part001.fallback)] else [])
    ++ [Done].
Proof.
  intros idle.
  refine (part001_empty_reads_skipped (H := Node.runtime)
            (bobAsks (dataReads [(take 20 helloLine, 0%Z)] ++ emptyReads idle
                      ++ dataReads [(drop 20 helloLine, 30%Z)] ++ []))
            freshWorld
            (openStream (H := Node.runtime)
               (bobAsks (dataReads [(take 20 helloLine, 0%Z)]
                         ++ emptyReads idle
                         ++ dataReads [(drop 20 helloLine, 30%Z)] ++ []))
               freshWorld).2
            (js "bob") [(take 20 helloLine, 0%Z)]
            [(drop 20 helloLine, 30%Z)] idle [] _ _ _ _ _ _).
  - vm_compute. reflexivity.
  - repeat constructor. discriminate.
  - repeat constructor. discriminate.
  - vm_compute. lia.
  - repeat constructor; vm_compute; discriminate.
  - exact I.
Defined.

(** ** The guards of the route [POST /] *)

Section Route.
Context `{Runtime}.

Lemma truthy_string s : truthy (Val (JStr s)) = negb (bool_decide (s = [])).
Proof. done. Qed.

(** A handler that acknowledges first, ends with one terminal event and
    sends the user lookup first makes a guarded route. *)
Lemma post_guarded streamHeaders (handle : scenario → world → world) :
  (∀ sc w, ∃ es, sink (handle sc w) = sink w ++ Ack :: es) →
  (∀ sc w, oneTerminalLast (sink w) (sink (handle sc w))) →
  (∀ sc w, sessionEffects sc w (handle sc w)) →
  guarded streamHeaders (Routes.post streamHeaders handle).
Proof.
  intros Hack Hterm Hcalls req sc w. unfold Routes.post.
  rewrite truthy_string, negb_involutive.
  split; [|split; [|split]].
  - intros ->. by rewrite bool_decide_true.
  - intros Ht Hv. rewrite bool_decide_false, Hv by done. done.
  - intros Hnot. destruct (bool_decide _) eqn:Ht; [done|].
    apply bool_decide_eq_false in Ht.
    destruct (Routes.verification req) as [e|[]] eqn:Hv; [done| |done].
    exfalso. apply Hnot.
    destruct (Routes.githubToken req) as [t|] eqn:Hg; [|done].
    by exists t.
  - intros (t & Hg & Ht & Hv). rewrite Hg, Hv. cbn [default from_option id].
    rewrite bool_decide_false by done. cbn [negb fst snd].
    set (w0 := {| sink := []; calls := calls w;
                  userThreads := userThreads w |}).
    destruct (Hack sc w0) as (es1 & Hes1).
    destruct (Hterm sc w0) as (es2 & last & Hes2 & Hlast & Hquiet).
    destruct (Hcalls sc w0) as (cs & Hcs & _).
    cbn [sink calls w0 app] in Hes1, Hes2, Hcs.
    destruct es2 as [|e2 es2].
    { rewrite Hes1 in Hes2. injection Hes2 as <- _. done. }
    rewrite Hes1 in Hes2. injection Hes2 as <- Hes2.
    exists cs, es2, last. rewrite Hcs, Hes1, Hes2.
    by apply Forall_cons in Hquiet as [_ Hquiet].
Qed.

End Route.

(** X19.  The guards of the route, in the three revisions.  A request
    without the header [X-GitHub-Token], or with an empty one, is
    answered with the one event [Errors] whose entry has the code
    [MISSING_GITHUB_TOKEN]; the signature is not even checked.  A
    request with a token whose signature is not valid is answered with
    status 401 and the text [Request could not be verified].  In both
    cases, and when the check itself fails, nothing is sent to GitHub
    or to the agent and [userThreads] is untouched.  Only a request
    with a token and a valid signature reaches the handler: the user
    lookup is sent first, and the reply has status 200, the headers of
    the revision and the events of the handler, [Ack] first and exactly
    one terminal event last. *)
Theorem route_guards `{Runtime} :
  guarded [(js "Content-Type", js "text/event-stream");
           (js "Cache-Control", js "no-cache");
           (js "Connection", js "keep-alive");
           (js "X-Content-Type-Options", js "nosniff")] Routes.part001
  ∧ guarded [(js "Content-Type", js "text/html");
             (js "X-Content-Type-Options", js "nosniff")] Routes.part000
  ∧ guarded [(js "Content-Type", js "text/html");
             (js "X-Content-Type-Options", js "nosniff")] Routes.fis.
Proof.
  split; [|split]; apply post_guarded; intros sc w.
  - destruct (part001_handle_events sc w) as (es & Hes & _). by exists es.
  - apply (one_terminal (Part001.attempt sc) Part001.errorsEvent);
      [apply finishes_part001|done].
  - apply part001_sessionEffects.
  - destruct (part000_handle_events sc w) as (es & Hes & _). by exists es.
  - apply (one_terminal (Part000.attempt sc) Part000.errorsEvent);
      [apply finishes_part000|done].
  - apply part000_sessionEffects.
  - destruct (fis_handle_events sc w) as (es & Hes & _). by exists es.
  - apply (one_terminal (Fis.attempt sc) Fis.errorsEvent);
      [apply finishes_fis|done].
  - apply fis_sessionEffects.
Qed.
Lemma route_guards_witness :
  Routes.part001 (H := Node.runtime) anonymousRequest helloRun freshWorld
  = (Normal {| Routes.replyStatus := 200; Routes.replyHeaders := [];
               Routes.replyContent :=
                 Routes.Events [Errors [Routes.missingToken]] |}, freshWorld)
  ∧ Routes.part001 (H := Node.runtime) forgedRequest helloRun freshWorld
    = (Normal {| Routes.replyStatus := 401;
                 Routes.replyHeaders := [(js "Content-Type", js "text/plain")];
                 Routes.replyContent :=
                   Routes.PlainText (js "Request could not be verified") |},
       freshWorld)
  ∧ ∃ cs es t,
      calls (Routes.part001 (H := Node.runtime) signedRequest helloRun
               freshWorld).2 = calls freshWorld ++ GetUser :: cs
      ∧ (Routes.part001 (H := Node.runtime) signedRequest helloRun
           freshWorld).1
        = Normal {| Routes.replyStatus := 200;
                    Routes.replyHeaders :=
                      [(js "Content-Type", js "text/event-stream");
                       (js "Cache-Control", js "no-cache");
                       (js "Connection", js "keep-alive");
                       (js "X-Content-Type-Options", js "nosniff")];
                    Routes.replyContent := Routes.Events (Ack :: es ++ [t]) |}
      ∧ Forall (fun e => isTerminal e = false) es
      ∧ isTerminal t = true.
Proof.
  destruct (route_guards (H := Node.runtime)) as (Hguard & _ & _).
  split; [|split].
  - exact (proj1 (Hguard anonymousRequest helloRun freshWorld) eq_refl).
  - refine (proj1 (proj2 (Hguard forgedRequest helloRun freshWorld))
                  _ eq_refl).
    discriminate.
  - refine (proj2 (proj2 (proj2 (Hguard signedRequest helloRun freshWorld)))
                  _).
    exists (js "ghu_1"). split; [reflexivity|]. split; [discriminate|].
    reflexivity.
Defined.

(** ** The three revisions side by side *)

Section Revisions.
Context `{Runtime}.

Lemma startsWith_prefix s p : startsWith s p = true → ∃ r, s = p ++ r.
Proof.
  revert s. induction p as [|c p IH]; intros s; [by exists s|].
  destruct s as [|d s]; [done|]. cbn [startsWith].
  intros [->%N.eqb_eq Hs]%andb_true_iff.
  destruct (IH s Hs) as [r ->]. by exists r.
Qed.

Lemma trimStart_idemp s : trimStart (trimStart s) = trimStart s.
Proof.
  induction s as [|c s IH]; [done|]. cbn [trimStart].
  destruct (isWhiteSpace c) eqn:Hc; [done|]. cbn [trimStart]. by rewrite Hc.
Qed.

Lemma trimStart_app x y :
  trimStart x ≠ [] → trimStart (x ++ y) = trimStart x ++ y.
Proof.
  induction x as [|c x IH]; [done|]. cbn [trimStart app].
  by destruct (isWhiteSpace c).
Qed.

Lemma trimStart_keeps x c :
  isWhiteSpace c = false → trimStart (x ++ [c]) ≠ [].
Proof.
  intros Hc. induction x as [|d x IH]; cbn [trimStart app].
  - by rewrite Hc.
  - by destruct (isWhiteSpace d).
Qed.

Lemma trimEnd_idemp s : trimEnd (trimEnd s) = trimEnd s.
Proof. unfold trimEnd. by rewrite rev_involutive, trimStart_idemp. Qed.

(** What follows a prefix of a trimmed text that does not end the text
    with white space is trimmed itself. *)
Lemma trimEnd_suffix a c r :
  isWhiteSpace c = false →
  trimEnd (a ++ c :: r) = a ++ c :: r → trimEnd (c :: r) = c :: r.
Proof.
  intros Hc. unfold trimEnd. rewrite rev_app_distr.
  assert (trimStart (rev (c :: r)) ≠ []) as Hne.
  { induction r as [|d r IH] using rev_ind.
    - cbn. by rewrite Hc.
    - change (c :: r ++ [d]) with ((c :: r) ++ [d]).
      rewrite rev_app_distr. cbn [rev app trimStart].
      destruct (isWhiteSpace d); [|done].
      exact IH. }
  rewrite trimStart_app by done. rewrite rev_app_distr, rev_involutive.
  by intros ?%app_inv_head.
Qed.

Lemma payload_trimmed l :
  startsWith (trim l) (js "data: {") = true →
  trim (slice 6 (trim l)) = slice 6 (trim l)
  ∧ ∃ r, slice 6 (trim l) = 123 :: r.
Proof.
  intros Hp. pose proof (trimEnd_idemp (trimStart l)) as Hend.
  fold (trim l) in Hend.
  destruct (startsWith_prefix _ _ Hp) as [r Hr]. rewrite Hr in *.
  change (slice 6 (js "data: {" ++ r)) with (123 :: r).
  split; [|by exists r]. unfold trim.
  change (trimStart (123 :: r)) with (123 :: r).
  by apply (trimEnd_suffix (js "data: ")).
Qed.

Lemma part000_processEvent_prefix eventObj :
  Part000.processEvent eventObj `prefix_of` Part001.processEvent eventObj.
Proof.
  unfold Part000.processEvent, Part001.processEvent.
  destruct (getProp eventObj (js "messages")) as [messages|]; [|done].
  destruct (truthy messages && isArray messages); [|apply prefix_nil].
  change Part001.messageBody with Part000.messageBody.
  destruct (forOf Part000.messageBody (elementsOf messages)) as [w completed].
  cbn [fst]. destruct completed; [|done].
  destruct (getProp eventObj (js "content")); [|done].
  by apply prefix_app_r.
Qed.

Lemma part000_processLine_prefix l :
  Part000.processLine l `prefix_of` Part001.processLine l.
Proof.
  unfold Part000.processLine. cbn zeta.
  destruct (startsWith (trim l) (js "data: {")) eqn:Hp; [|apply prefix_nil].
  destruct (payload_trimmed l Hp) as [Htrim [r Hr]].
  unfold Part001.processLine. cbn zeta.
  rewrite (startsWith_weaken _ (js "data: ") (js "{") Hp).
  rewrite Htrim, Hr.
  destruct (startsWith_prefix _ _ Hp) as [r' Hr'].
  rewrite bool_decide_false by (by rewrite Hr').
  unfold str_eqb. rewrite !bool_decide_false by done.
  cbn [orb]. change (startsWith (123 :: r) (js "{")) with true. cbv iota.
  destruct (JSON_parse (123 :: r)) as [eventObj|]; [|done].
  apply part000_processEvent_prefix.
Qed.

Lemma prefix_is_sublist {A} (l k : list A) :
  l `prefix_of` k → l `sublist_of` k.
Proof. intros [r ->]. by apply sublist_inserts_r. Qed.

Lemma sublist_flat_map {A B} (f g : A → list B) ls :
  (∀ l, f l `sublist_of` g l) → flat_map f ls `sublist_of` flat_map g ls.
Proof.
  intros Hfg. induction ls as [|l ls IH]; [done|].
  cbn [flat_map]. by apply sublist_app.
Qed.

Lemma forOf_sublist (f g : json → option (list json)) msgs :
  (∀ msg, match f msg, g msg with
          | Some v, Some w => v `sublist_of` w
          | None, None => True
          | _, _ => False
          end) →
  (forOf f msgs).1 `sublist_of` (forOf g msgs).1.
Proof.
  intros Hfg. induction msgs as [|m msgs IH]; [done|].
  cbn [forOf]. pose proof (Hfg m) as Hm.
  destruct (f m) as [v|], (g m) as [w|]; try done.
  destruct (forOf f msgs) as [v' ?], (forOf g msgs) as [w' ?].
  cbn [fst] in *. by apply sublist_app.
Qed.

Lemma part000_messageBody_fis msg :
  match Part000.messageBody msg, Fis.messageBody msg with
  | Some v, Some w => v `sublist_of` w
  | None, None => True
  | _, _ => False
  end.
Proof.
  unfold Part000.messageBody, Fis.messageBody.
  destruct (messageFields msg) as [[[ty content] tc]|]; [|done].
  cbn [mbind option_bind].
  destruct (strictEqStr ty (js "ai")); [|done].
  destruct (truthy content); [|done].
  destruct (noToolCalls tc); [|by rewrite !andb_false_r].
  rewrite !andb_true_r. cbn [andb].
  destruct (nonBlankString content); [done|apply sublist_nil_l].
Qed.

Lemma part000_processEvent_fis eventObj :
  Part000.processEvent eventObj `sublist_of` Fis.processEvent eventObj.
Proof.
  unfold Part000.processEvent, Fis.processEvent.
  destruct (getProp eventObj (js "messages")) as [messages|]; [|done].
  destruct (truthy messages && isArray messages) eqn:Harr;
    [|apply sublist_nil_l].
  apply andb_true_iff in Harr as [_ Harr].
  rewrite (isArray_elements _ Harr) at 2. cbn [Fis.iterate].
  apply forOf_sublist, part000_messageBody_fis.
Qed.

Lemma part000_processLine_fis b l :
  short b → Part000.processLine l `sublist_of` Fis.processLine b l.
Proof.
  intros Hb. unfold Part000.processLine. cbn zeta.
  destruct (startsWith (trim l) (js "event: values")) eqn:Hev.
  { rewrite (event_line_not_data _ Hev). apply sublist_nil_l. }
  unfold Fis.processLine. cbn zeta.
  rewrite Hev, (proj2 (Nat.ltb_lt _ _) Hb), andb_true_r.
  destruct (startsWith (trim l) (js "data: {")); [|apply sublist_nil_l].
  destruct (JSON_parse _) as [eventObj|]; [|apply sublist_nil_l].
  apply part000_processEvent_fis.
Qed.

End Revisions.

(** X20.  What the revisions forward, side by side.  [part_001] forwards
    every fragment [part_000] forwards, in the same order: on every
    line the fragments of [part_000] are the first fragments of
    [part_001] (which adds the [content] of the record itself), so the
    fragments of a stream in [part_000] are a subsequence of those in
    [part_001].  They are a subsequence of those in [fis.ts] too (which
    also forwards contents that are blank or not a string), for streams
    none of whose lines reaches 4096 code units. *)
Theorem revisions_forward_more `{Runtime} (chunks : list Uint8Array) :
  (∀ line, Part000.processLine line `prefix_of` Part001.processLine line)
  ∧ Part000.reassemble chunks `sublist_of` Part001.reassemble chunks
  ∧ (Forall short (split LF (streamText chunks)) →
     Part000.reassemble chunks `sublist_of` Fis.reassemble chunks).
Proof.
  split; [apply part000_processLine_prefix|].
  unfold Part000.reassemble, Part001.reassemble, Fis.reassemble.
  rewrite part000_feedAll_lines, part001_feedAll_lines by constructor.
  split.
  - apply sublist_flat_map. intros l. apply prefix_is_sublist.
    apply part000_processLine_prefix.
  - intros Hshort.
    rewrite fis_feedAll_lines;
      [|constructor|by rewrite app_nil_l, decodeChunks_concat].
    apply sublist_flat_map. intros l.
    apply part000_processLine_fis. unfold short. simpl. lia.
Qed.

Lemma revisions_forward_more_witness :
  Forall short (split LF (streamText (H := Node.runtime) [helloLine; pingLine]))
  ∧ Part000.reassemble (H := Node.runtime) [helloLine; pingLine]
    `sublist_of` Fis.reassemble (H := Node.runtime) [helloLine; pingLine].
Proof.
  assert (Forall short
            (split LF (streamText (H := Node.runtime) [helloLine; pingLine])))
    as Hshort.
  { apply (bool_decide_unpack _). vm_compute. exact I. }
  split; [exact Hshort|].
  exact (proj2 (proj2 (revisions_forward_more (H := Node.runtime)
                         [helloLine; pingLine])) Hshort).
Defined.

(** ** Answers without a value in [fis.ts] and [part_000] *)

Section Valueless.
Context `{Runtime}.

Lemma fis_handle_loop sc w login reads w1 s' es :
  openStream sc w = (Normal (login, reads), w1) →
  (∀ w',
     Fis.readLoop reads
       {| Fis.decoder := newTextDecoder; Fis.buffer := [] |} w'
     = (Normal s', emit w' es)) →
  sink (Fis.handle sc w) =
    sink w ++ [Ack; Text (JStr (Fis.greeting login))] ++ es ++ [Done].
Proof.
  intros Hopen Hloop. unfold Fis.handle, Fis.attempt.
  erewrite bind_normal by exact Hopen. cbv beta iota.
  erewrite bind_normal by apply write_emit.
  erewrite bind_normal by apply Hloop.
  pose proof (openStream_sink sc w) as Hs. rewrite Hopen in Hs.
  cbn [snd] in Hs.
  rewrite write_emit, !emit_emit. cbn [emit sink app].
  rewrite Hs, <- !app_assoc. done.
Qed.

Lemma fis_readLoop_closes rest s w :
  closes rest → Fis.readLoop rest s w = (Normal s, w).
Proof.
  destruct rest as [|[value fin now|e] rest]; [done| |done].
  cbn [closes Fis.readLoop]. by intros [-> ->].
Qed.

Lemma fis_readLoop_valueless idle rest s w :
  Forall (fun r => r.1 = None) idle →
  Fis.readLoop (emptyReads idle ++ rest) s w = Fis.readLoop rest s w.
Proof.
  induction 1 as [|[v t] idle Hv _ IH]; [done|].
  cbn [fst] in Hv. subst v.
  change (emptyReads ((None, t) :: idle) ++ rest)
    with (Read None false t :: (emptyReads idle ++ rest)).
  cbn [Fis.readLoop Fis.consume].
  by erewrite bind_normal by reflexivity.
Qed.

Lemma part000_readLoop_valueless idle rest s w :
  Forall (fun r => r.1 = None) idle →
  Part000.readLoop (emptyReads idle ++ rest) s w = Part000.readLoop rest s w.
Proof.
  induction 1 as [|[v t] idle Hv _ IH]; [done|].
  cbn [fst] in Hv. subst v.
  change (emptyReads ((None, t) :: idle) ++ rest)
    with (Read None false t :: (emptyReads idle ++ rest)).
  cbn [Part000.readLoop Part000.consume]. rewrite andb_false_r.
  by erewrite bind_normal by reflexivity.
Qed.

Lemma part000_reassemble_app chunks more :
  Part000.reassemble (chunks ++ more) =
    Part000.reassemble chunks
    ++ Part000.feedAll
         (pending Part000.feed [] (decodeChunks newTextDecoder chunks))
         (decodeChunks (decode newTextDecoder (concat chunks)).1 more).
Proof.
  unfold Part000.reassemble.
  by rewrite decodeChunks_app, part000_feedAll_app.
Qed.

Lemma fis_reassemble_app chunks more :
  Fis.reassemble (chunks ++ more) =
    Fis.reassemble chunks
    ++ Fis.feedAll
         (pending Fis.feed [] (decodeChunks newTextDecoder chunks))
         (decodeChunks (decode newTextDecoder (concat chunks)).1 more).
Proof.
  unfold Fis.reassemble.
  by rewrite decodeChunks_app, fis_feedAll_app.
Qed.

End Valueless.

(** X21.  [fis.ts] and [part_000] have no stall limit.  Answers that
    are not done and carry no value are skipped, however many there
    are: the decoder and the pending buffer are kept over them and the
    loop goes on reading.  When the stream closes later, the caller of
    [fis.ts] gets the fragments of all the chunks and [Done], the caller
    of [part_000] the fragments and the [Errors] event of line 133. *)
Theorem valueless_reads_unlimited `{Runtime} (sc : scenario) (w w1 : world)
    (login : jsstring) (chunks more : list (Uint8Array * Z))
    (idle : list (option Uint8Array * Z)) (tail : list readResult) :
  openStream sc w
  = (Normal (login,
             dataReads chunks ++ emptyReads idle ++ dataReads more ++ tail),
     w1) →
  Forall (fun r => r.1 = None) idle →
  closes tail →
  sink (Fis.handle sc w)
  = sink w ++ [Ack; Text (JStr (Fis.greeting login))]
    ++ (Text <$> Fis.reassemble (chunks ++ more).*1) ++ [Done]
  ∧ sink (Part000.handle sc w)
    = sink w ++ [Ack; Text (JStr (Part000.greeting login))]
      ++ (Text <$> Part000.reassemble (chunks ++ more).*1)
      ++ [Part000.errorsEvent Part000.closedEarly].
Proof.
  intros Hopen Hidle Hclose. split.
  - erewrite fis_handle_loop; [|exact Hopen|].
    2:{ intros w'. rewrite fis_readLoop_chunks.
        rewrite fis_readLoop_valueless by done.
        rewrite fis_readLoop_chunks.
        rewrite fis_readLoop_closes by done.
        by rewrite emit_emit, <- fmap_app. }
    cbn [Fis.buffer Fis.decoder].
    by rewrite (fmap_app fst chunks more), fis_reassemble_app.
  - erewrite part000_handle_loop_throw; [|exact Hopen|].
    2:{ intros w'. rewrite part000_readLoop_chunks. cbn zeta.
        rewrite part000_readLoop_valueless by done.
        rewrite part000_readLoop_chunks. cbn zeta.
        rewrite part000_readLoop_closes by done.
        by rewrite emit_emit, <- fmap_app. }
    cbn [Part000.buffer Part000.decoder].
    by rewrite (fmap_app fst chunks more), part000_reassemble_app.
Qed.

Lemma valueless_reads_unlimited_witness :
  let idle := replicate 60 (@None Uint8Array, 100%Z) in
  sink (Fis.handle (H := Node.runtime)
          (bobAsks (dataReads [(take 20 helloLine, 0%Z)] ++ emptyReads idle
                    ++ dataReads [(drop 20 helloLine, 200%Z)] ++ []))
          freshWorld)
  = sink freshWorld ++ [Ack; Text (JStr (Fis.greeting (js "bob")))]
    ++ (Text <$> Fis.reassemble (H := Node.runtime)
                   ([(take 20 helloLine, 0%Z)]
                    ++ [(drop 20 helloLine, 200%Z)]).*1)
    ++ [Done].
Proof.
  intros idle.
  refine (proj1 (valueless_reads_unlimited (H := Node.runtime)
            (bobAsks (dataReads [(take 20 helloLine, 0%Z)] ++ emptyReads idle
                      ++ dataReads [(drop 20 helloLine, 200%Z)] ++ []))
            freshWorld
            (openStream (H := Node.runtime)
               (bobAsks (dataReads [(take 20 helloLine, 0%Z)]
                         ++ emptyReads idle
                         ++ dataReads [(drop 20 helloLine, 200%Z)] ++ []))
               freshWorld).2
            (js "bob") [(take 20 helloLine, 0%Z)]
            [(drop 20 helloLine, 200%Z)] idle [] _ _ _)).
  - vm_compute. reflexivity.
  - by apply Forall_replicate.
  - exact I.
Defined.
